(** * engine.io server core: sessions, transports and the request verifier

    A shallow embedding of [lib/socket.js], [lib/transport.js],
    [lib/transports/websocket.js], [lib/transports/index.js] and
    [lib/server.js].  Objects are records, methods are functions that take
    the object and return the updated object.  Everything a session does to
    the outside world (events it emits, calls it makes on a transport,
    timers it arms or clears, send callbacks it invokes) is appended to a
    log kept in the session record, oldest entry first.

    Listeners of the application and send callbacks are logged, not run:
    what they do is not part of the program.  The listeners the library
    registers itself are part of the state and are run when their event is
    emitted.  A timer is a field that holds the delay it was armed with
    while it is pending; its expiry is a function of its own.  The polling
    transport (lib/transports/polling.js) is not among the sources: its
    name, its lack of framing and its [send] follow the specification, its
    [doClose] and [onRequest] are parameters. *)

From Stdlib Require Import String Ascii ZArith List Bool Lia DecimalString.
From Stdlib Require DecimalPos DecimalZ.
From stdpp Require Import base gmap strings fin_maps.
Import ListNotations.

Local Open Scope string_scope.
Local Open Scope Z_scope.

(** ** JavaScript values that travel through the code *)

Module JS.

(** The values a packet payload, an option field or an error argument can
    hold.  A [Buffer] is an object, hence truthy even when empty. *)
Inductive Val :=
| Undefined
| Null
| Bool (b : bool)
| Num (n : Z)
| Str (s : string)
| Buffer (bytes : list Byte.byte).

(** ToBoolean, as used by [if (data)], [code || ...], [if (sid)]. *)
Definition truthy (v : Val) : bool :=
  match v with
  | Undefined | Null => false
  | Bool b => b
  | Num n => negb (n =? 0)
  | Str s => negb (String.eqb s "")
  | Buffer _ => true
  end.

(** Decimal rendering of an integer, as ToString and JSON.stringify give. *)
Definition string_of_Z (n : Z) : string :=
  NilZero.string_of_int (Z.to_int n).

(** The text of a Buffer, which [toString] decodes from UTF-8, when it is a
    text of the strings used here (characters up to 0xFF): a byte below
    0x80 is a character, and 0xC2 or 0xC3 with a continuation byte is one of
    the characters 0x80 to 0xFF.  [None] when the bytes hold a longer or an
    invalid sequence: the text then holds a character above 0xFF or the
    replacement character, and is not expressed here. *)
Fixpoint utf8_text (bytes : list Byte.byte) : option string :=
  match bytes with
  | [] => Some ""
  | b :: r =>
      let n := Byte.to_N b in
      if (n <? 128)%N then option_map (String (ascii_of_N n)) (utf8_text r)
      else
        match r with
        | c :: r' =>
            let m := Byte.to_N c in
            if ((n =? 194) || (n =? 195))%N && (128 <=? m)%N && (m <? 192)%N
            then option_map (String (ascii_of_N ((n - 192) * 64 + (m - 128))))
                   (utf8_text r')
            else None
        | [] => None
        end
  end.

(** ToString, as used for property keys ([hasOwnProperty(code)],
    [Server.errorMessages[code]]) and by [String(code)]; [None] for a
    Buffer whose text is not expressed here. *)
Definition to_key (v : Val) : option string :=
  match v with
  | Undefined => Some "undefined"
  | Null => Some "null"
  | Bool true => Some "true"
  | Bool false => Some "false"
  | Num n => Some (string_of_Z n)
  | Str s => Some s
  | Buffer bytes => utf8_text bytes
  end.

(** [false !== v] *)
Definition not_false (v : Val) : bool :=
  match v with
  | Bool false => false
  | _ => true
  end.

End JS.

(** ** JSON.stringify on the object literals the code serialises *)

Module Json.

#[local] Set Warnings "-register-all".

Inductive t :=
| Null
| Bool (b : bool)
| Num (n : Z)
| Str (s : string)
| Arr (items : list t)
| Obj (fields : list (string * t)).

Definition hex_digit (n : nat) : ascii :=
  nth n (list_ascii_of_string "0123456789abcdef") "0"%char.

(** One character of a string literal: quote and backslash are escaped,
    control characters are written as short escapes or [\u00XX]. *)
Definition escape_char (c : ascii) : string :=
  let n := nat_of_ascii c in
  if Nat.eqb n 34 then String "\" (String c "")
  else if Nat.eqb n 92 then "\\"
  else if Nat.eqb n 8 then "\b"
  else if Nat.eqb n 9 then "\t"
  else if Nat.eqb n 10 then "\n"
  else if Nat.eqb n 12 then "\f"
  else if Nat.eqb n 13 then "\r"
  else if Nat.ltb n 32 then
    "\u00" ++ String (hex_digit (n / 16)) (String (hex_digit (n mod 16)) "")
  else String c "".

Fixpoint escape (s : string) : string :=
  match s with
  | EmptyString => ""
  | String c r => escape_char c ++ escape r
  end.

Definition quote (s : string) : string :=
  String (ascii_of_nat 34) (escape s ++ String (ascii_of_nat 34) "").

Fixpoint stringify (j : t) : string :=
  match j with
  | Null => "null"
  | Bool true => "true"
  | Bool false => "false"
  | Num n => JS.string_of_Z n
  | Str s => quote s
  | Arr items =>
      "[" ++
      (fix go (l : list t) : string :=
         match l with
         | [] => ""
         | [x] => stringify x
         | x :: r => stringify x ++ "," ++ go r
         end) items
      ++ "]"
  | Obj fields =>
      "{" ++
      (fix go (l : list (string * t)) : string :=
         match l with
         | [] => ""
         | [(k, v)] => quote k ++ ":" ++ stringify v
         | (k, v) :: r => quote k ++ ":" ++ stringify v ++ "," ++ go r
         end) fields
      ++ "}"
  end.

End Json.

(** ** Packets *)

(** [options] of an outbound packet; only [compress] is read by the code. *)
Record Options := { compress : bool }.

(** A packet [{type, data?, options?}].  An absent field is [None]. *)
Record Packet := {
  type : string;
  data : option JS.Val;
  options : option Options
}.

(** The literals [{ type: "pong", data: "probe" }] and [{ type: "noop" }]. *)
Definition pong_probe : Packet :=
  {| type := "pong"; data := Some (JS.Str "probe"); options := None |}.
Definition noop_packet : Packet :=
  {| type := "noop"; data := None; options := None |}.

(** ** Transports (lib/transport.js, lib/transports/websocket.js) *)

Module Transport.

Inductive Kind := Polling | WebSocket.

Inductive ReadyState := Open | Closing | Closed.

(** Listeners the session registers on a transport, named after the function
    that is registered.  The first four come from [Socket.setTransport],
    [OnDrain] from [Socket.setupSendCallback], the [Upgrade*] ones from
    [Socket.maybeUpgrade], [Silence] from [Socket.clearTransport]. *)
Inductive Listener :=
| OnError
| OnPacket
| Flush
| OnClose
| OnDrain
| UpgradeOnPacket
| UpgradeOnTransportClose
| UpgradeOnError
| Silence.

Definition listener_eqb (a b : Listener) : bool :=
  match a, b with
  | OnError, OnError | OnPacket, OnPacket | Flush, Flush | OnClose, OnClose
  | OnDrain, OnDrain | UpgradeOnPacket, UpgradeOnPacket
  | UpgradeOnTransportClose, UpgradeOnTransportClose
  | UpgradeOnError, UpgradeOnError | Silence, Silence => true
  | _, _ => false
  end.

(** A transport object.  [tid] stands for the object's identity; [wire] is
    what was handed to the connection, one entry per write; [pending] is
    the batch a polling transport holds back until a GET arrives. *)
Record t := {
  tid : nat;
  kind : Kind;
  readyState : ReadyState;
  writable : bool;
  discarded : bool;
  sid : option string;
  listeners : list Listener;
  wire : list (list Packet);
  pending : list Packet
}.

Definition set_readyState (v : ReadyState) (x : t) : t :=
  {| tid := tid x; kind := kind x; readyState := v; writable := writable x;
     discarded := discarded x; sid := sid x; listeners := listeners x;
     wire := wire x; pending := pending x |}.
Definition set_writable (v : bool) (x : t) : t :=
  {| tid := tid x; kind := kind x; readyState := readyState x; writable := v;
     discarded := discarded x; sid := sid x; listeners := listeners x;
     wire := wire x; pending := pending x |}.
Definition set_discarded (v : bool) (x : t) : t :=
  {| tid := tid x; kind := kind x; readyState := readyState x;
     writable := writable x; discarded := v; sid := sid x;
     listeners := listeners x; wire := wire x; pending := pending x |}.
Definition set_sid (v : option string) (x : t) : t :=
  {| tid := tid x; kind := kind x; readyState := readyState x;
     writable := writable x; discarded := discarded x; sid := v;
     listeners := listeners x; wire := wire x; pending := pending x |}.
Definition set_listeners (v : list Listener) (x : t) : t :=
  {| tid := tid x; kind := kind x; readyState := readyState x;
     writable := writable x; discarded := discarded x; sid := sid x;
     listeners := v; wire := wire x; pending := pending x |}.
Definition set_wire (v : list (list Packet)) (x : t) : t :=
  {| tid := tid x; kind := kind x; readyState := readyState x;
     writable := writable x; discarded := discarded x; sid := sid x;
     listeners := listeners x; wire := v; pending := pending x |}.
Definition set_pending (v : list Packet) (x : t) : t :=
  {| tid := tid x; kind := kind x; readyState := readyState x;
     writable := writable x; discarded := discarded x; sid := sid x;
     listeners := listeners x; wire := wire x; pending := v |}.

(** Modelled from the spec: the polling transport (lib/transports/polling.js
    is not among the sources) is named "polling". *)
Definition pollingName : string := "polling".

(** Modelled from the spec: the polling transport concatenates the packets
    of a batch, so it does not preserve packet boundaries. *)
Definition pollingSupportsFraming : bool := false.

(** Modelled from the spec: the polling transport cannot be the target of
    an upgrade. *)
Definition pollingHandlesUpgrades : bool := false.

(** Modelled from the spec: the polling transport is writable exactly while
    a GET is parked, so it is not when it is constructed. *)
Definition pollingWritableAtStart : bool := false.

(** Modelled from the spec: [send] of the polling transport, when writable,
    writes the batch at once and releases the parked GET; otherwise it
    appends the batch to the pending slot. *)
Definition pollingSend (packets : list Packet) (x : t) : t :=
  if writable x
  then set_writable false (set_wire (wire x ++ [packets]) x)
  else set_pending (pending x ++ packets) x.

(** [get name()] *)
Definition name (x : t) : string :=
  match kind x with
  | Polling => pollingName
  | WebSocket => "websocket"
  end.

(** [get supportsFraming()] *)
Definition supportsFraming (x : t) : bool :=
  match kind x with
  | Polling => pollingSupportsFraming
  | WebSocket => true
  end.

(** [get handlesUpgrades()] *)
Definition handlesUpgrades (x : t) : bool :=
  match kind x with
  | Polling => pollingHandlesUpgrades
  | WebSocket => true
  end.

(** The constructors: [Transport] sets [readyState] and [discarded],
    [WebSocket] registers on the ws connection and sets [writable = true]. *)
Definition create (i : nat) (k : Kind) : t :=
  {| tid := i; kind := k; readyState := Open;
     writable :=
       match k with WebSocket => true | Polling => pollingWritableAtStart end;
     discarded := false; sid := None; listeners := []; wire := [];
     pending := [] |}.

(** [discard()] *)
Definition discard (x : t) : t := set_discarded true x.

(** [WebSocket.send(packets)]: every packet is encoded and written as a
    message of its own; each write clears [writable] (it is set again by the
    write's completion callback, see [onEnd]). *)
Definition send (packets : list Packet) (x : t) : t :=
  match kind x with
  | WebSocket =>
      match packets with
      | [] => x
      | _ => set_writable false
               (set_wire (wire x ++ map (fun p => [p]) packets) x)
      end
  | Polling => pollingSend packets x
  end.

(** [onEnd] of [WebSocket.send] on success: the transport is writable again
    (the caller then emits "drain"). *)
Definition onEnd (x : t) : t := set_writable true x.

(** [on], [once] and [removeListener] *)
Definition on (l : Listener) (x : t) : t :=
  set_listeners (listeners x ++ [l]) x.

Fixpoint remove_first (l : Listener) (ls : list Listener) : list Listener :=
  match ls with
  | [] => []
  | h :: r => if listener_eqb h l then r else h :: remove_first l r
  end.

Definition removeListener (l : Listener) (x : t) : t :=
  set_listeners (remove_first l (listeners x)) x.

Definition listening (l : Listener) (x : t) : bool :=
  existsb (listener_eqb l) (listeners x).

Section Close.

(** [doClose] of the polling transport is not among the sources: it is a
    parameter.  It returns the transport after the call and whether the
    callback it was given has been invoked before it returns.  Closing may
    write to the connection and move [readyState]; the object remains the
    same object, with the flags and listeners the session gave it. *)
Variable pollingDoClose : t -> t * bool.

Definition closedAs (x y : t) : t :=
  {| tid := tid x; kind := kind x; readyState := readyState y;
     writable := writable y; discarded := discarded x; sid := sid x;
     listeners := listeners x; wire := wire y; pending := pending y |}.

(** [WebSocket.doClose(fn)]: closes the connection and calls [fn]. *)
Definition doClose (x : t) : t * bool :=
  match kind x with
  | WebSocket => (x, true)
  | Polling => (closedAs x (fst (pollingDoClose x)), snd (pollingDoClose x))
  end.

(** [close(fn)]: nothing when already closing or closed. *)
Definition close (x : t) : t * bool :=
  match readyState x with
  | Closed | Closing => (x, false)
  | Open => doClose (set_readyState Closing x)
  end.

End Close.

(** [onClose()]: the connection is gone (the caller then emits "close"). *)
Definition onClose (x : t) : t := set_readyState Closed x.

End Transport.

(** ** Requests and server options (lib/server.js) *)

Module Http.

(** [req._query], as [Server.prepare] leaves it. *)
Record Query := {
  q_transport : option string;
  q_sid : option string;
  q_b64 : option string
}.

(** [origin] is [req.headers.origin], [None] when it is undefined or null;
    [websocket] tells whether [req.websocket] is set (by
    [Server.onWebSocket]), [res] whether [req.res] is (by
    [Server.handleRequest]). *)
Record Request := {
  method : string;
  query : Query;
  origin : option string;
  websocket : bool;
  res : bool
}.

(** What [res.writeHead(status, headers)] and [res.end(body)] produce. *)
Record Response := {
  status : Z;
  headers : list (string * string);
  body : string
}.

End Http.

(** [server.opts], the fields the modelled code reads.  [allowRequest]
    calls back with [(err, success)]; it is taken to do so once, before it
    returns. *)
Record Opts := {
  pingTimeout : Z;
  pingInterval : Z;
  upgradeTimeout : Z;
  transports : list string;
  allowUpgrades : bool;
  initialPacket : JS.Val;
  allowRequest : option (Http.Request -> JS.Val * bool)
}.

(** The defaults of the [Server] constructor ([Object.keys(transports)] is
    [["polling", "websocket"]], see lib/transports/index.js). *)
Definition default_opts : Opts :=
  {| pingTimeout := 5000; pingInterval := 25000; upgradeTimeout := 10000;
     transports := ["polling"; "websocket"]; allowUpgrades := true;
     initialPacket := JS.Undefined; allowRequest := None |}.

(** [exports.polling.upgradesTo = ["websocket"]]; the websocket class has no
    [upgradesTo]. *)
Definition upgradesTo (name : string) : option (list string) :=
  if String.eqb name "polling" then Some ["websocket"]
  else if String.eqb name "websocket" then Some []
  else None.

(** [Server.upgrades(transport)].  A name outside the table makes the
    source throw; a transport's own name is always in it. *)
Definition upgrades (o : Opts) (name : string) : list string :=
  if negb (allowUpgrades o) then []
  else match upgradesTo name with
       | Some l => l
       | None => []
       end.

(** [array.indexOf(x) !== -1] on an array of strings *)
Definition includes (l : list string) (x : string) : bool :=
  existsb (String.eqb x) l.

(** ** Sessions (lib/socket.js) *)

Module Socket.

Inductive ReadyState := Opening | Open | Closing | Closed.

(** A send callback, by identity. *)
Definition Callback := nat.

(** An entry of [sentCallbackFn]: a function, or an array of functions. *)
Inductive SeqFn :=
| Fn (f : Callback)
| Batch (fs : list Callback).

(** The closures pushed on [cleanupFn], by the function that pushes them. *)
Inductive Cleanup :=
| CleanupSendCallback      (* pushed by setupSendCallback *)
| CleanupTransport.        (* pushed by setTransport *)

Inductive TimerName := PingInterval | PingTimeout | CheckInterval | UpgradeTimeout.

(** Events of the session's EventEmitter; transports are named by [tid]. *)
Inductive Event :=
| EvOpen
| EvPacket (p : Packet)
| EvHeartbeat
| EvData (d : option JS.Val)
| EvMessage (d : option JS.Val)
| EvPacketCreate (p : Packet)
| EvFlush (buf : list Packet)
| EvDrain
| EvUpgrading (tr : nat)
| EvUpgrade (tr : nat)
| EvClose (reason : string) (description : option string).

(** Everything a session does that is visible from outside it. *)
Inductive Effect :=
| Emit (e : Event)                         (* this.emit(...) *)
| ServerEmit (e : Event)                   (* this.server.emit(..., this, ...) *)
| Invoke (f : Callback)                    (* a send callback is called *)
| SetTimer (n : TimerName) (ms : Z)        (* setTimeout / setInterval *)
| ClearTimer (n : TimerName)               (* clearTimeout / clearInterval *)
| TSend (tr : nat) (packets : list Packet) (* transport.send(packets) *)
| TDiscard (tr : nat)                      (* transport.discard() *)
| TClose (tr : nat) (forced : bool).       (* transport.close(fn); forced when
                                              fn is onClose("forced close") *)

Record t := {
  id : string;
  opts : Opts;      (* this.server.opts *)
  upgrading : bool;
  upgraded : bool;
  readyState : ReadyState;
  writeBuffer : list Packet;
  packetsFn : list Callback;
  sentCallbackFn : list SeqFn;
  cleanupFn : list Cleanup;
  transport : Transport.t;
  checkIntervalTimer : option Z;
  upgradeTimeoutTimer : option Z;
  pingTimeoutTimer : option Z;
  pingIntervalTimer : option Z;
  drainListeners : list bool;      (* once("drain", closeTransport.bind(this, discard)) *)
  closeListener : bool;      (* once("close", onClose) of maybeUpgrade *)
  candidate : option Transport.t;      (* the transport maybeUpgrade closes over *)
  retired : list Transport.t;      (* transports the session no longer refers to *)
  nextTick : bool;      (* process.nextTick(writeBuffer = []) is queued *)
  log : list Effect      (* what the session did, oldest first *)
}.

Definition set_upgrading (v : bool) (s : t) : t :=
  {| id := id s; opts := opts s; upgrading := v; upgraded := upgraded s;
     readyState := readyState s; writeBuffer := writeBuffer s;
     packetsFn := packetsFn s; sentCallbackFn := sentCallbackFn s;
     cleanupFn := cleanupFn s; transport := transport s;
     checkIntervalTimer := checkIntervalTimer s;
     upgradeTimeoutTimer := upgradeTimeoutTimer s;
     pingTimeoutTimer := pingTimeoutTimer s;
     pingIntervalTimer := pingIntervalTimer s;
     drainListeners := drainListeners s; closeListener := closeListener s;
     candidate := candidate s; retired := retired s; nextTick := nextTick s;
     log := log s |}.
Definition set_upgraded (v : bool) (s : t) : t :=
  {| id := id s; opts := opts s; upgrading := upgrading s; upgraded := v;
     readyState := readyState s; writeBuffer := writeBuffer s;
     packetsFn := packetsFn s; sentCallbackFn := sentCallbackFn s;
     cleanupFn := cleanupFn s; transport := transport s;
     checkIntervalTimer := checkIntervalTimer s;
     upgradeTimeoutTimer := upgradeTimeoutTimer s;
     pingTimeoutTimer := pingTimeoutTimer s;
     pingIntervalTimer := pingIntervalTimer s;
     drainListeners := drainListeners s; closeListener := closeListener s;
     candidate := candidate s; retired := retired s; nextTick := nextTick s;
     log := log s |}.
Definition set_readyState (v : ReadyState) (s : t) : t :=
  {| id := id s; opts := opts s; upgrading := upgrading s;
     upgraded := upgraded s; readyState := v; writeBuffer := writeBuffer s;
     packetsFn := packetsFn s; sentCallbackFn := sentCallbackFn s;
     cleanupFn := cleanupFn s; transport := transport s;
     checkIntervalTimer := checkIntervalTimer s;
     upgradeTimeoutTimer := upgradeTimeoutTimer s;
     pingTimeoutTimer := pingTimeoutTimer s;
     pingIntervalTimer := pingIntervalTimer s;
     drainListeners := drainListeners s; closeListener := closeListener s;
     candidate := candidate s; retired := retired s; nextTick := nextTick s;
     log := log s |}.
Definition set_writeBuffer (v : list Packet) (s : t) : t :=
  {| id := id s; opts := opts s; upgrading := upgrading s;
     upgraded := upgraded s; readyState := readyState s; writeBuffer := v;
     packetsFn := packetsFn s; sentCallbackFn := sentCallbackFn s;
     cleanupFn := cleanupFn s; transport := transport s;
     checkIntervalTimer := checkIntervalTimer s;
     upgradeTimeoutTimer := upgradeTimeoutTimer s;
     pingTimeoutTimer := pingTimeoutTimer s;
     pingIntervalTimer := pingIntervalTimer s;
     drainListeners := drainListeners s; closeListener := closeListener s;
     candidate := candidate s; retired := retired s; nextTick := nextTick s;
     log := log s |}.
Definition set_packetsFn (v : list Callback) (s : t) : t :=
  {| id := id s; opts := opts s; upgrading := upgrading s;
     upgraded := upgraded s; readyState := readyState s;
     writeBuffer := writeBuffer s; packetsFn := v;
     sentCallbackFn := sentCallbackFn s; cleanupFn := cleanupFn s;
     transport := transport s; checkIntervalTimer := checkIntervalTimer s;
     upgradeTimeoutTimer := upgradeTimeoutTimer s;
     pingTimeoutTimer := pingTimeoutTimer s;
     pingIntervalTimer := pingIntervalTimer s;
     drainListeners := drainListeners s; closeListener := closeListener s;
     candidate := candidate s; retired := retired s; nextTick := nextTick s;
     log := log s |}.
Definition set_sentCallbackFn (v : list SeqFn) (s : t) : t :=
  {| id := id s; opts := opts s; upgrading := upgrading s;
     upgraded := upgraded s; readyState := readyState s;
     writeBuffer := writeBuffer s; packetsFn := packetsFn s;
     sentCallbackFn := v; cleanupFn := cleanupFn s; transport := transport s;
     checkIntervalTimer := checkIntervalTimer s;
     upgradeTimeoutTimer := upgradeTimeoutTimer s;
     pingTimeoutTimer := pingTimeoutTimer s;
     pingIntervalTimer := pingIntervalTimer s;
     drainListeners := drainListeners s; closeListener := closeListener s;
     candidate := candidate s; retired := retired s; nextTick := nextTick s;
     log := log s |}.
Definition set_cleanupFn (v : list Cleanup) (s : t) : t :=
  {| id := id s; opts := opts s; upgrading := upgrading s;
     upgraded := upgraded s; readyState := readyState s;
     writeBuffer := writeBuffer s; packetsFn := packetsFn s;
     sentCallbackFn := sentCallbackFn s; cleanupFn := v;
     transport := transport s; checkIntervalTimer := checkIntervalTimer s;
     upgradeTimeoutTimer := upgradeTimeoutTimer s;
     pingTimeoutTimer := pingTimeoutTimer s;
     pingIntervalTimer := pingIntervalTimer s;
     drainListeners := drainListeners s; closeListener := closeListener s;
     candidate := candidate s; retired := retired s; nextTick := nextTick s;
     log := log s |}.
Definition set_transport (v : Transport.t) (s : t) : t :=
  {| id := id s; opts := opts s; upgrading := upgrading s;
     upgraded := upgraded s; readyState := readyState s;
     writeBuffer := writeBuffer s; packetsFn := packetsFn s;
     sentCallbackFn := sentCallbackFn s; cleanupFn := cleanupFn s;
     transport := v; checkIntervalTimer := checkIntervalTimer s;
     upgradeTimeoutTimer := upgradeTimeoutTimer s;
     pingTimeoutTimer := pingTimeoutTimer s;
     pingIntervalTimer := pingIntervalTimer s;
     drainListeners := drainListeners s; closeListener := closeListener s;
     candidate := candidate s; retired := retired s; nextTick := nextTick s;
     log := log s |}.
Definition set_checkIntervalTimer (v : option Z) (s : t) : t :=
  {| id := id s; opts := opts s; upgrading := upgrading s;
     upgraded := upgraded s; readyState := readyState s;
     writeBuffer := writeBuffer s; packetsFn := packetsFn s;
     sentCallbackFn := sentCallbackFn s; cleanupFn := cleanupFn s;
     transport := transport s; checkIntervalTimer := v;
     upgradeTimeoutTimer := upgradeTimeoutTimer s;
     pingTimeoutTimer := pingTimeoutTimer s;
     pingIntervalTimer := pingIntervalTimer s;
     drainListeners := drainListeners s; closeListener := closeListener s;
     candidate := candidate s; retired := retired s; nextTick := nextTick s;
     log := log s |}.
Definition set_upgradeTimeoutTimer (v : option Z) (s : t) : t :=
  {| id := id s; opts := opts s; upgrading := upgrading s;
     upgraded := upgraded s; readyState := readyState s;
     writeBuffer := writeBuffer s; packetsFn := packetsFn s;
     sentCallbackFn := sentCallbackFn s; cleanupFn := cleanupFn s;
     transport := transport s; checkIntervalTimer := checkIntervalTimer s;
     upgradeTimeoutTimer := v; pingTimeoutTimer := pingTimeoutTimer s;
     pingIntervalTimer := pingIntervalTimer s;
     drainListeners := drainListeners s; closeListener := closeListener s;
     candidate := candidate s; retired := retired s; nextTick := nextTick s;
     log := log s |}.
Definition set_pingTimeoutTimer (v : option Z) (s : t) : t :=
  {| id := id s; opts := opts s; upgrading := upgrading s;
     upgraded := upgraded s; readyState := readyState s;
     writeBuffer := writeBuffer s; packetsFn := packetsFn s;
     sentCallbackFn := sentCallbackFn s; cleanupFn := cleanupFn s;
     transport := transport s; checkIntervalTimer := checkIntervalTimer s;
     upgradeTimeoutTimer := upgradeTimeoutTimer s; pingTimeoutTimer := v;
     pingIntervalTimer := pingIntervalTimer s;
     drainListeners := drainListeners s; closeListener := closeListener s;
     candidate := candidate s; retired := retired s; nextTick := nextTick s;
     log := log s |}.
Definition set_pingIntervalTimer (v : option Z) (s : t) : t :=
  {| id := id s; opts := opts s; upgrading := upgrading s;
     upgraded := upgraded s; readyState := readyState s;
     writeBuffer := writeBuffer s; packetsFn := packetsFn s;
     sentCallbackFn := sentCallbackFn s; cleanupFn := cleanupFn s;
     transport := transport s; checkIntervalTimer := checkIntervalTimer s;
     upgradeTimeoutTimer := upgradeTimeoutTimer s;
     pingTimeoutTimer := pingTimeoutTimer s; pingIntervalTimer := v;
     drainListeners := drainListeners s; closeListener := closeListener s;
     candidate := candidate s; retired := retired s; nextTick := nextTick s;
     log := log s |}.
Definition set_drainListeners (v : list bool) (s : t) : t :=
  {| id := id s; opts := opts s; upgrading := upgrading s;
     upgraded := upgraded s; readyState := readyState s;
     writeBuffer := writeBuffer s; packetsFn := packetsFn s;
     sentCallbackFn := sentCallbackFn s; cleanupFn := cleanupFn s;
     transport := transport s; checkIntervalTimer := checkIntervalTimer s;
     upgradeTimeoutTimer := upgradeTimeoutTimer s;
     pingTimeoutTimer := pingTimeoutTimer s;
     pingIntervalTimer := pingIntervalTimer s; drainListeners := v;
     closeListener := closeListener s; candidate := candidate s;
     retired := retired s; nextTick := nextTick s; log := log s |}.
Definition set_closeListener (v : bool) (s : t) : t :=
  {| id := id s; opts := opts s; upgrading := upgrading s;
     upgraded := upgraded s; readyState := readyState s;
     writeBuffer := writeBuffer s; packetsFn := packetsFn s;
     sentCallbackFn := sentCallbackFn s; cleanupFn := cleanupFn s;
     transport := transport s; checkIntervalTimer := checkIntervalTimer s;
     upgradeTimeoutTimer := upgradeTimeoutTimer s;
     pingTimeoutTimer := pingTimeoutTimer s;
     pingIntervalTimer := pingIntervalTimer s;
     drainListeners := drainListeners s; closeListener := v;
     candidate := candidate s; retired := retired s; nextTick := nextTick s;
     log := log s |}.
Definition set_candidate (v : option Transport.t) (s : t) : t :=
  {| id := id s; opts := opts s; upgrading := upgrading s;
     upgraded := upgraded s; readyState := readyState s;
     writeBuffer := writeBuffer s; packetsFn := packetsFn s;
     sentCallbackFn := sentCallbackFn s; cleanupFn := cleanupFn s;
     transport := transport s; checkIntervalTimer := checkIntervalTimer s;
     upgradeTimeoutTimer := upgradeTimeoutTimer s;
     pingTimeoutTimer := pingTimeoutTimer s;
     pingIntervalTimer := pingIntervalTimer s;
     drainListeners := drainListeners s; closeListener := closeListener s;
     candidate := v; retired := retired s; nextTick := nextTick s;
     log := log s |}.
Definition set_retired (v : list Transport.t) (s : t) : t :=
  {| id := id s; opts := opts s; upgrading := upgrading s;
     upgraded := upgraded s; readyState := readyState s;
     writeBuffer := writeBuffer s; packetsFn := packetsFn s;
     sentCallbackFn := sentCallbackFn s; cleanupFn := cleanupFn s;
     transport := transport s; checkIntervalTimer := checkIntervalTimer s;
     upgradeTimeoutTimer := upgradeTimeoutTimer s;
     pingTimeoutTimer := pingTimeoutTimer s;
     pingIntervalTimer := pingIntervalTimer s;
     drainListeners := drainListeners s; closeListener := closeListener s;
     candidate := candidate s; retired := v; nextTick := nextTick s;
     log := log s |}.
Definition set_nextTick (v : bool) (s : t) : t :=
  {| id := id s; opts := opts s; upgrading := upgrading s;
     upgraded := upgraded s; readyState := readyState s;
     writeBuffer := writeBuffer s; packetsFn := packetsFn s;
     sentCallbackFn := sentCallbackFn s; cleanupFn := cleanupFn s;
     transport := transport s; checkIntervalTimer := checkIntervalTimer s;
     upgradeTimeoutTimer := upgradeTimeoutTimer s;
     pingTimeoutTimer := pingTimeoutTimer s;
     pingIntervalTimer := pingIntervalTimer s;
     drainListeners := drainListeners s; closeListener := closeListener s;
     candidate := candidate s; retired := retired s; nextTick := v;
     log := log s |}.
Definition set_log (v : list Effect) (s : t) : t :=
  {| id := id s; opts := opts s; upgrading := upgrading s;
     upgraded := upgraded s; readyState := readyState s;
     writeBuffer := writeBuffer s; packetsFn := packetsFn s;
     sentCallbackFn := sentCallbackFn s; cleanupFn := cleanupFn s;
     transport := transport s; checkIntervalTimer := checkIntervalTimer s;
     upgradeTimeoutTimer := upgradeTimeoutTimer s;
     pingTimeoutTimer := pingTimeoutTimer s;
     pingIntervalTimer := pingIntervalTimer s;
     drainListeners := drainListeners s; closeListener := closeListener s;
     candidate := candidate s; retired := retired s; nextTick := nextTick s;
     log := v |}.

Definition record (e : Effect) (s : t) : t := set_log (log s ++ [e]) s.

(** [this.emit(...)] as far as the application sees it; the listeners the
    library itself registers are run by [emitDrain] and [emitClose]. *)
Definition emit (e : Event) (s : t) : t := record (Emit e) s.

Definition timer (n : TimerName) (s : t) : option Z :=
  match n with
  | PingInterval => pingIntervalTimer s
  | PingTimeout => pingTimeoutTimer s
  | CheckInterval => checkIntervalTimer s
  | UpgradeTimeout => upgradeTimeoutTimer s
  end.

Definition set_timer (n : TimerName) (v : option Z) (s : t) : t :=
  match n with
  | PingInterval => set_pingIntervalTimer v s
  | PingTimeout => set_pingTimeoutTimer v s
  | CheckInterval => set_checkIntervalTimer v s
  | UpgradeTimeout => set_upgradeTimeoutTimer v s
  end.

(** A timer field holds [Some ms] while a timer armed with [ms] is pending. *)
Definition clearTimer (n : TimerName) (s : t) : t :=
  record (ClearTimer n) (set_timer n None s).
Definition armTimer (n : TimerName) (ms : Z) (s : t) : t :=
  record (SetTimer n ms) (set_timer n (Some ms) s).

(** [this.transport.send(packets)] *)
Definition transportSend (packets : list Packet) (s : t) : t :=
  record (TSend (Transport.tid (transport s)) packets)
    (set_transport (Transport.send packets (transport s)) s).

(** [schedulePing()] *)
Definition schedulePing (s : t) : t :=
  armTimer PingInterval (pingInterval (opts s)) (clearTimer PingInterval s).

(** [resetPingTimeout(timeout)] *)
Definition resetPingTimeout (timeout : Z) (s : t) : t :=
  armTimer PingTimeout timeout (clearTimer PingTimeout s).

(** [setupSendCallback()], without the body of [onDrain] *)
Definition setupSendCallback (s : t) : t :=
  let s := set_transport (Transport.on Transport.OnDrain (transport s)) s in
  set_cleanupFn (cleanupFn s ++ [CleanupSendCallback]) s.

(** [setTransport(transport)] *)
Definition setTransport (tr : Transport.t) (s : t) : t :=
  let tr := Transport.on Transport.OnError tr in
  let tr := Transport.on Transport.OnPacket tr in
  let tr := Transport.on Transport.Flush tr in
  let tr := Transport.on Transport.OnClose tr in
  let s := set_transport tr s in
  let s := setupSendCallback s in
  set_cleanupFn (cleanupFn s ++ [CleanupTransport]) s.

(** The closures on [cleanupFn].  The one of [setTransport] captured the
    transport it was given; [clearTransport], their only caller, runs before
    the next [setTransport], so that transport is [this.transport]. *)
Definition runCleanup (c : Cleanup) (s : t) : t :=
  match c with
  | CleanupSendCallback =>
      set_transport (Transport.removeListener Transport.OnDrain (transport s)) s
  | CleanupTransport =>
      let tr := transport s in
      let tr := Transport.removeListener Transport.OnError tr in
      let tr := Transport.removeListener Transport.OnPacket tr in
      let tr := Transport.removeListener Transport.Flush tr in
      let tr := Transport.removeListener Transport.OnClose tr in
      set_transport tr s
  end.

(** The loop of [clearTransport]: [toCleanUp] times, shift and call. *)
Fixpoint shiftCleanups (toCleanUp : nat) (s : t) : t :=
  match toCleanUp with
  | O => s
  | S n =>
      match cleanupFn s with
      | [] => s
      | c :: r => shiftCleanups n (runCleanup c (set_cleanupFn r s))
      end
  end.

(** [cleanup()] of [maybeUpgrade] *)
Definition cleanup (s : t) : t :=
  let s := set_upgrading false s in
  let s := clearTimer CheckInterval s in
  let s := clearTimer UpgradeTimeout s in
  let unlisten tr :=
    Transport.removeListener Transport.UpgradeOnError
      (Transport.removeListener Transport.UpgradeOnTransportClose
         (Transport.removeListener Transport.UpgradeOnPacket tr)) in
  let s := set_candidate (option_map unlisten (candidate s)) s in
  set_closeListener false s.

Section WithPolling.

(** [doClose] of the polling transport, see [Transport.doClose]. *)
Variable pollingDoClose : Transport.t -> Transport.t * bool.

(** [transport.close()] on the candidate of [maybeUpgrade]; the closed
    transport is of no further use to the session.  [candidate] is [None]
    when the closure has set [transport = null]; its listeners are gone by
    then and nothing calls it. *)
Definition closeCandidate (s : t) : t :=
  match candidate s with
  | None => s
  | Some c =>
      let c' := fst (Transport.close pollingDoClose c) in
      let s := record (TClose (Transport.tid c) false) s in
      set_candidate None (set_retired (retired s ++ [c']) s)
  end.

(** [onError(err)] of [maybeUpgrade], also reached through
    [onTransportClose] and [onClose]: the last statement is
    [transport = null]. *)
Definition upgradeOnError (s : t) : t := closeCandidate (cleanup s).

(** [this.emit("close", reason, description)]: the application's listeners,
    then the [once] listener of [maybeUpgrade] if it is registered. *)
Definition emitClose (reason : string) (description : option string) (s : t) : t :=
  let s := emit (EvClose reason description) s in
  if closeListener s then upgradeOnError (set_closeListener false s) else s.

(** [clearTransport()] *)
Definition clearTransport (s : t) : t :=
  let s := shiftCleanups (length (cleanupFn s)) s in
  let s := set_transport (Transport.on Transport.Silence (transport s)) s in
  let tr := fst (Transport.close pollingDoClose (transport s)) in
  let s := record (TClose (Transport.tid tr) false) (set_transport tr s) in
  clearTimer PingTimeout s.

(** [onClose(reason, description)] *)
Definition onClose (reason : string) (description : option string) (s : t) : t :=
  match readyState s with
  | Closed => s
  | _ =>
      let s := set_readyState Closed s in
      let s := clearTimer PingInterval s in
      let s := clearTimer PingTimeout s in
      let s := clearTimer CheckInterval s in
      let s := clearTimer UpgradeTimeout s in
      let s := set_nextTick true s in
      let s := set_packetsFn [] s in
      let s := set_sentCallbackFn [] s in
      let s := clearTransport s in
      emitClose reason description s
  end.

(** The function queued by [onClose] with [process.nextTick]. *)
Definition runNextTick (s : t) : t :=
  if nextTick s then set_writeBuffer [] (set_nextTick false s) else s.

(** [onError(err)] *)
Definition onError (err : string) (s : t) : t :=
  onClose "transport error" (Some err) s.

(** [closeTransport(discard)].  When the transport does not call the
    callback before [close] returns, the callback stays with the
    transport. *)
Definition closeTransport (discard : bool) (s : t) : t :=
  let s :=
    if discard
    then record (TDiscard (Transport.tid (transport s)))
           (set_transport (Transport.discard (transport s)) s)
    else s in
  let '(tr, now) := Transport.close pollingDoClose (transport s) in
  let s := record (TClose (Transport.tid tr) true) (set_transport tr s) in
  if now then onClose "forced close" None s else s.

(** [this.emit("drain")]: the application's listeners, then the [once]
    listeners registered by [close], each removed as it is called. *)
Definition emitDrain (s : t) : t :=
  let s := emit EvDrain s in
  let ls := drainListeners s in
  fold_left (fun s d => closeTransport d s) ls (set_drainListeners [] s).

(** [flush()] *)
Definition flush (s : t) : t :=
  if match readyState s with Closed => false | _ => true end
     && Transport.writable (transport s)
     && negb (Nat.eqb (length (writeBuffer s)) 0)
  then
    let s := emit (EvFlush (writeBuffer s)) s in
    let s := record (ServerEmit (EvFlush (writeBuffer s))) s in
    let wbuf := writeBuffer s in
    let s := set_writeBuffer [] s in
    let s :=
      if negb (Transport.supportsFraming (transport s))
      then set_sentCallbackFn (sentCallbackFn s ++ [Batch (packetsFn s)]) s
      else set_sentCallbackFn (sentCallbackFn s ++ map Fn (packetsFn s)) s in
    let s := set_packetsFn [] s in
    let s := transportSend wbuf s in
    let s := emitDrain s in
    record (ServerEmit EvDrain) s
  else s.

(** The [options] argument of [sendPacket]: absent, a function (then it is
    the callback), or an object whose [compress] field holds a value. *)
Inductive OptionsArg :=
| NoOptions
| OptionsFn (f : Callback)
| OptionsObj (compressField : JS.Val).

(** [sendPacket(type, data, options, callback)] *)
Definition sendPacket (ty : string) (d : JS.Val) (o : OptionsArg)
    (callback : option Callback) (s : t) : t :=
  let callback := match o with OptionsFn f => Some f | _ => callback end in
  let compressField := match o with OptionsObj c => c | _ => JS.Undefined end in
  let options := {| compress := JS.not_false compressField |} in
  match readyState s with
  | Closing | Closed => s
  | _ =>
      let packet :=
        {| type := ty;
           data := if JS.truthy d then Some d else None;
           options := Some options |} in
      let s := emit (EvPacketCreate packet) s in
      let s := set_writeBuffer (writeBuffer s ++ [packet]) s in
      let s :=
        match callback with
        | Some f => set_packetsFn (packetsFn s ++ [f]) s
        | None => s
        end in
      flush s
  end.

(** What a method returns: [this] or nothing. *)
Inductive Ret := This | Nothing.

(** [send(data, options, callback)] and its alias [write] *)
Definition send (d : JS.Val) (o : OptionsArg) (callback : option Callback)
    (s : t) : t * Ret :=
  (sendPacket "message" d o callback s, This).

Definition write (d : JS.Val) (o : OptionsArg) (callback : option Callback)
    (s : t) : t * Ret :=
  (sendPacket "message" d o callback s, This).

(** The callback armed by [schedulePing], run when the timer expires. *)
Definition pingIntervalExpires (s : t) : t :=
  match pingIntervalTimer s with
  | None => s
  | Some _ =>
      let s := set_pingIntervalTimer None s in
      let s := sendPacket "ping" JS.Undefined NoOptions None s in
      resetPingTimeout (pingTimeout (opts s)) s
  end.

(** The callback armed by [resetPingTimeout], run when the timer expires. *)
Definition pingTimeoutExpires (s : t) : t :=
  match pingTimeoutTimer s with
  | None => s
  | Some _ =>
      let s := set_pingTimeoutTimer None s in
      match readyState s with
      | Closed => s
      | _ => onClose "ping timeout" None s
      end
  end.

(** [onPacket(packet)] *)
Definition onPacket (packet : Packet) (s : t) : t :=
  match readyState s with
  | Open =>
      let s := emit (EvPacket packet) s in
      let s :=
        resetPingTimeout (pingInterval (opts s) + pingTimeout (opts s)) s in
      if String.eqb (type packet) "pong" then
        emit EvHeartbeat (schedulePing s)
      else if String.eqb (type packet) "error" then
        onClose "parse error" None s
      else if String.eqb (type packet) "message" then
        emit (EvMessage (data packet)) (emit (EvData (data packet)) s)
      else s
  | _ => s
  end.

(** [onDrain()] of [setupSendCallback] *)
Definition onDrain (s : t) : t :=
  match sentCallbackFn s with
  | [] => s
  | seqFn :: rest =>
      let s := set_sentCallbackFn rest s in
      match seqFn with
      | Fn f => record (Invoke f) s
      | Batch fs => fold_left (fun s f => record (Invoke f) s) fs s
      end
  end.

(** [getAvailableUpgrades()] *)
Definition getAvailableUpgrades (s : t) : list string :=
  let allUpgrades := upgrades (opts s) (Transport.name (transport s)) in
  filter (fun upg => includes (transports (opts s)) upg) allUpgrades.

(** The object literal serialised by [onOpen]. *)
Definition handshakeData (s : t) : Json.t :=
  Json.Obj
    [("sid", Json.Str (id s));
     ("upgrades", Json.Arr (map Json.Str (getAvailableUpgrades s)));
     ("pingInterval", Json.Num (pingInterval (opts s)));
     ("pingTimeout", Json.Num (pingTimeout (opts s)))].

(** [onOpen()] *)
Definition onOpen (s : t) : t :=
  let s := set_readyState Open s in
  let s := set_transport (Transport.set_sid (Some (id s)) (transport s)) s in
  let s :=
    sendPacket "open" (JS.Str (Json.stringify (handshakeData s)))
      NoOptions None s in
  let s :=
    if JS.truthy (initialPacket (opts s))
    then sendPacket "message" (initialPacket (opts s)) NoOptions None s
    else s in
  let s := emit EvOpen s in
  schedulePing s.

(** [new Socket(id, server, transport, req)]; [remoteAddress] and [request]
    are stored and never read by the modelled code. *)
Definition create (i : string) (o : Opts) (tr : Transport.t) : t :=
  let s :=
    {| id := i; opts := o; upgrading := false; upgraded := false;
       readyState := Opening; writeBuffer := []; packetsFn := [];
       sentCallbackFn := []; cleanupFn := []; transport := tr;
       checkIntervalTimer := None; upgradeTimeoutTimer := None;
       pingTimeoutTimer := None; pingIntervalTimer := None;
       drainListeners := []; closeListener := false; candidate := None;
       retired := []; nextTick := false; log := [] |} in
  onOpen (setTransport tr s).

(** [close(discard)] *)
Definition close (discard : bool) (s : t) : t * Ret :=
  match readyState s with
  | Open =>
      let s := set_readyState Closing s in
      if negb (Nat.eqb (length (writeBuffer s)) 0)
      then (set_drainListeners (drainListeners s ++ [discard]) s, Nothing)
      else (closeTransport discard s, Nothing)
  | _ => (s, Nothing)
  end.

(** [maybeUpgrade(transport)].  [Server.onWebSocket] calls it only on a
    session that is neither upgrading nor upgraded, so one closure is live
    at a time and [candidate] holds its transport. *)
Definition maybeUpgrade (tr : Transport.t) (s : t) : t :=
  let s := set_upgrading true s in
  let s := armTimer UpgradeTimeout (upgradeTimeout (opts s)) s in
  let tr := Transport.on Transport.UpgradeOnPacket tr in
  let tr := Transport.on Transport.UpgradeOnTransportClose tr in
  let tr := Transport.on Transport.UpgradeOnError tr in
  let s := set_candidate (Some tr) s in
  set_closeListener true s.

(** The timeout armed by [maybeUpgrade], run when it expires. *)
Definition upgradeTimeoutExpires (s : t) : t :=
  match upgradeTimeoutTimer s with
  | None => s
  | Some _ =>
      let s := cleanup (set_upgradeTimeoutTimer None s) in
      match candidate s with
      | Some c =>
          match Transport.readyState c with
          | Transport.Open => closeCandidate s
          | _ => s
          end
      | None => s
      end
  end.

(** [check()] of [maybeUpgrade], run every 100 ms while the interval is
    armed. *)
Definition check (s : t) : t :=
  if String.eqb "polling" (Transport.name (transport s))
     && Transport.writable (transport s)
  then transportSend [noop_packet] s
  else s.

Definition checkIntervalTick (s : t) : t :=
  match checkIntervalTimer s with
  | None => s
  | Some _ => check s
  end.

Definition is_probe (d : option JS.Val) : bool :=
  match d with
  | Some (JS.Str x) => String.eqb "probe" x
  | _ => false
  end.

(** [onPacket(packet)] of [maybeUpgrade], the "packet" listener on the
    candidate transport. *)
Definition upgradeOnPacket (packet : Packet) (s : t) : t :=
  match candidate s with
  | None => s
  | Some c =>
      if String.eqb "ping" (type packet) && is_probe (data packet) then
        let s := record (TSend (Transport.tid c) [pong_probe])
                   (set_candidate (Some (Transport.send [pong_probe] c)) s) in
        let s := emit (EvUpgrading (Transport.tid c)) s in
        let s := clearTimer CheckInterval s in
        armTimer CheckInterval 100 s
      else if String.eqb "upgrade" (type packet)
              && match readyState s with Closed => false | _ => true end then
        let s := cleanup s in
        let s := record (TDiscard (Transport.tid (transport s)))
                   (set_transport (Transport.discard (transport s)) s) in
        let s := set_upgraded true s in
        let s := clearTransport s in
        let s := set_retired (retired s ++ [transport s]) s in
        let s :=
          match candidate s with
          | Some c => set_candidate None (setTransport c s)
          | None => s
          end in
        let s := emit (EvUpgrade (Transport.tid (transport s))) s in
        let s := schedulePing s in
        let s := flush s in
        match readyState s with
        | Closing => closeTransport false s
        | _ => s
        end
      else
        closeCandidate (cleanup s)
  end.

(** The events a transport emits. *)
Inductive TEvent :=
| TError (err : string)
| TPacket (p : Packet)
| TDrain
| TClosed.

Definition handles (e : TEvent) (l : Transport.Listener) : bool :=
  match e, l with
  | TError _, (Transport.OnError | Transport.UpgradeOnError | Transport.Silence)
  | TPacket _, (Transport.OnPacket | Transport.UpgradeOnPacket)
  | TDrain, (Transport.Flush | Transport.OnDrain)
  | TClosed, (Transport.OnClose | Transport.UpgradeOnTransportClose) => true
  | _, _ => false
  end.

(** Registered with [once]. *)
Definition once (l : Transport.Listener) : bool :=
  match l with
  | Transport.OnError | Transport.OnClose
  | Transport.UpgradeOnTransportClose | Transport.UpgradeOnError => true
  | _ => false
  end.

(** The body of a listener. *)
Definition listener (l : Transport.Listener) (e : TEvent) (s : t) : t :=
  match l, e with
  | Transport.OnError, TError err => onError err s
  | Transport.OnPacket, TPacket p => onPacket p s
  | Transport.Flush, _ => flush s
  | Transport.OnClose, _ => onClose "transport close" None s
  | Transport.OnDrain, _ => onDrain s
  | Transport.UpgradeOnPacket, TPacket p => upgradeOnPacket p s
  | Transport.UpgradeOnTransportClose, _ => upgradeOnError s
  | Transport.UpgradeOnError, _ => upgradeOnError s
  | _, _ => s
  end.

(** [transport.emit(e)] on the session's transport: the listeners
    registered for [e] when the event is emitted are called in the order
    they were registered, a [once] listener being removed as it is called. *)
Definition transportEmit (e : TEvent) (s : t) : t :=
  fold_left
    (fun s l =>
       let s :=
         if once l
         then set_transport (Transport.removeListener l (transport s)) s
         else s in
       listener l e s)
    (filter (handles e) (Transport.listeners (transport s))) s.

(** The same on the candidate of an upgrade. *)
Definition candidateEmit (e : TEvent) (s : t) : t :=
  match candidate s with
  | None => s
  | Some c =>
      fold_left
        (fun s l =>
           let s :=
             if once l
             then set_candidate
                    (option_map (Transport.removeListener l) (candidate s)) s
             else s in
           listener l e s)
        (filter (handles e) (Transport.listeners c)) s
  end.

(** The write callback of the websocket transport succeeds: the transport
    is writable again and emits "drain". *)
Definition transportOnEnd (s : t) : t :=
  transportEmit TDrain (set_transport (Transport.onEnd (transport s)) s).

End WithPolling.

End Socket.

(** ** The server (lib/server.js) *)

Module Server.

(** [Server.errors] *)
Definition UNKNOWN_TRANSPORT : Z := 0.
Definition UNKNOWN_SID : Z := 1.
Definition BAD_HANDSHAKE_METHOD : Z := 2.
Definition BAD_REQUEST : Z := 3.
Definition FORBIDDEN : Z := 4.

(** [Server.errorMessages], by property key. *)
Definition errorMessages : list (string * string) :=
  [("0", "Transport unknown");
   ("1", "Session ID unknown");
   ("2", "Bad handshake method");
   ("3", "Bad request");
   ("4", "Forbidden")].

Fixpoint lookup_key (k : string) (o : list (string * string)) : option string :=
  match o with
  | [] => None
  | (k', v) :: r => if String.eqb k k' then Some v else lookup_key k r
  end.

(** [Server.errorMessages[code]].  A key of the table is one of the texts
    "0" to "4"; a text that is not expressed here holds a character that is
    no digit, and is no key. *)
Definition errorMessage (code : JS.Val) : option string :=
  match JS.to_key code with
  | Some k => lookup_key k errorMessages
  | None => None
  end.

(** [Server.errorMessages.hasOwnProperty(code)] *)
Definition hasOwnProperty (code : JS.Val) : bool :=
  match errorMessage code with
  | Some _ => true
  | None => false
  end.

(** [validHdrChars] *)
Definition validHdrChars : list nat :=
  [0; 0; 0; 0; 0; 0; 0; 0; 0; 1; 0; 0; 0; 0; 0; 0;
   0; 0; 0; 0; 0; 0; 0; 0; 0; 0; 0; 0; 0; 0; 0; 0;
   1; 1; 1; 1; 1; 1; 1; 1; 1; 1; 1; 1; 1; 1; 1; 1;
   1; 1; 1; 1; 1; 1; 1; 1; 1; 1; 1; 1; 1; 1; 1; 1;
   1; 1; 1; 1; 1; 1; 1; 1; 1; 1; 1; 1; 1; 1; 1; 1;
   1; 1; 1; 1; 1; 1; 1; 1; 1; 1; 1; 1; 1; 1; 1; 1;
   1; 1; 1; 1; 1; 1; 1; 1; 1; 1; 1; 1; 1; 1; 1; 1;
   1; 1; 1; 1; 1; 1; 1; 1; 1; 1; 1; 1; 1; 1; 1; 0;
   1; 1; 1; 1; 1; 1; 1; 1; 1; 1; 1; 1; 1; 1; 1; 1;
   1; 1; 1; 1; 1; 1; 1; 1; 1; 1; 1; 1; 1; 1; 1; 1;
   1; 1; 1; 1; 1; 1; 1; 1; 1; 1; 1; 1; 1; 1; 1; 1;
   1; 1; 1; 1; 1; 1; 1; 1; 1; 1; 1; 1; 1; 1; 1; 1;
   1; 1; 1; 1; 1; 1; 1; 1; 1; 1; 1; 1; 1; 1; 1; 1;
   1; 1; 1; 1; 1; 1; 1; 1; 1; 1; 1; 1; 1; 1; 1; 1;
   1; 1; 1; 1; 1; 1; 1; 1; 1; 1; 1; 1; 1; 1; 1; 1;
   1; 1; 1; 1; 1; 1; 1; 1; 1; 1; 1; 1; 1; 1; 1; 1]%nat.

(** [!validHdrChars[val.charCodeAt(i)]]; a header value is a string of
    one-byte characters. *)
Definition invalidAt (val : string) (i : nat) : bool :=
  match String.get i val with
  | Some c =>
      match nth_error validHdrChars (nat_of_ascii c) with
      | Some (S _) => false
      | _ => true
      end
  | None => true
  end.

(** The [for] loop of [checkInvalidHeaderChar]: [n] indices from [i] on. *)
Fixpoint invalidFrom (n i : nat) (val : string) : bool :=
  match n with
  | O => false
  | S n' => if invalidAt val i then true else invalidFrom n' (S i) val
  end.

(** [checkInvalidHeaderChar(val)]; [val += ""] turns an absent header into
    the string "undefined". *)
Definition checkInvalidHeaderChar (v : option string) : bool :=
  let val := match v with Some x => x | None => "undefined" end in
  let len := String.length val in
  if (len <? 1)%nat then false
  else if invalidAt val 0 then true
  else if (len <? 2)%nat then false
  else if invalidAt val 1 then true
  else if (len <? 3)%nat then false
  else if invalidAt val 2 then true
  else if (len <? 4)%nat then false
  else if invalidAt val 3 then true
  else invalidFrom (len - 4) 4 val.

(** The server object.  [closeHandlers] lists the sids whose session has the
    [once("close")] handler of [handshake] registered; [sent] is what
    [sendErrorMessage] did, [connections] the sids passed to
    [emit("connection")]. *)
Record t := {
  opts : Opts;
  clients : gmap string Socket.t;
  clientsCount : Z;
  closeHandlers : list string;
  connections : list string
}.

Definition set_clients (v : gmap string Socket.t) (x : t) : t :=
  {| opts := opts x; clients := v; clientsCount := clientsCount x;
     closeHandlers := closeHandlers x; connections := connections x |}.
Definition set_clientsCount (v : Z) (x : t) : t :=
  {| opts := opts x; clients := clients x; clientsCount := v;
     closeHandlers := closeHandlers x; connections := connections x |}.
Definition set_closeHandlers (v : list string) (x : t) : t :=
  {| opts := opts x; clients := clients x; clientsCount := clientsCount x;
     closeHandlers := v; connections := connections x |}.
Definition set_connections (v : list string) (x : t) : t :=
  {| opts := opts x; clients := clients x; clientsCount := clientsCount x;
     closeHandlers := closeHandlers x; connections := v |}.

(** [new Server(opts)] *)
Definition create (o : Opts) : t :=
  {| opts := o; clients := ∅; clientsCount := 0; closeHandlers := [];
     connections := [] |}.

(** [if (sid)] on a query value *)
Definition given (v : option string) : option string :=
  match v with
  | Some x => if String.eqb x "" then None else Some x
  | None => None
  end.

(** [verify(req, upgrade, fn)]: the request as the call leaves it, and the
    arguments [fn] is called with. *)
Definition verify (srv : t) (req : Http.Request) (upgrade : bool)
    : Http.Request * (JS.Val * bool) :=
  let transport := Http.q_transport (Http.query req) in
  if negb match transport with
          | Some name => includes (transports (opts srv)) name
          | None => false
          end
  then (req, (JS.Num UNKNOWN_TRANSPORT, false))
  else if checkInvalidHeaderChar (Http.origin req) then
    ({| Http.method := Http.method req; Http.query := Http.query req;
        Http.origin := None; Http.websocket := Http.websocket req;
        Http.res := Http.res req |},
     (JS.Num BAD_REQUEST, false))
  else
    match given (Http.q_sid (Http.query req)) with
    | Some sid =>
        match clients srv !! sid with
        | None => (req, (JS.Num UNKNOWN_SID, false))
        | Some client =>
            if negb upgrade
               && negb match transport with
                       | Some name =>
                           String.eqb
                             (Transport.name (Socket.transport client)) name
                       | None => false
                       end
            then (req, (JS.Num BAD_REQUEST, false))
            else (req, (JS.Null, true))
        end
    | None =>
        if negb (String.eqb "GET" (Http.method req))
        then (req, (JS.Num BAD_HANDSHAKE_METHOD, false))
        else match allowRequest (opts srv) with
             | None => (req, (JS.Null, true))
             | Some f => (req, f req)
             end
    end.

(** What [JSON.stringify] makes of a value held in an object field; an
    undefined field is left out. *)
Definition toJson (v : JS.Val) : option Json.t :=
  match v with
  | JS.Undefined => None
  | JS.Null => Some Json.Null
  | JS.Bool b => Some (Json.Bool b)
  | JS.Num n => Some (Json.Num n)
  | JS.Str s => Some (Json.Str s)
  | JS.Buffer bytes =>
      Some (Json.Obj
              [("type", Json.Str "Buffer");
               ("data",
                Json.Arr
                  (map (fun b => Json.Num (Z.of_N (Byte.to_N b))) bytes))])
  end.

Definition field (k : string) (v : JS.Val) : list (string * Json.t) :=
  match toJson v with
  | Some j => [(k, j)]
  | None => []
  end.

(** What a call of [sendErrorMessage] does to the response. *)
Inductive Sent :=
| Wrote (r : Http.Response)
| WroteNothing
| Throws.

(** [sendErrorMessage(req, res, code)]; [res] tells whether the response
    object is defined. *)
Definition sendErrorMessage (req : Http.Request) (res : bool) (code : JS.Val)
    : Sent :=
  let headers := [("Content-Type", "application/json")] in
  let isForbidden := negb (hasOwnProperty code) in
  if isForbidden then
    if res then
      Wrote
        {| Http.status := 403;
           Http.headers := headers;
           Http.body :=
             Json.stringify
               (Json.Obj
                  (field "code" (JS.Num FORBIDDEN)
                   ++ field "message"
                        (if JS.truthy code then code
                         else JS.Str "Forbidden"))%list) |}
    else Throws
  else
    let headers :=
      match given (Http.origin req) with
      | Some o =>
          (headers ++ [("Access-Control-Allow-Credentials", "true");
                       ("Access-Control-Allow-Origin", o)])%list
      | None => (headers ++ [("Access-Control-Allow-Origin", "*")])%list
      end in
    if res then
      Wrote
        {| Http.status := 400;
           Http.headers := headers;
           Http.body :=
             Json.stringify
               (Json.Obj
                  (field "code" code
                   ++ field "message"
                        match errorMessage code with
                        | Some m => JS.Str m
                        | None => JS.Undefined
                        end)%list) |}
    else WroteNothing.

(** The handler [handshake] registers with [socket.once("close", ...)]. *)
Definition onSocketClose (id : string) (srv : t) : t :=
  let srv := set_clients (delete id (clients srv)) srv in
  set_clientsCount (clientsCount srv - 1) srv.

Fixpoint remove_one (id : string) (l : list string) : list string :=
  match l with
  | [] => []
  | h :: r => if String.eqb h id then r else h :: remove_one id r
  end.

Definition closedNow (before after : Socket.t) : bool :=
  match Socket.readyState before, Socket.readyState after with
  | Socket.Closed, _ => false
  | _, Socket.Closed => true
  | _, _ => false
  end.

(** Something happens to the session stored under [id] (a packet, a timer,
    a call by the application): the session changes by [f], and when it
    thereby closes, which is when it emits "close", the handler registered
    by [handshake] runs, once. *)
Definition sessionStep (id : string) (f : Socket.t -> Socket.t) (srv : t) : t :=
  match clients srv !! id with
  | None => srv
  | Some s =>
      let s' := f s in
      let srv := set_clients (<[id := s']> (clients srv)) srv in
      if closedNow s s' && includes (closeHandlers srv) id
      then onSocketClose id
             (set_closeHandlers (remove_one id (closeHandlers srv)) srv)
      else srv
  end.

(** [new transports[transportName](req)]: the websocket constructor reads
    [req.websocket] and throws without it; a name that is not a transport
    throws as well. *)
Definition construct (transportName : string) (req : Http.Request) (i : nat)
    : option Transport.t :=
  if String.eqb transportName "polling" then
    Some (Transport.create i Transport.Polling)
  else if String.eqb transportName "websocket" then
    if Http.websocket req then Some (Transport.create i Transport.WebSocket)
    else None
  else None.

Section WithPolling.

Variable pollingDoClose : Transport.t -> Transport.t * bool.

(** [onRequest] of the polling transport is not among the sources: what it
    does to the session that listens to it is a parameter. *)
Variable pollingOnRequest : Http.Request -> Socket.t -> Socket.t.

(** [transport.onRequest(req)], seen from the session; the base class only
    stores the request. *)
Definition onRequest (req : Http.Request) (s : Socket.t) : Socket.t :=
  match Transport.kind (Socket.transport s) with
  | Transport.Polling => pollingOnRequest req s
  | Transport.WebSocket => s
  end.

(** [handshake(transportName, req)].  [generated] is what [generateId]
    resolved to, [None] when it threw; [i] is the identity of the transport
    object that is constructed. *)
Definition handshake (transportName : string) (req : Http.Request)
    (generated : option string) (i : nat) (srv : t) : t * option Sent :=
  match generated with
  | None => (srv, Some (sendErrorMessage req (Http.res req) (JS.Num BAD_REQUEST)))
  | Some id =>
      match construct transportName req i with
      | None =>
          (srv, Some (sendErrorMessage req (Http.res req) (JS.Num BAD_REQUEST)))
      | Some transport =>
          let socket := Socket.create pollingDoClose id (opts srv) transport in
          let socket := onRequest req socket in
          let srv := set_clients (<[id := socket]> (clients srv)) srv in
          let srv := set_clientsCount (clientsCount srv + 1) srv in
          let srv := set_closeHandlers (closeHandlers srv ++ [id]) srv in
          (set_connections (connections srv ++ [id]) srv, None)
      end
  end.

(** [handleRequest(req, res)] without a CORS middleware. *)
Definition handleRequest (req : Http.Request) (generated : option string)
    (i : nat) (srv : t) : t * option Sent :=
  let req :=
    {| Http.method := Http.method req; Http.query := Http.query req;
       Http.origin := Http.origin req; Http.websocket := Http.websocket req;
       Http.res := true |} in
  let '(req, (err, success)) := verify srv req false in
  if negb success then (srv, Some (sendErrorMessage req true err))
  else
    match given (Http.q_sid (Http.query req)) with
    | Some sid => (sessionStep sid (onRequest req) srv, None)
    | None =>
        match Http.q_transport (Http.query req) with
        | Some name => handshake name req generated i srv
        | None => (srv, None)
        end
    end.

(** [close()]: every session is closed with [discard = true]. *)
Definition close (srv : t) : t :=
  fold_left
    (fun srv id =>
       sessionStep id (fun s => fst (Socket.close pollingDoClose true s)) srv)
    (map fst (map_to_list (clients srv))) srv.

End WithPolling.

End Server.

(** ** What is observed of a session *)

(** The log only grows. *)
Definition extends (s s' : Socket.t) : Prop :=
  exists l, Socket.log s' = (Socket.log s ++ l)%list.

(** What every operation of an open or closing session leaves as it is: the
    session's identity and options, the identity and class of its
    transport, the [upgraded] flag; the state only moves to closed, and the
    marks of an upgrade in progress are only ever taken down. *)
Record stable (s s' : Socket.t) : Prop := {
  st_id : Socket.id s' = Socket.id s;
  st_opts : Socket.opts s' = Socket.opts s;
  st_upgraded : Socket.upgraded s' = Socket.upgraded s;
  st_tid :
    Transport.tid (Socket.transport s') = Transport.tid (Socket.transport s);
  st_kind :
    Transport.kind (Socket.transport s') = Transport.kind (Socket.transport s);
  st_log : extends s s';
  st_ready :
    Socket.readyState s' = Socket.readyState s \/
    Socket.readyState s' = Socket.Closed;
  st_upgrading :
    Socket.upgrading s' = Socket.upgrading s \/ Socket.upgrading s' = false;
  st_check :
    Socket.checkIntervalTimer s' = Socket.checkIntervalTimer s \/
    Socket.checkIntervalTimer s' = None;
  st_upgradeTimeout :
    Socket.upgradeTimeoutTimer s' = Socket.upgradeTimeoutTimer s \/
    Socket.upgradeTimeoutTimer s' = None
}.

(** The packets announced with "packetCreate", and the packets handed to a
    transport, in the order of the log. *)
Fixpoint created (l : list Socket.Effect) : list Packet :=
  match l with
  | [] => []
  | Socket.Emit (Socket.EvPacketCreate p) :: r => p :: created r
  | _ :: r => created r
  end.

Fixpoint handed (l : list Socket.Effect) : list (nat * list Packet) :=
  match l with
  | [] => []
  | Socket.TSend tr ps :: r => (tr, ps) :: handed r
  | _ :: r => handed r
  end.

(** An effect that neither announces a packet nor hands one over. *)
Definition mute (e : Socket.Effect) : bool :=
  match e with
  | Socket.Emit (Socket.EvPacketCreate _) | Socket.TSend _ _ => false
  | _ => true
  end.

(** The packets handed to any transport, in order. *)
Definition handedPackets (s : Socket.t) : list Packet :=
  concat (map snd (handed (Socket.log s))).

(** The functions of an entry of [sentCallbackFn]. *)
Definition functionsOf (e : Socket.SeqFn) : list Socket.Callback :=
  match e with
  | Socket.Fn f => [f]
  | Socket.Batch fs => fs
  end.

(** What closing a transport, and closing the session with it, leaves as it
    is: nothing is announced or handed to a transport, the write buffer and
    the listeners for "drain" are untouched, and the callback queues are at
    most emptied. *)
Record quiet (s s' : Socket.t) : Prop := {
  q_handed : handed (Socket.log s') = handed (Socket.log s);
  q_created : created (Socket.log s') = created (Socket.log s);
  q_writeBuffer : Socket.writeBuffer s' = Socket.writeBuffer s;
  q_drainListeners : Socket.drainListeners s' = Socket.drainListeners s;
  q_packetsFn :
    Socket.packetsFn s' = Socket.packetsFn s \/ Socket.packetsFn s' = [];
  q_sentCallbackFn :
    Socket.sentCallbackFn s' = Socket.sentCallbackFn s \/
    Socket.sentCallbackFn s' = []
}.

(** [sendPacket] up to its call of [flush]: the packet is announced and
    pushed on the write buffer, the callbacks on [packetsFn]. *)
Definition enqueue (pkt : Packet) (cbs : list Socket.Callback) (s : Socket.t)
    : Socket.t :=
  Socket.set_packetsFn (Socket.packetsFn s ++ cbs)
    (Socket.set_writeBuffer (Socket.writeBuffer s ++ [pkt])
       (Socket.emit (Socket.EvPacketCreate pkt) s)).

(** The callback [sendPacket] ends up with: [options] when it is a function,
    else [callback]. *)
Definition callbackOf (o : Socket.OptionsArg) (cb : option Socket.Callback)
    : list Socket.Callback :=
  match o with
  | Socket.OptionsFn f => [f]
  | _ => match cb with Some f => [f] | None => [] end
  end.

(** [options.compress] as [sendPacket] leaves it. *)
Definition optionsOf (o : Socket.OptionsArg) : Options :=
  match o with
  | Socket.OptionsObj c => {| compress := JS.not_false c |}
  | _ => {| compress := true |}
  end.

(** The packet [sendPacket] builds. *)
Definition packetOf (ty : string) (d : JS.Val) (o : Socket.OptionsArg) : Packet :=
  {| type := ty;
     data := if JS.truthy d then Some d else None;
     options := Some (optionsOf o) |}.

(** The entries [flush] adds to [sentCallbackFn]. *)
Definition movedCallbacks (s : Socket.t) : list Socket.SeqFn :=
  if Transport.supportsFraming (Socket.transport s)
  then map Socket.Fn (Socket.packetsFn s)
  else [Socket.Batch (Socket.packetsFn s)].

(** The condition under which [flush] does anything. *)
Definition flushes (s : Socket.t) : bool :=
  match Socket.readyState s with Socket.Closed => false | _ => true end
  && Transport.writable (Socket.transport s)
  && match Socket.writeBuffer s with [] => false | _ => true end.

(** The listeners [setTransport] leaves on a transport that had none. *)
Definition sessionListeners : list Transport.Listener :=
  [Transport.OnError; Transport.OnPacket; Transport.Flush; Transport.OnClose;
   Transport.OnDrain].

(** The ping packet of the heartbeat: no data, default options. *)
Definition pingPacket : Packet :=
  {| type := "ping"; data := None; options := Some {| compress := true |} |}.

(** The upgrade map as the specification words it: polling can be upgraded
    to websocket, websocket to nothing. *)
Definition upgradeMap (k : Transport.Kind) : list string :=
  match k with
  | Transport.Polling => ["websocket"]
  | Transport.WebSocket => []
  end.

(** The upgrades offered to a client: the upgrade map of its transport cut
    down to the enabled transports, nothing when upgrades are not allowed. *)
Definition offeredUpgrades (o : Opts) (k : Transport.Kind) : list string :=
  if allowUpgrades o
  then filter (fun u => includes (transports o) u) (upgradeMap k)
  else [].

(** The open packet of a session [i] on a transport of class [k]. *)
Definition openPacket (i : string) (o : Opts) (k : Transport.Kind) : Packet :=
  {| type := "open";
     data :=
       Some
         (JS.Str
            (Json.stringify
               (Json.Obj
                  [("sid", Json.Str i);
                   ("upgrades", Json.Arr (map Json.Str (offeredUpgrades o k)));
                   ("pingInterval", Json.Num (pingInterval o));
                   ("pingTimeout", Json.Num (pingTimeout o))])));
     options := Some {| compress := true |} |}.

(** The message packet that carries [opts.initialPacket]. *)
Definition initialMessage (o : Opts) : Packet :=
  {| type := "message";
     data := Some (initialPacket o);
     options := Some {| compress := true |} |}.

(** The listeners [maybeUpgrade] leaves on a transport that had none. *)
Definition upgradeListeners : list Transport.Listener :=
  [Transport.UpgradeOnPacket; Transport.UpgradeOnTransportClose;
   Transport.UpgradeOnError].

(** The cleanup closures of a session whose transport was set once. *)
Definition sessionCleanups : list Socket.Cleanup :=
  [Socket.CleanupSendCallback; Socket.CleanupTransport].

(** The upgrade packet a client sends to commit an upgrade, and whether a
    packet is the probe. *)
Definition isProbe (p : Packet) : bool :=
  String.eqb "ping" (type p) && Socket.is_probe (data p).
Definition isUpgrade (p : Packet) : bool := String.eqb "upgrade" (type p).

Section Shapes.

Variable pdc : Transport.t -> Transport.t * bool.

(** [clearTransport]: the cleanup closures are run, a listener that
    swallows errors is added, the transport is closed and the ping-timeout
    timer cleared. *)
Definition cleared (cf : list Socket.Cleanup) (ls : list Transport.Listener)
    (x : Socket.t) : Socket.t :=
  Socket.clearTimer Socket.PingTimeout
    (Socket.record (Socket.TClose (Transport.tid (Socket.transport x)) false)
       (Socket.set_transport
          (fst (Transport.close pdc
                  (Transport.set_listeners (ls ++ [Transport.Silence])
                     (Socket.transport x))))
          (Socket.set_cleanupFn cf x))).

(** The candidate without the listeners of [maybeUpgrade]. *)
Definition unlistened (c : Transport.t) : Transport.t :=
  Transport.removeListener Transport.UpgradeOnError
    (Transport.removeListener Transport.UpgradeOnTransportClose
       (Transport.removeListener Transport.UpgradeOnPacket c)).

(** The state in which the upgrade handler calls [flush]: the upgrade
    timers are cleared, the old transport is discarded, cleared and put
    aside, the candidate is the session's transport, "upgrade" has been
    emitted and the heartbeat is rescheduled.  [cf] and [ls] are the cleanup
    closures and the listeners that [clearTransport] leaves. *)
Definition swapped (cf : list Socket.Cleanup) (ls : list Transport.Listener)
    (c : Transport.t) (s : Socket.t) : Socket.t :=
  let discardedOld :=
    Socket.set_upgraded true
      (Socket.record (Socket.TDiscard (Transport.tid (Socket.transport s)))
         (Socket.set_transport (Transport.discard (Socket.transport s))
            (Socket.cleanup s))) in
  let clearedOld := cleared cf ls discardedOld in
  Socket.schedulePing
    (Socket.emit (Socket.EvUpgrade (Transport.tid c))
       (Socket.set_candidate None
          (Socket.setTransport (unlistened c)
             (Socket.set_retired
                (Socket.retired s ++ [Socket.transport clearedOld])
                clearedOld)))).

(** What the upgrade handler does after [flush]. *)
Definition settled (x : Socket.t) : Socket.t :=
  match Socket.readyState x with
  | Socket.Closing => Socket.closeTransport pdc false x
  | _ => x
  end.

End Shapes.

(** ** The request rules as the specification words them *)

(** A valid field-vchar: printable ASCII without DEL, the bytes 0x80 to
    0xFF, and HT. *)
Definition fieldVchar (c : ascii) : bool :=
  let n := nat_of_ascii c in
  Nat.eqb n 9 || (Nat.leb 32 n && Nat.leb n 126) || Nat.leb 128 n.

(** An Origin header that holds an invalid character; an absent header
    holds none. *)
Definition invalidOrigin (v : option string) : bool :=
  match v with
  | Some x => existsb (fun c => negb (fieldVchar c)) (list_ascii_of_string x)
  | None => false
  end.

(** The rules of [verify], in order, first failure first. *)
Definition verifyRules (srv : Server.t) (req : Http.Request) (upgrade : bool)
    : JS.Val * bool :=
  let known name := includes (transports (Server.opts srv)) name in
  match Http.q_transport (Http.query req) with
  | None => (JS.Num Server.UNKNOWN_TRANSPORT, false)
  | Some name =>
      if negb (known name) then (JS.Num Server.UNKNOWN_TRANSPORT, false)
      else if invalidOrigin (Http.origin req) then
        (JS.Num Server.BAD_REQUEST, false)
      else
        match Server.given (Http.q_sid (Http.query req)) with
        | Some sid =>
            match Server.clients srv !! sid with
            | None => (JS.Num Server.UNKNOWN_SID, false)
            | Some session =>
                if negb upgrade
                   && negb (String.eqb
                              (Transport.name (Socket.transport session)) name)
                then (JS.Num Server.BAD_REQUEST, false)
                else (JS.Null, true)
            end
        | None =>
            if negb (String.eqb (Http.method req) "GET")
            then (JS.Num Server.BAD_HANDSHAKE_METHOD, false)
            else match allowRequest (Server.opts srv) with
                 | Some decide => decide req
                 | None => (JS.Null, true)
                 end
        end
  end.

(** The message of a protocol error, by code, as the specification lists
    them. *)
Definition messageOf (code : Z) : option string :=
  if code =? 0 then Some "Transport unknown"
  else if code =? 1 then Some "Session ID unknown"
  else if code =? 2 then Some "Bad handshake method"
  else if code =? 3 then Some "Bad request"
  else if code =? 4 then Some "Forbidden"
  else None.

(** An error response: a status and the JSON text of [{code, message}]. *)
Definition errorResponse (st : Z) (hs : list (string * string))
    (code message : Json.t) : Server.Sent :=
  Server.Wrote
    {| Http.status := st; Http.headers := hs;
       Http.body :=
         Json.stringify (Json.Obj [("code", code); ("message", message)]) |}.

(** The headers of an error response: the content type, and for the codes
    of [Server.errorMessages] the CORS headers. *)
Definition jsonHeader : list (string * string) :=
  [("Content-Type", "application/json")].

Definition corsHeaders (req : Http.Request) : list (string * string) :=
  match Server.given (Http.origin req) with
  | Some o => [("Access-Control-Allow-Credentials", "true");
               ("Access-Control-Allow-Origin", o)]
  | None => [("Access-Control-Allow-Origin", "*")]
  end.

(** A server whose [allowRequest] turns every handshake down with the code
    FORBIDDEN, and a handshake request. *)
Definition forbiddingServer : Server.t :=
  Server.create
    {| pingTimeout := 5000; pingInterval := 25000; upgradeTimeout := 10000;
       transports := ["polling"; "websocket"]; allowUpgrades := true;
       initialPacket := JS.Undefined;
       allowRequest := Some (fun _ => (JS.Num Server.FORBIDDEN, false)) |}.

Definition handshakeRequest : Http.Request :=
  {| Http.method := "GET";
     Http.query := {| Http.q_transport := Some "polling";
                      Http.q_sid := None; Http.q_b64 := None |};
     Http.origin := None; Http.websocket := false; Http.res := false |}.

(** Two ways the polling transport, which is not among the sources, may
    behave: [doClose] that calls back at once or later, and [onRequest]
    that leaves the session alone. *)
Definition promptPoll (x : Transport.t) : Transport.t * bool :=
  (Transport.set_readyState Transport.Closed x, true).
Definition laterPoll (x : Transport.t) : Transport.t * bool := (x, false).
Definition idlePoll (req : Http.Request) (s : Socket.t) : Socket.t := s.

(** ** The client table *)

(** An id that [generateId] may give: one that is not in the table. *)
Definition unusedId (srv : Server.t) (generated : option string) : Prop :=
  match generated with
  | Some id => Server.clients srv !! id = None
  | None => True
  end.

(** The count is the size of the table, and the close handlers in place are
    those of sessions in the table, one each. *)
Definition consistent (srv : Server.t) : Prop :=
  Server.clientsCount srv = Z.of_nat (size (Server.clients srv)) /\
  (forall id, In id (Server.closeHandlers srv) ->
              is_Some (Server.clients srv !! id)) /\
  List.NoDup (Server.closeHandlers srv).

Section Runs.

Variable pdc : Transport.t -> Transport.t * bool.
Variable por : Http.Request -> Socket.t -> Socket.t.

(** What takes a server from one stable point to the next: a handshake or
    a request, with an id that [generateId] may give; anything that happens
    to one session; closing the server. *)
Inductive step : Server.t -> Server.t -> Prop :=
| step_handshake name req generated i srv :
    unusedId srv generated ->
    step srv (fst (Server.handshake pdc por name req generated i srv))
| step_request req generated i srv :
    unusedId srv generated ->
    step srv (fst (Server.handleRequest pdc por req generated i srv))
| step_session id f srv :
    step srv (Server.sessionStep id f srv)
| step_close srv :
    step srv (Server.close pdc srv).

(** The stable points of a server constructed with options [o]. *)
Inductive reachable (o : Opts) : Server.t -> Prop :=
| reach_create : reachable o (Server.create o)
| reach_step srv srv' : reachable o srv -> step srv srv' -> reachable o srv'.

End Runs.

(** ** Sample sessions, packets and requests *)

(** A session on polling, one on a websocket, and the polling one with an
    upgrade to a websocket under way. *)
Definition pollingSession : Socket.t :=
  Socket.create laterPoll "abc" default_opts
    (Transport.create 1 Transport.Polling).

Definition websocketSession : Socket.t :=
  Socket.create laterPoll "xyz" default_opts
    (Transport.create 3 Transport.WebSocket).

Definition candidateTransport : Transport.t :=
  Transport.on Transport.UpgradeOnError
    (Transport.on Transport.UpgradeOnTransportClose
       (Transport.on Transport.UpgradeOnPacket
          (Transport.create 2 Transport.WebSocket))).

Definition upgradingSession : Socket.t :=
  Socket.maybeUpgrade (Transport.create 2 Transport.WebSocket) pollingSession.

Definition probePacket : Packet :=
  {| type := "ping"; data := Some (JS.Str "probe"); options := None |}.
Definition upgradePacket : Packet :=
  {| type := "upgrade"; data := None; options := None |}.
Definition pongPacket : Packet :=
  {| type := "pong"; data := None; options := None |}.

(** A poll for a session that does not exist. *)
Definition strayRequest : Http.Request :=
  {| Http.method := "GET";
     Http.query := {| Http.q_transport := Some "polling";
                      Http.q_sid := Some "does-not-exist";
                      Http.q_b64 := None |};
     Http.origin := None; Http.websocket := false; Http.res := false |}.

(** A server after one polling handshake. *)
Definition oneClient : Server.t :=
  fst (Server.handshake laterPoll idlePoll "polling" handshakeRequest
         (Some "abc") 1 (Server.create default_opts)).

(** ** Upgrade requests (Server.handleUpgrade, Server.onWebSocket, abortConnection) *)

Module Net.

(** The TCP socket of an upgrade request, as [abortConnection] uses it:
    [written] lists what [socket.write] was given, oldest first, [None]
    standing for a response whose message is a text that is not expressed
    here (see [JS.utf8_text]); [errorListeners] counts the listeners
    registered for "error". *)
Record Socket := {
  writable : bool;
  written : list (option string);
  destroyed : bool;
  errorListeners : nat
}.

End Net.

Module Upgrade.

(** A character is a code unit below 256. *)
Definition CRLF : string :=
  String (ascii_of_nat 13) (String (ascii_of_nat 10) "").

(** [Buffer.byteLength(message)]: the length of the UTF-8 encoding, one
    byte for a character below 128 and two from there on. *)
Fixpoint byteLength (s : string) : nat :=
  match s with
  | EmptyString => 0
  | String c r =>
      ((if Nat.ltb (nat_of_ascii c) 128 then 1 else 2) + byteLength r)%nat
  end.

(** The [message] of [abortConnection]:
    [hasOwnProperty(code) ? Server.errorMessages[code] : String(code || "")]. *)
Definition message (code : JS.Val) : option string :=
  if Server.hasOwnProperty code then Server.errorMessage code
  else JS.to_key (if JS.truthy code then code else JS.Str "").

(** What [abortConnection] writes for a message. *)
Definition badRequest (message : string) : string :=
  "HTTP/1.1 400 Bad Request" ++ CRLF ++
  "Connection: close" ++ CRLF ++
  "Content-type: text/html" ++ CRLF ++
  "Content-Length: " ++ JS.string_of_Z (Z.of_nat (byteLength message)) ++ CRLF ++
  CRLF ++
  message.

(** [abortConnection(socket, code)] *)
Definition abortConnection (socket : Net.Socket) (code : JS.Val) : Net.Socket :=
  let socket :=
    {| Net.writable := Net.writable socket; Net.written := Net.written socket;
       Net.destroyed := Net.destroyed socket;
       Net.errorListeners := S (Net.errorListeners socket) |} in
  let socket :=
    if Net.writable socket then
      {| Net.writable := Net.writable socket;
         Net.written :=
           Net.written socket ++ [option_map badRequest (message code)];
         Net.destroyed := Net.destroyed socket;
         Net.errorListeners := Net.errorListeners socket |}
    else socket in
  {| Net.writable := Net.writable socket; Net.written := Net.written socket;
     Net.destroyed := true;
     Net.errorListeners := Net.errorListeners socket |}.

(** What [handleUpgrade] does with a request: the connection is aborted, or
    the request is passed to the websocket library, which calls
    [onWebSocket] when its own handshake is done. *)
Inductive Handled :=
| Aborted (socket : Net.Socket)
| Delegated (req : Http.Request).

(** [handleUpgrade(req, socket, upgradeHead)], on a request whose query is
    parsed. *)
Definition handleUpgrade (srv : Server.t) (req : Http.Request)
    (socket : Net.Socket) : Handled :=
  let '(req, (err, success)) := Server.verify srv req true in
  if negb success then Aborted (abortConnection socket err)
  else Delegated req.

(** What [transports[name]] is, for the test of [onWebSocket]. *)
Inductive Entry :=
| NoEntry                      (* undefined *)
| NoPrototype                  (* a value whose [prototype] is undefined *)
| HandlesUpgrades (b : bool).  (* [prototype.handlesUpgrades], as a boolean *)

(** The methods every object inherits from [Object.prototype], and
    [__proto__]: none of them has a [prototype]. *)
Definition inherited : list string :=
  ["__defineGetter__"; "__defineSetter__"; "hasOwnProperty";
   "__lookupGetter__"; "__lookupSetter__"; "isPrototypeOf";
   "propertyIsEnumerable"; "toString"; "valueOf"; "__proto__";
   "toLocaleString"].

(** A key that [this.clients[id]] finds on a table that has no such sid:
    the table is a plain object, and what it inherits is a function or, for
    [__proto__], an object.  Such a [client] is truthy and has neither
    [upgrading] nor [upgraded], so that [onWebSocket] goes on to construct
    the transport and to call [client.maybeUpgrade], which is not a
    function. *)
Definition inheritedKey (id : string) : bool :=
  String.eqb id "constructor" || includes inherited id.

(** [transports[name]] in lib/transports/index.js: [polling] is the plain
    function of that file, whose prototype has no [handlesUpgrades];
    [websocket] is the class with the getter that returns true;
    [constructor] is [Object], whose prototype has no such property either;
    a query without a transport asks for [transports[undefined]]. *)
Definition entry (name : option string) : Entry :=
  match name with
  | Some n =>
      if String.eqb n "polling" then HandlesUpgrades false
      else if String.eqb n "websocket" then HandlesUpgrades true
      else if String.eqb n "constructor" then HandlesUpgrades false
      else if includes inherited n then NoPrototype
      else NoEntry
  | None => NoEntry
  end.

(** What became of the connection given to [onWebSocket]. *)
Inductive Outcome :=
| SocketClosed                            (* socket.close() *)
| MaybeUpgrade (sid : string) (tr : nat)  (* client.maybeUpgrade(transport) *)
| Handshake (sent : option Server.Sent)   (* this.handshake(...) *)
| Throws.                                 (* a TypeError leaves the function *)

Section WithPolling.

Variable pollingDoClose : Transport.t -> Transport.t * bool.
Variable pollingOnRequest : Http.Request -> Socket.t -> Socket.t.

(** [onWebSocket(req, socket)].  [generated] and [i] are as in
    [Server.handshake]; [i] is also the identity of the transport made for
    an upgrade. *)
Definition onWebSocket (req : Http.Request) (generated : option string)
    (i : nat) (srv : Server.t) : Server.t * Outcome :=
  let name := Http.q_transport (Http.query req) in
  match entry name with
  | HandlesUpgrades false => (srv, SocketClosed)
  | NoPrototype => (srv, Throws)
  | _ =>
      let req :=
        {| Http.method := Http.method req; Http.query := Http.query req;
           Http.origin := Http.origin req; Http.websocket := true;
           Http.res := Http.res req |} in
      match Server.given (Http.q_sid (Http.query req)) with
      | Some id =>
          match Server.clients srv !! id with
          | None =>
              if inheritedKey id then (srv, Throws) else (srv, SocketClosed)
          | Some client =>
              if Socket.upgrading client then (srv, SocketClosed)
              else if Socket.upgraded client then (srv, SocketClosed)
              else
                match
                  match name with
                  | Some n => Server.construct n req i
                  | None => None
                  end
                with
                | Some transport =>
                    (Server.set_clients
                       (<[id := Socket.maybeUpgrade transport client]>
                          (Server.clients srv)) srv,
                     MaybeUpgrade id i)
                | None => (srv, Throws)
                end
          end
      | None =>
          match name with
          | Some n =>
              let '(srv, sent) :=
                Server.handshake pollingDoClose pollingOnRequest n req
                  generated i srv in
              (srv, Handshake sent)
          | None =>
              (srv,
               Handshake
                 (Some (Server.sendErrorMessage req (Http.res req)
                          (JS.Num Server.BAD_REQUEST))))
          end
      end
  end.

End WithPolling.

End Upgrade.

(** ** Attaching to an HTTP server (Server.attach) *)

Module Attach.

(** [.replace(/\/$/, "")]: a slash at the very end is taken away. *)
Fixpoint dropTrailingSlash (s : string) : string :=
  match s with
  | EmptyString => EmptyString
  | String c r =>
      match r with
      | EmptyString => if Ascii.eqb c "/" then EmptyString else s
      | _ => String c (dropTrailingSlash r)
      end
  end.

(** [path]: [(options.path || "/engine.io").replace(/\/$/, "")], then
    [path += "/"]. *)
Definition path (optionsPath : option string) : string :=
  dropTrailingSlash
    match Server.given optionsPath with
    | Some p => p
    | None => "/engine.io"
    end
  ++ "/".

(** [check(req)]: [path === req.url.substr(0, path.length)] *)
Definition check (path url : string) : bool :=
  String.eqb path (String.substring 0 (String.length path) url).

(** Who gets a request: the engine ([handleRequest]) or the listeners the
    HTTP server had for "request" before, each called in order. *)
Inductive Routed :=
| Engine
| Listeners (called : list nat).

(** The "request" handler [attach] installs. *)
Definition onRequest (path : string) (listeners : list nat) (url : string)
    : Routed :=
  if check path url then Engine else Listeners listeners.

End Attach.

(** ** The life of a session *)

Module Life.

(** What can happen to a session between two calls of its code: its
    transport or the candidate of an upgrade emits an event, a websocket
    write completes, the transport's [writable] flag changes (the polling
    transport sets it as GETs come and go), the application calls [send] or
    [close], a timer expires, the next tick comes, [Server.onWebSocket]
    starts an upgrade, or a transport calls the callback it was given with
    [close] after the call has returned. *)
Inductive Input :=
| FromTransport (e : Socket.TEvent)
| WriteDone
| SetWritable (w : bool)
| FromCandidate (e : Socket.TEvent)
| Send (d : JS.Val) (o : Socket.OptionsArg) (cb : option Socket.Callback)
| Close (discard : bool)
| Expires (n : Socket.TimerName)
| NextTick
| MaybeUpgrade (i : nat)
| ForcedClose.

Section WithPolling.

Variable pollingDoClose : Transport.t -> Transport.t * bool.

(** [Server.onWebSocket] starts an upgrade with a new websocket transport,
    on a session it finds in the client table (where a session that has
    closed no longer is) and that is neither upgrading nor upgraded. *)
Definition react (i : Input) (s : Socket.t) : Socket.t :=
  match i with
  | FromTransport e => Socket.transportEmit pollingDoClose e s
  | WriteDone => Socket.transportOnEnd pollingDoClose s
  | SetWritable w =>
      Socket.set_transport (Transport.set_writable w (Socket.transport s)) s
  | FromCandidate e => Socket.candidateEmit pollingDoClose e s
  | Send d o cb => fst (Socket.send pollingDoClose d o cb s)
  | Close discard => fst (Socket.close pollingDoClose discard s)
  | Expires Socket.PingInterval => Socket.pingIntervalExpires pollingDoClose s
  | Expires Socket.PingTimeout => Socket.pingTimeoutExpires pollingDoClose s
  | Expires Socket.CheckInterval => Socket.checkIntervalTick s
  | Expires Socket.UpgradeTimeout => Socket.upgradeTimeoutExpires pollingDoClose s
  | NextTick => Socket.runNextTick s
  | MaybeUpgrade i =>
      if Socket.upgrading s || Socket.upgraded s
         || match Socket.readyState s with Socket.Closed => true | _ => false end
      then s
      else Socket.maybeUpgrade (Transport.create i Transport.WebSocket) s
  | ForcedClose => Socket.onClose pollingDoClose "forced close" None s
  end.

Definition run (inputs : list Input) (s : Socket.t) : Socket.t :=
  fold_left (fun s i => react i s) inputs s.

End WithPolling.

End Life.

(** How often "close" was emitted. *)
Fixpoint closes (l : list Socket.Effect) : nat :=
  match l with
  | [] => 0
  | Socket.Emit (Socket.EvClose _ _) :: r => S (closes r)
  | _ :: r => closes r
  end.

(** An effect other than the emission of "close". *)
Definition plain (e : Socket.Effect) : bool :=
  match e with
  | Socket.Emit (Socket.EvClose _ _) => false
  | _ => true
  end.

(** Between two states of a session: once closed it stays closed, and
    "close" was emitted once if the session closed in between and not at all
    otherwise. *)
Record tally (s s' : Socket.t) : Prop := {
  t_closed :
    Socket.readyState s = Socket.Closed -> Socket.readyState s' = Socket.Closed;
  t_closes :
    closes (Socket.log s') =
    (closes (Socket.log s) + if Server.closedNow s s' then 1 else 0)%nat
}.

(** A listener that [setTransport], [setupSendCallback] or [clearTransport]
    registers: not one of an upgrade. *)
Definition ofSession (l : Transport.Listener) : bool :=
  match l with
  | Transport.UpgradeOnPacket | Transport.UpgradeOnTransportClose
  | Transport.UpgradeOnError => false
  | _ => true
  end.

(** The candidate of an upgrade is either listened to by the three
    listeners of [maybeUpgrade], the session listening for its own "close"
    as well, or by nothing at all. *)
Definition candidateShape (s : Socket.t) : Prop :=
  match Socket.candidate s with
  | None => True
  | Some c =>
      (Transport.listeners c = upgradeListeners /\
       Socket.closeListener s = true) \/
      (Transport.listeners c = [] /\ Socket.closeListener s = false)
  end.

(** What holds of a session between two inputs. *)
Record sound (s : Socket.t) : Prop := {
  so_listeners :
    forallb ofSession (Transport.listeners (Socket.transport s)) = true;
  so_candidate : candidateShape s;
  so_drain :
    match Socket.readyState s with
    | Socket.Opening | Socket.Open => Socket.drainListeners s = []
    | _ => True
    end;
  so_closed :
    Socket.readyState s = Socket.Closed ->
    Socket.pingIntervalTimer s = None /\
    Socket.pingTimeoutTimer s = None /\
    Socket.checkIntervalTimer s = None /\
    Socket.upgradeTimeoutTimer s = None /\
    Socket.sentCallbackFn s = [] /\
    Socket.closeListener s = false
}.

(** No closed session is in the client table, and every session in it has
    the close handler of [handshake] in place. *)
Definition tidy (srv : Server.t) : Prop :=
  forall id s,
    Server.clients srv !! id = Some s ->
    Socket.readyState s <> Socket.Closed /\ In id (Server.closeHandlers srv).

(** The packets the session has written, as "flush" announced them, in the
    order of the log. *)
Fixpoint flushed (l : list Socket.Effect) : list Packet :=
  match l with
  | [] => []
  | Socket.Emit (Socket.EvFlush ps) :: r => (ps ++ flushed r)%list
  | _ :: r => flushed r
  end.

(** An effect that neither announces a new packet nor a flush. *)
Definition still (e : Socket.Effect) : bool :=
  match e with
  | Socket.Emit (Socket.EvPacketCreate _) | Socket.Emit (Socket.EvFlush _) =>
      false
  | _ => true
  end.

(** The packets flushed so far are the first of the packets made so far;
    the others are the write buffer as long as the session is not closed,
    and only a closed session waits for the tick that empties the
    buffer. *)
Record conserved (s : Socket.t) : Prop := {
  c_rest : exists rest,
    created (Socket.log s) = (flushed (Socket.log s) ++ rest)%list;
  c_alive :
    Socket.readyState s <> Socket.Closed ->
    created (Socket.log s) =
      (flushed (Socket.log s) ++ Socket.writeBuffer s)%list /\
    Socket.nextTick s = false
}.

(** ** More sample requests *)

(** A websocket connection for the session "abc", and one that opens a
    session of its own. *)
Definition upgradeRequest : Http.Request :=
  {| Http.method := "GET";
     Http.query := {| Http.q_transport := Some "websocket";
                      Http.q_sid := Some "abc"; Http.q_b64 := None |};
     Http.origin := None; Http.websocket := false; Http.res := false |}.

Definition websocketHandshake : Http.Request :=
  {| Http.method := "GET";
     Http.query := {| Http.q_transport := Some "websocket";
                      Http.q_sid := None; Http.q_b64 := None |};
     Http.origin := None; Http.websocket := true; Http.res := false |}.

(** An Origin that carries a line break and a header of its own. *)
Definition splitOrigin : string :=
  "http://a" ++ Upgrade.CRLF ++ "Set-Cookie: x=1".

(** A poll for an unknown session, and a request for a transport the
    server has not, both with that Origin. *)
Definition splitPoll : Http.Request :=
  {| Http.method := "GET";
     Http.query := {| Http.q_transport := Some "polling";
                      Http.q_sid := Some "does-not-exist";
                      Http.q_b64 := None |};
     Http.origin := Some splitOrigin; Http.websocket := false;
     Http.res := false |}.

Definition splitUnknown : Http.Request :=
  {| Http.method := "GET";
     Http.query := {| Http.q_transport := Some "flashsocket";
                      Http.q_sid := None; Http.q_b64 := None |};
     Http.origin := Some splitOrigin; Http.websocket := false;
     Http.res := false |}.

(** A third way the polling transport may behave on a request: the GET
    waits, and the transport is writable while it does; a GET that arrives
    while one is waiting closes the session with an error. *)
Definition overlapPoll (req : Http.Request) (s : Socket.t) : Socket.t :=
  if Transport.writable (Socket.transport s)
  then Socket.onError laterPoll "overlap from client" s
  else
    Socket.set_transport (Transport.set_writable true (Socket.transport s)) s.

(** A server with that transport after one polling handshake, and a poll of
    the session it made. *)
Definition waitingClient : Server.t :=
  fst (Server.handshake laterPoll overlapPoll "polling" handshakeRequest
         (Some "abc") 1 (Server.create default_opts)).

Definition secondPoll : Http.Request :=
  {| Http.method := "GET";
     Http.query := {| Http.q_transport := Some "polling";
                      Http.q_sid := Some "abc"; Http.q_b64 := None |};
     Http.origin := None; Http.websocket := false; Http.res := false |}.

(** The connection of an upgrade request, writable and unused. *)
Definition freshConnection : Net.Socket :=
  {| Net.writable := true; Net.written := []; Net.destroyed := false;
     Net.errorListeners := 0 |}.

(** [websocketSession] once the write of its open packet is done. *)
Definition idleSession : Socket.t :=
  Socket.transportOnEnd laterPoll websocketSession.

(** * Properties *)

(** ** Bookkeeping: what the operations leave alone *)

Lemma extends_refl s : extends s s.
Proof. exists []. now rewrite app_nil_r. Qed.

Lemma extends_trans s1 s2 s3 : extends s1 s2 -> extends s2 s3 -> extends s1 s3.
Proof.
  intros [l1 H1] [l2 H2]. exists (l1 ++ l2)%list.
  now rewrite H2, H1, app_assoc.
Qed.

Lemma extends_record e s : extends s (Socket.record e s).
Proof. now exists [e]. Qed.

Lemma extends_clearTimer n s : extends s (Socket.clearTimer n s).
Proof. exists [Socket.ClearTimer n]. now destruct n. Qed.

Lemma extends_armTimer n ms s : extends s (Socket.armTimer n ms s).
Proof. exists [Socket.SetTimer n ms]. now destruct n. Qed.

Lemma stable_refl s : stable s s.
Proof. split; auto using extends_refl. Qed.

Lemma stable_trans s1 s2 s3 : stable s1 s2 -> stable s2 s3 -> stable s1 s3.
Proof.
  intros [a1 b1 c1 d1 e1 f1 g1 h1 i1 j1] [a2 b2 c2 d2 e2 f2 g2 h2 i2 j2].
  split; try congruence; eauto using extends_trans.
  - destruct g2 as [g2|g2]; [rewrite g2; exact g1 | now right].
  - destruct h2 as [h2|h2]; [rewrite h2; exact h1 | now right].
  - destruct i2 as [i2|i2]; [rewrite i2; exact i1 | now right].
  - destruct j2 as [j2|j2]; [rewrite j2; exact j1 | now right].
Qed.

(** A step that is stable on its own can be appended to a stable run. *)
Ltac stable_step :=
  let H := fresh in
  intros H; eapply stable_trans; [exact H | clear H];
  split; cbn;
  auto using extends_refl, extends_record, extends_clearTimer,
    extends_armTimer;
  try (exists []; cbn; now rewrite app_nil_r).

Create HintDb stable.

Lemma stable_record s x e : stable s x -> stable s (Socket.record e x).
Proof. stable_step. Qed.

Lemma stable_emit s x e : stable s x -> stable s (Socket.emit e x).
Proof. apply stable_record. Qed.

Lemma stable_clearTimer s x n : stable s x -> stable s (Socket.clearTimer n x).
Proof.
  intros H; eapply stable_trans; [exact H | clear H].
  destruct n; split; cbn; auto using extends_clearTimer.
Qed.

Lemma stable_armPing s x ms :
  stable s x -> stable s (Socket.armTimer Socket.PingInterval ms x).
Proof. stable_step. Qed.

Lemma stable_armPingTimeout s x ms :
  stable s x -> stable s (Socket.armTimer Socket.PingTimeout ms x).
Proof. stable_step. Qed.

Lemma stable_set_pingIntervalTimer s x v :
  stable s x -> stable s (Socket.set_pingIntervalTimer v x).
Proof. stable_step. Qed.

Lemma stable_set_pingTimeoutTimer s x v :
  stable s x -> stable s (Socket.set_pingTimeoutTimer v x).
Proof. stable_step. Qed.

Lemma stable_set_writeBuffer s x v :
  stable s x -> stable s (Socket.set_writeBuffer v x).
Proof. stable_step. Qed.

Lemma stable_set_packetsFn s x v :
  stable s x -> stable s (Socket.set_packetsFn v x).
Proof. stable_step. Qed.

Lemma stable_set_sentCallbackFn s x v :
  stable s x -> stable s (Socket.set_sentCallbackFn v x).
Proof. stable_step. Qed.

Lemma stable_set_cleanupFn s x v :
  stable s x -> stable s (Socket.set_cleanupFn v x).
Proof. stable_step. Qed.

Lemma stable_set_drainListeners s x v :
  stable s x -> stable s (Socket.set_drainListeners v x).
Proof. stable_step. Qed.

Lemma stable_set_closeListener s x v :
  stable s x -> stable s (Socket.set_closeListener v x).
Proof. stable_step. Qed.

Lemma stable_set_candidate s x v :
  stable s x -> stable s (Socket.set_candidate v x).
Proof. stable_step. Qed.

Lemma stable_set_retired s x v :
  stable s x -> stable s (Socket.set_retired v x).
Proof. stable_step. Qed.

Lemma stable_set_nextTick s x v :
  stable s x -> stable s (Socket.set_nextTick v x).
Proof. stable_step. Qed.

Lemma stable_set_closed s x :
  stable s x -> stable s (Socket.set_readyState Socket.Closed x).
Proof. stable_step. Qed.

Lemma stable_set_upgrading_false s x :
  stable s x -> stable s (Socket.set_upgrading false x).
Proof. stable_step. Qed.

Lemma stable_set_transport s x tr :
  Transport.tid tr = Transport.tid (Socket.transport x) ->
  Transport.kind tr = Transport.kind (Socket.transport x) ->
  stable s x -> stable s (Socket.set_transport tr x).
Proof. intros Ht Hk. stable_step. Qed.

#[local] Hint Resolve stable_refl stable_record stable_emit stable_clearTimer
  stable_armPing stable_armPingTimeout stable_set_pingIntervalTimer
  stable_set_pingTimeoutTimer stable_set_writeBuffer stable_set_packetsFn
  stable_set_sentCallbackFn stable_set_cleanupFn stable_set_drainListeners
  stable_set_closeListener stable_set_candidate stable_set_retired
  stable_set_nextTick stable_set_closed stable_set_upgrading_false : stable.

(** Transport methods keep the object's identity and class. *)
Lemma send_tid ps x : Transport.tid (Transport.send ps x) = Transport.tid x.
Proof.
  unfold Transport.send, Transport.pollingSend.
  destruct (Transport.kind x), ps, (Transport.writable x); reflexivity.
Qed.

Lemma send_kind ps x : Transport.kind (Transport.send ps x) = Transport.kind x.
Proof.
  unfold Transport.send, Transport.pollingSend.
  destruct (Transport.kind x) eqn:E, ps, (Transport.writable x); cbn; auto.
Qed.

Lemma close_tid pdc x :
  Transport.tid (fst (Transport.close pdc x)) = Transport.tid x.
Proof.
  unfold Transport.close, Transport.doClose.
  destruct (Transport.readyState x); cbn; auto.
  destruct (Transport.kind x); reflexivity.
Qed.

Lemma close_kind pdc x :
  Transport.kind (fst (Transport.close pdc x)) = Transport.kind x.
Proof.
  unfold Transport.close, Transport.doClose.
  destruct (Transport.readyState x); cbn; auto.
  destruct (Transport.kind x) eqn:E; cbn; auto.
Qed.

Lemma removeListener_tid l x :
  Transport.tid (Transport.removeListener l x) = Transport.tid x.
Proof. reflexivity. Qed.

Lemma removeListener_kind l x :
  Transport.kind (Transport.removeListener l x) = Transport.kind x.
Proof. reflexivity. Qed.

(** [shiftCleanups] touches the cleanup list and the transport's listeners,
    nothing else. *)
Lemma shiftCleanups_shape n : forall s,
  exists cf ls,
    Socket.shiftCleanups n s =
    Socket.set_cleanupFn cf
      (Socket.set_transport
         (Transport.set_listeners ls (Socket.transport s)) s).
Proof.
  induction n as [|n IH]; intros s; simpl.
  - exists (Socket.cleanupFn s), (Transport.listeners (Socket.transport s)).
    destruct s as [? ? ? ? ? ? ? ? ? tr]; destruct tr; reflexivity.
  - destruct (Socket.cleanupFn s) as [|c r] eqn:E.
    + exists [], (Transport.listeners (Socket.transport s)).
      destruct s as [? ? ? ? ? ? ? ? ? tr]; destruct tr; simpl in *.
      now subst.
    + destruct (IH (Socket.runCleanup c (Socket.set_cleanupFn r s)))
        as (cf & ls & ->).
      exists cf, ls.
      destruct s as [? ? ? ? ? ? ? ? ? tr]; destruct tr, c; reflexivity.
Qed.

Section SocketFrames.

Variable pdc : Transport.t -> Transport.t * bool.

Lemma stable_transportSend s x ps :
  stable s x -> stable s (Socket.transportSend ps x).
Proof.
  intros H. unfold Socket.transportSend.
  apply stable_record, stable_set_transport;
    auto using send_tid, send_kind.
Qed.

Lemma stable_schedulePing s x : stable s x -> stable s (Socket.schedulePing x).
Proof. unfold Socket.schedulePing. auto with stable. Qed.

Lemma stable_resetPingTimeout s x ms :
  stable s x -> stable s (Socket.resetPingTimeout ms x).
Proof. unfold Socket.resetPingTimeout. auto with stable. Qed.

Lemma stable_shiftCleanups s x n :
  stable s x -> stable s (Socket.shiftCleanups n x).
Proof.
  intros H. destruct (shiftCleanups_shape n x) as (cf & ls & ->).
  apply stable_set_cleanupFn, stable_set_transport; auto.
Qed.

Lemma stable_cleanup s x : stable s x -> stable s (Socket.cleanup x).
Proof. unfold Socket.cleanup. auto 10 with stable. Qed.

Lemma stable_closeCandidate s x :
  stable s x -> stable s (Socket.closeCandidate pdc x).
Proof.
  unfold Socket.closeCandidate. destruct (Socket.candidate x);
    auto 10 with stable.
Qed.

Lemma stable_upgradeOnError s x :
  stable s x -> stable s (Socket.upgradeOnError pdc x).
Proof.
  unfold Socket.upgradeOnError.
  auto using stable_closeCandidate, stable_cleanup.
Qed.

Lemma stable_emitClose s x r d :
  stable s x -> stable s (Socket.emitClose pdc r d x).
Proof.
  intros H. unfold Socket.emitClose.
  destruct (Socket.closeListener _);
    auto using stable_upgradeOnError with stable.
Qed.

Lemma stable_clearTransport s x :
  stable s x -> stable s (Socket.clearTransport pdc x).
Proof.
  intros H. unfold Socket.clearTransport.
  apply stable_clearTimer, stable_record, stable_set_transport.
  - now rewrite close_tid.
  - now rewrite close_kind.
  - apply stable_set_transport; auto using stable_shiftCleanups.
Qed.

Lemma stable_onClose s x r d :
  stable s x -> stable s (Socket.onClose pdc r d x).
Proof.
  intros H. unfold Socket.onClose.
  destruct (Socket.readyState x); auto;
    apply stable_emitClose, stable_clearTransport; auto 12 with stable.
Qed.

Lemma stable_closeTransport s x d :
  stable s x -> stable s (Socket.closeTransport pdc d x).
Proof.
  intros H. unfold Socket.closeTransport.
  set (x1 := if d then _ else x).
  assert (H1 : stable s x1).
  { subst x1. destruct d; auto.
    apply stable_record, stable_set_transport; auto. }
  clearbody x1.
  destruct (Transport.close pdc (Socket.transport x1)) as [tr now] eqn:E.
  assert (H2 : stable s
            (Socket.record (Socket.TClose (Transport.tid tr) true)
               (Socket.set_transport tr x1))).
  { apply stable_record, stable_set_transport; auto.
    - change tr with (fst (tr, now)). rewrite <- E. apply close_tid.
    - change tr with (fst (tr, now)). rewrite <- E. apply close_kind. }
  destruct now; auto using stable_onClose.
Qed.

Lemma stable_closeTransports ds : forall s x,
  stable s x ->
  stable s (fold_left (fun s d => Socket.closeTransport pdc d s) ds x).
Proof.
  induction ds as [|d ds IH]; intros s x H; simpl; auto.
  apply IH, stable_closeTransport, H.
Qed.

Lemma stable_emitDrain s x : stable s x -> stable s (Socket.emitDrain pdc x).
Proof.
  intros H. unfold Socket.emitDrain.
  apply stable_closeTransports. auto with stable.
Qed.

Lemma stable_flush s x : stable s x -> stable s (Socket.flush pdc x).
Proof.
  intros H. unfold Socket.flush.
  destruct (_ && _ && _); auto.
  apply stable_record, stable_emitDrain, stable_transportSend.
  destruct (negb _); auto 10 with stable.
Qed.

Lemma stable_sendPacket s x ty d o cb :
  stable s x -> stable s (Socket.sendPacket pdc ty d o cb x).
Proof.
  intros H. unfold Socket.sendPacket.
  destruct (Socket.readyState x); auto; apply stable_flush;
    destruct o, cb; auto 10 with stable.
Qed.

Lemma stable_onDrain s x : stable s x -> stable s (Socket.onDrain x).
Proof.
  intros H. unfold Socket.onDrain.
  destruct (Socket.sentCallbackFn x) as [|[f|fs] rest]; auto with stable.
  assert (G : stable s (Socket.set_sentCallbackFn rest x)) by auto with stable.
  revert G. generalize (Socket.set_sentCallbackFn rest x).
  induction fs as [|f fs IH]; intros y G; simpl; auto with stable.
Qed.

Lemma stable_onPacket s x p :
  stable s x -> stable s (Socket.onPacket pdc p x).
Proof.
  intros H. unfold Socket.onPacket.
  destruct (Socket.readyState x); auto.
  repeat destruct (String.eqb _ _);
    auto 10 using stable_onClose, stable_schedulePing,
      stable_resetPingTimeout with stable.
Qed.

Lemma stable_pingIntervalExpires s x :
  stable s x -> stable s (Socket.pingIntervalExpires pdc x).
Proof.
  intros H. unfold Socket.pingIntervalExpires.
  destruct (Socket.pingIntervalTimer x); auto.
  apply stable_resetPingTimeout, stable_sendPacket. auto with stable.
Qed.

Lemma stable_pingTimeoutExpires s x :
  stable s x -> stable s (Socket.pingTimeoutExpires pdc x).
Proof.
  intros H. unfold Socket.pingTimeoutExpires.
  destruct (Socket.pingTimeoutTimer x); auto.
  cbn. destruct (Socket.readyState x);
    auto using stable_onClose with stable.
Qed.

End SocketFrames.

Lemma handed_app l1 l2 : handed (l1 ++ l2) = (handed l1 ++ handed l2)%list.
Proof.
  induction l1 as [|e l1 IH]; simpl; auto.
  destruct e; simpl; now rewrite ?IH.
Qed.

Lemma created_app l1 l2 : created (l1 ++ l2) = (created l1 ++ created l2)%list.
Proof.
  induction l1 as [|e l1 IH]; simpl; auto.
  destruct e as [[]| | | | | | |]; simpl; now rewrite ?IH.
Qed.

Lemma quiet_refl s : quiet s s.
Proof. split; auto. Qed.

Lemma quiet_trans s1 s2 s3 : quiet s1 s2 -> quiet s2 s3 -> quiet s1 s3.
Proof.
  intros [a1 b1 c1 d1 e1 f1] [a2 b2 c2 d2 e2 f2].
  split; try congruence.
  - destruct e2 as [e2|e2]; [rewrite e2; exact e1 | now right].
  - destruct f2 as [f2|f2]; [rewrite f2; exact f1 | now right].
Qed.

Ltac quiet_step :=
  let H := fresh in
  intros H; eapply quiet_trans; [exact H | clear H];
  split; cbn; rewrite ?handed_app, ?created_app; cbn;
  rewrite ?app_nil_r; auto.

Lemma quiet_record s x e :
  mute e = true -> quiet s x -> quiet s (Socket.record e x).
Proof.
  intros M. quiet_step;
    destruct e as [[]| | | | | | |]; cbn in *;
    rewrite ?app_nil_r; auto; discriminate.
Qed.

Lemma quiet_clearTimer s x n : quiet s x -> quiet s (Socket.clearTimer n x).
Proof.
  intros H; eapply quiet_trans; [exact H | clear H].
  destruct n; split; cbn; rewrite ?handed_app, ?created_app; cbn;
    rewrite ?app_nil_r; auto.
Qed.

Lemma quiet_set_cleanupFn s x v :
  quiet s x -> quiet s (Socket.set_cleanupFn v x).
Proof. quiet_step. Qed.

Lemma quiet_set_transport s x v :
  quiet s x -> quiet s (Socket.set_transport v x).
Proof. quiet_step. Qed.

Lemma quiet_set_closeListener s x v :
  quiet s x -> quiet s (Socket.set_closeListener v x).
Proof. quiet_step. Qed.

Lemma quiet_set_candidate s x v :
  quiet s x -> quiet s (Socket.set_candidate v x).
Proof. quiet_step. Qed.

Lemma quiet_set_retired s x v :
  quiet s x -> quiet s (Socket.set_retired v x).
Proof. quiet_step. Qed.

Lemma quiet_set_nextTick s x v :
  quiet s x -> quiet s (Socket.set_nextTick v x).
Proof. quiet_step. Qed.

Lemma quiet_set_readyState s x v :
  quiet s x -> quiet s (Socket.set_readyState v x).
Proof. quiet_step. Qed.

Lemma quiet_set_upgrading s x v :
  quiet s x -> quiet s (Socket.set_upgrading v x).
Proof. quiet_step. Qed.

Lemma quiet_set_upgraded s x v :
  quiet s x -> quiet s (Socket.set_upgraded v x).
Proof. quiet_step. Qed.

Lemma quiet_clear_packetsFn s x :
  quiet s x -> quiet s (Socket.set_packetsFn [] x).
Proof. quiet_step. Qed.

Lemma quiet_clear_sentCallbackFn s x :
  quiet s x -> quiet s (Socket.set_sentCallbackFn [] x).
Proof. quiet_step. Qed.

Create HintDb quiet.

#[local] Hint Resolve quiet_refl quiet_clearTimer quiet_set_cleanupFn
  quiet_set_transport quiet_set_closeListener quiet_set_candidate
  quiet_set_retired quiet_set_nextTick quiet_set_readyState
  quiet_set_upgrading quiet_set_upgraded quiet_clear_packetsFn
  quiet_clear_sentCallbackFn : quiet.

Section SocketQuiet.

Variable pdc : Transport.t -> Transport.t * bool.

Lemma quiet_shiftCleanups s x n :
  quiet s x -> quiet s (Socket.shiftCleanups n x).
Proof.
  intros H. destruct (shiftCleanups_shape n x) as (cf & ls & ->).
  auto with quiet.
Qed.

Lemma quiet_cleanup s x : quiet s x -> quiet s (Socket.cleanup x).
Proof. unfold Socket.cleanup. auto 10 with quiet. Qed.

Lemma quiet_closeCandidate s x :
  quiet s x -> quiet s (Socket.closeCandidate pdc x).
Proof.
  unfold Socket.closeCandidate. destruct (Socket.candidate x);
    auto 10 using quiet_record with quiet.
Qed.

Lemma quiet_upgradeOnError s x :
  quiet s x -> quiet s (Socket.upgradeOnError pdc x).
Proof.
  unfold Socket.upgradeOnError.
  auto using quiet_closeCandidate, quiet_cleanup.
Qed.

Lemma quiet_emitClose s x r d :
  quiet s x -> quiet s (Socket.emitClose pdc r d x).
Proof.
  intros H. unfold Socket.emitClose, Socket.emit.
  destruct (Socket.closeListener _);
    auto 10 using quiet_upgradeOnError, quiet_record with quiet.
Qed.

Lemma quiet_clearTransport s x :
  quiet s x -> quiet s (Socket.clearTransport pdc x).
Proof.
  intros H. unfold Socket.clearTransport.
  auto 10 using quiet_record, quiet_shiftCleanups with quiet.
Qed.

Lemma quiet_onClose s x r d :
  quiet s x -> quiet s (Socket.onClose pdc r d x).
Proof.
  intros H. unfold Socket.onClose.
  destruct (Socket.readyState x); auto;
    apply quiet_emitClose, quiet_clearTransport; auto 12 with quiet.
Qed.

Lemma quiet_closeTransport s x d :
  quiet s x -> quiet s (Socket.closeTransport pdc d x).
Proof.
  intros H. unfold Socket.closeTransport.
  set (x1 := if d then _ else x).
  assert (H1 : quiet s x1).
  { subst x1. destruct d; auto using quiet_record with quiet. }
  clearbody x1.
  destruct (Transport.close pdc (Socket.transport x1)) as [tr now].
  destruct now; auto 10 using quiet_onClose, quiet_record with quiet.
Qed.

Lemma quiet_closeTransports ds : forall s x,
  quiet s x ->
  quiet s (fold_left (fun s d => Socket.closeTransport pdc d s) ds x).
Proof.
  induction ds as [|d ds IH]; intros s x H; simpl; auto.
  apply IH, quiet_closeTransport, H.
Qed.

(** [readyState] along the same operations. *)
Lemma onClose_closed r d s :
  Socket.readyState (Socket.onClose pdc r d s) = Socket.Closed.
Proof.
  destruct (Socket.readyState s) eqn:E.
  4: { unfold Socket.onClose. now rewrite E. }
  all: destruct (stable_onClose pdc s s r d (stable_refl s)) as [_ _ _ _ _ _ R _ _ _];
    destruct R as [R|R]; auto;
    unfold Socket.onClose in *; rewrite E in *.
  all: match type of R with
       | Socket.readyState (Socket.emitClose _ _ _ (Socket.clearTransport _ ?y)) = _ =>
           destruct (stable_emitClose pdc y _ r d
                       (stable_clearTransport pdc y y (stable_refl y)))
             as [_ _ _ _ _ _ R' _ _ _]
       end;
    destruct R' as [R'|R']; auto.
Qed.

End SocketQuiet.

(** ** Sending (Socket.send, Socket.sendPacket) *)

Section Sending.

Variable pdc : Transport.t -> Transport.t * bool.

Lemma sendPacket_accepted ty d o cb s :
  Socket.readyState s = Socket.Opening \/ Socket.readyState s = Socket.Open ->
  Socket.sendPacket pdc ty d o cb s =
  Socket.flush pdc (enqueue (packetOf ty d o) (callbackOf o cb) s).
Proof.
  intros H. unfold Socket.sendPacket, enqueue, packetOf, optionsOf, callbackOf.
  destruct H as [-> | ->]; f_equal;
    destruct o, cb; cbn; rewrite ?app_nil_r; try reflexivity;
    destruct s; reflexivity.
Qed.

Lemma sendPacket_rejected ty d o cb s :
  Socket.readyState s = Socket.Closing \/ Socket.readyState s = Socket.Closed ->
  Socket.sendPacket pdc ty d o cb s = s.
Proof. intros H. unfold Socket.sendPacket. now destruct H as [-> | ->]. Qed.

Lemma flush_idle s : flushes s = false -> Socket.flush pdc s = s.
Proof.
  unfold flushes, Socket.flush. intros H.
  replace (negb (Nat.eqb (length (Socket.writeBuffer s)) 0))
    with (match Socket.writeBuffer s with [] => false | _ => true end)
    by now destruct (Socket.writeBuffer s).
  now rewrite H.
Qed.

(** C7: a session that is closing or closed ignores [send] and
    [sendPacket] altogether: the session is returned as it was (same
    write buffer, same callbacks, same log, same transport), and [send]
    still returns [this].  A session that is opening or open announces one
    message packet, pushes it on [writeBuffer] and the callback, if one was
    given, on [packetsFn], and then calls [flush]; when the transport is not
    writable that is the final state. *)
Theorem send_ignored_or_enqueued s d o cb :
  let r := Socket.send pdc d o cb s in
  let pkt := packetOf "message" d o in
  let queued := enqueue pkt (callbackOf o cb) s in
  snd r = Socket.This /\
  match Socket.readyState s with
  | Socket.Closing | Socket.Closed =>
      fst r = s /\
      forall ty, Socket.sendPacket pdc ty d o cb s = s
  | Socket.Opening | Socket.Open =>
      fst r = Socket.flush pdc queued /\
      Socket.writeBuffer queued = (Socket.writeBuffer s ++ [pkt])%list /\
      Socket.packetsFn queued = (Socket.packetsFn s ++ callbackOf o cb)%list /\
      Socket.log queued =
        (Socket.log s ++ [Socket.Emit (Socket.EvPacketCreate pkt)])%list /\
      type pkt = "message" /\
      (length (callbackOf o cb) <= 1)%nat /\
      if Transport.writable (Socket.transport s) then True
      else fst r = queued
  end.
Proof.
  cbn zeta. split; [reflexivity|].
  destruct (Socket.readyState s) eqn:E.
  1, 2: assert (A : Socket.sendPacket pdc "message" d o cb s =
                Socket.flush pdc
                  (enqueue (packetOf "message" d o) (callbackOf o cb) s))
      by (apply sendPacket_accepted; auto);
    cbn [Socket.send fst]; rewrite A;
    repeat split;
    [ destruct o, cb; cbn; lia
    | destruct (Transport.writable (Socket.transport s)) eqn:W; auto;
      apply flush_idle; unfold flushes; cbn; rewrite W;
      now rewrite andb_false_r ].
  all: split; [| intros ty]; cbn [Socket.send fst];
    apply sendPacket_rejected; auto.
Qed.


End Sending.

(** ** Flushing and draining (Socket.flush, Socket.setupSendCallback) *)

Section Flushing.

Variable pdc : Transport.t -> Transport.t * bool.

Lemma flush_fires s :
  flushes s = true ->
  exists s1,
    Socket.flush pdc s =
      Socket.record (Socket.ServerEmit Socket.EvDrain)
        (Socket.emitDrain pdc s1) /\
    Socket.writeBuffer s1 = [] /\
    Socket.packetsFn s1 = [] /\
    Socket.sentCallbackFn s1 =
      (Socket.sentCallbackFn s ++ movedCallbacks s)%list /\
    Socket.transport s1 =
      Transport.send (Socket.writeBuffer s) (Socket.transport s) /\
    Socket.readyState s1 = Socket.readyState s /\
    Socket.drainListeners s1 = Socket.drainListeners s /\
    Socket.log s1 =
      (Socket.log s ++
       [Socket.Emit (Socket.EvFlush (Socket.writeBuffer s));
        Socket.ServerEmit (Socket.EvFlush (Socket.writeBuffer s));
        Socket.TSend (Transport.tid (Socket.transport s))
          (Socket.writeBuffer s)])%list.
Proof.
  intros F. unfold Socket.flush.
  replace (negb (Nat.eqb (length (Socket.writeBuffer s)) 0))
    with (match Socket.writeBuffer s with [] => false | _ => true end)
    by now destruct (Socket.writeBuffer s).
  unfold flushes in F. rewrite F.
  eexists. split; [reflexivity|].
  unfold movedCallbacks, Transport.supportsFraming. cbn.
  destruct (Transport.kind (Socket.transport s)); cbn;
    rewrite <- ?app_assoc; repeat split; reflexivity.
Qed.

Lemma emitDrain_eq x :
  Socket.emitDrain pdc x =
  fold_left (fun s d => Socket.closeTransport pdc d s)
    (Socket.drainListeners x)
    (Socket.set_drainListeners [] (Socket.emit Socket.EvDrain x)).
Proof. reflexivity. Qed.

Lemma onDrain_entry s e rest :
  Socket.sentCallbackFn s = e :: rest ->
  Socket.onDrain s =
  Socket.set_log (Socket.log s ++ map Socket.Invoke (functionsOf e))
    (Socket.set_sentCallbackFn rest s).
Proof.
  intros E. unfold Socket.onDrain. rewrite E.
  destruct e as [f|fs]; [reflexivity|]. cbn.
  assert (G : forall fs x,
    fold_left (fun s0 f => Socket.record (Socket.Invoke f) s0) fs x =
    Socket.set_log (Socket.log x ++ map Socket.Invoke fs) x).
  { clear. induction fs as [|f fs IH]; intros x; cbn.
    - rewrite app_nil_r. now destruct x.
    - rewrite IH. cbn. rewrite <- app_assoc. now destruct x. }
  rewrite G. reflexivity.
Qed.

(** C3: [flush] hands packets to the transport exactly when the session is
    not closed, the transport is writable and the write buffer is not
    empty; otherwise it changes nothing.  When it fires, the whole write
    buffer goes to [transport.send] in one call, [writeBuffer] and
    [packetsFn] are emptied, and the callbacks are appended to
    [sentCallbackFn]: one entry per callback on a transport with framing, a
    single array entry otherwise.  The "drain" handler of
    [setupSendCallback] takes the first entry off [sentCallbackFn] and calls
    its function, or every function of an array entry; nothing is called
    when there is no entry.  On a transport set up by [setTransport], a
    "drain" event runs [flush] and then that handler. *)
Theorem flush_and_drain s :
  (if flushes s then
     exists s1,
       Socket.flush pdc s =
         Socket.record (Socket.ServerEmit Socket.EvDrain)
           (Socket.emitDrain pdc s1) /\
       Socket.writeBuffer s1 = [] /\
       Socket.packetsFn s1 = [] /\
       Socket.sentCallbackFn s1 =
         (Socket.sentCallbackFn s ++
          if Transport.supportsFraming (Socket.transport s)
          then map Socket.Fn (Socket.packetsFn s)
          else [Socket.Batch (Socket.packetsFn s)])%list /\
       Socket.transport s1 =
         Transport.send (Socket.writeBuffer s) (Socket.transport s) /\
       handed (Socket.log (Socket.flush pdc s)) =
         (handed (Socket.log s) ++
          [(Transport.tid (Socket.transport s), Socket.writeBuffer s)])%list /\
       Socket.writeBuffer (Socket.flush pdc s) = [] /\
       Socket.packetsFn (Socket.flush pdc s) = [] /\
       match Socket.drainListeners s with
       | [] => Socket.sentCallbackFn (Socket.flush pdc s) =
               Socket.sentCallbackFn s1
       | _ => True
       end
   else Socket.flush pdc s = s) /\
  match Socket.sentCallbackFn s with
  | [] => Socket.onDrain s = s
  | e :: rest =>
      Socket.sentCallbackFn (Socket.onDrain s) = rest /\
      Socket.log (Socket.onDrain s) =
        (Socket.log s ++ map Socket.Invoke (functionsOf e))%list /\
      Socket.writeBuffer (Socket.onDrain s) = Socket.writeBuffer s /\
      Socket.packetsFn (Socket.onDrain s) = Socket.packetsFn s /\
      Socket.transport (Socket.onDrain s) = Socket.transport s
  end /\
  (Transport.listeners (Socket.transport s) = sessionListeners ->
   Socket.transportEmit pdc Socket.TDrain s =
   Socket.onDrain (Socket.flush pdc s)).
Proof.
  split; [|split].
  - destruct (flushes s) eqn:F; [|now apply flush_idle].
    destruct (flush_fires s F) as (s1 & E & W & P & C & T & R & D & L).
    set (base := Socket.set_drainListeners [] (Socket.emit Socket.EvDrain s1)).
    assert (Q : quiet base
              (fold_left (fun x d => Socket.closeTransport pdc d x)
                 (Socket.drainListeners s1) base))
      by apply quiet_closeTransports, quiet_refl.
    destruct Q as [Qh Qc Qw Qd Qp Qs].
    exists s1. rewrite E, emitDrain_eq. fold base.
    cbn [Socket.log Socket.record Socket.set_log Socket.writeBuffer
         Socket.packetsFn Socket.sentCallbackFn].
    rewrite handed_app, Qh, Qw. subst base.
    cbn [Socket.log Socket.emit Socket.record Socket.set_log
         Socket.set_drainListeners Socket.writeBuffer] in *.
    rewrite !handed_app, L, handed_app. cbn [handed]. rewrite !app_nil_r.
    repeat split; auto.
    + destruct Qp as [Qp|Qp]; rewrite Qp; auto.
    + rewrite <- D. destruct (Socket.drainListeners s1); auto.
  - destruct (Socket.sentCallbackFn s) as [|e rest] eqn:E.
    + unfold Socket.onDrain. now rewrite E.
    + rewrite (onDrain_entry s e rest E). cbn. auto.
  - intros L. unfold Socket.transportEmit. rewrite L. reflexivity.
Qed.

End Flushing.

(** ** Closing (Socket.close, Socket.closeTransport) *)

Section Closing.

Variable pdc : Transport.t -> Transport.t * bool.

Lemma closeTransport_log d x :
  exists l,
    Socket.log (Socket.closeTransport pdc d x) =
    (Socket.log x
     ++ (if d then [Socket.TDiscard (Transport.tid (Socket.transport x))]
         else [])
     ++ Socket.TClose (Transport.tid (Socket.transport x)) true :: l)%list.
Proof.
  unfold Socket.closeTransport.
  set (x1 := if d then _ else x).
  assert (T1 : Transport.tid (Socket.transport x1) =
               Transport.tid (Socket.transport x))
    by (subst x1; now destruct d).
  assert (L1 : Socket.log x1 =
               (Socket.log x ++
                if d then [Socket.TDiscard (Transport.tid (Socket.transport x))]
                else [])%list)
    by (subst x1; destruct d; cbn; now rewrite ?app_nil_r).
  clearbody x1.
  destruct (Transport.close pdc (Socket.transport x1)) as [tr now] eqn:E.
  assert (T2 : Transport.tid tr = Transport.tid (Socket.transport x)).
  { rewrite <- T1. change tr with (fst (tr, now)). rewrite <- E.
    apply close_tid. }
  rewrite T2.
  set (x2 := Socket.record _ _).
  assert (L2 : Socket.log x2 =
               (Socket.log x1 ++
                [Socket.TClose (Transport.tid (Socket.transport x)) true])%list)
    by reflexivity.
  clearbody x2.
  destruct now.
  - destruct (stable_onClose pdc x2 x2 "forced close" None (stable_refl x2))
      as [_ _ _ _ _ [l Hl] _ _ _ _].
    exists l. rewrite Hl, L2, L1, <- !app_assoc. reflexivity.
  - exists []. rewrite L2, L1, <- !app_assoc. reflexivity.
Qed.

Lemma close_not_open d s :
  Socket.readyState (fst (Socket.close pdc d s)) <> Socket.Open.
Proof.
  unfold Socket.close.
  destruct (Socket.readyState s) eqn:E; cbn; try congruence.
  destruct (negb _); cbn; [congruence|].
  destruct (stable_closeTransport pdc
              (Socket.set_readyState Socket.Closing s)
              (Socket.set_readyState Socket.Closing s) d (stable_refl _))
    as [_ _ _ _ _ _ [R|R] _ _ _]; rewrite R; cbn; congruence.
Qed.

(** C8: closing twice is closing once, because after a first call the
    session is no longer open and [close] then returns at once.  On an open
    session with an empty write buffer the transport is closed within the
    call, with the "forced close" callback; with a non-empty buffer nothing
    but the state changes, a listener for the session's next "drain" is left
    behind, and that event closes the transport and takes the listener
    away. *)
Theorem close_twice_is_close_once s d1 d2 :
  Socket.close pdc d2 (fst (Socket.close pdc d1 s)) =
    (fst (Socket.close pdc d1 s), Socket.Nothing) /\
  match Socket.readyState s with
  | Socket.Open =>
      let closing := Socket.set_readyState Socket.Closing s in
      match Socket.writeBuffer s with
      | [] =>
          fst (Socket.close pdc d1 s) = Socket.closeTransport pdc d1 closing /\
          exists l,
            Socket.log (fst (Socket.close pdc d1 s)) =
            (Socket.log s
             ++ (if d1
                 then [Socket.TDiscard (Transport.tid (Socket.transport s))]
                 else [])
             ++ Socket.TClose (Transport.tid (Socket.transport s)) true
                :: l)%list
      | _ :: _ =>
          let waiting := fst (Socket.close pdc d1 s) in
          waiting =
            Socket.set_drainListeners (Socket.drainListeners s ++ [d1])
              closing /\
          Socket.log waiting = Socket.log s /\
          Socket.transport waiting = Socket.transport s /\
          match Socket.drainListeners s with
          | [] =>
              Socket.emitDrain pdc waiting =
                Socket.closeTransport pdc d1
                  (Socket.set_drainListeners []
                     (Socket.emit Socket.EvDrain closing)) /\
              Socket.drainListeners (Socket.emitDrain pdc waiting) = [] /\
              exists l,
                Socket.log (Socket.emitDrain pdc waiting) =
                (Socket.log s ++ [Socket.Emit Socket.EvDrain]
                 ++ (if d1
                     then [Socket.TDiscard
                             (Transport.tid (Socket.transport s))]
                     else [])
                 ++ Socket.TClose (Transport.tid (Socket.transport s)) true
                    :: l)%list
          | _ :: _ => True
          end
      end
  | _ => fst (Socket.close pdc d1 s) = s
  end.
Proof.
  split.
  - pose proof (close_not_open d1 s) as N.
    unfold Socket.close at 1.
    destruct (Socket.readyState (fst (Socket.close pdc d1 s)));
      cbn; congruence.
  - destruct (Socket.readyState s) eqn:R; try (unfold Socket.close; now rewrite R).
    cbn zeta.
    destruct (Socket.writeBuffer s) as [|p wb] eqn:W.
    + assert (E : fst (Socket.close pdc d1 s) =
                  Socket.closeTransport pdc d1
                    (Socket.set_readyState Socket.Closing s)).
      { unfold Socket.close. rewrite R. cbn. now rewrite W. }
      split; [exact E|]. rewrite E.
      exact (closeTransport_log d1 (Socket.set_readyState Socket.Closing s)).
    + assert (E : fst (Socket.close pdc d1 s) =
                  Socket.set_drainListeners (Socket.drainListeners s ++ [d1])
                    (Socket.set_readyState Socket.Closing s)).
      { unfold Socket.close. rewrite R. cbn. now rewrite W. }
      rewrite E. repeat split.
      destruct (Socket.drainListeners s) as [|d0 ds] eqn:D; [|exact I].
      assert (E2 : Socket.emitDrain pdc
                (Socket.set_drainListeners ([] ++ [d1])
                   (Socket.set_readyState Socket.Closing s)) =
              Socket.closeTransport pdc d1
                (Socket.set_drainListeners []
                   (Socket.emit Socket.EvDrain
                      (Socket.set_readyState Socket.Closing s)))).
      { unfold Socket.emitDrain. cbn. reflexivity. }
      rewrite E2. split; [reflexivity|]. split.
      * pose proof (quiet_closeTransport pdc _ _ d1
                      (quiet_refl
                         (Socket.set_drainListeners []
                            (Socket.emit Socket.EvDrain
                               (Socket.set_readyState Socket.Closing s)))))
          as [_ _ _ Q _ _].
        exact Q.
      * destruct (closeTransport_log d1
                    (Socket.set_drainListeners []
                       (Socket.emit Socket.EvDrain
                          (Socket.set_readyState Socket.Closing s))))
          as [l Hl].
        exists l. rewrite Hl. cbn. rewrite <- !app_assoc. reflexivity.
Qed.

End Closing.

(** ** Heartbeats (Socket.schedulePing, Socket.resetPingTimeout, Socket.onPacket) *)

Section Heartbeat.

Variable pdc : Transport.t -> Transport.t * bool.

Lemma emitClose_log r d y :
  exists l,
    Socket.log (Socket.emitClose pdc r d y) =
    (Socket.log y ++ Socket.Emit (Socket.EvClose r d) :: l)%list.
Proof.
  unfold Socket.emitClose.
  destruct (Socket.closeListener _) eqn:C.
  - set (y1 := Socket.set_closeListener false _).
    destruct (stable_upgradeOnError pdc y1 y1 (stable_refl y1))
      as [_ _ _ _ _ [l Hl] _ _ _ _].
    exists l. rewrite Hl. subst y1. cbn. now rewrite <- app_assoc.
  - now exists [].
Qed.

Lemma onClose_emits r d s :
  Socket.readyState s <> Socket.Closed ->
  exists l1 l2,
    Socket.log (Socket.onClose pdc r d s) =
    (Socket.log s ++ l1 ++ Socket.Emit (Socket.EvClose r d) :: l2)%list.
Proof.
  intros N. unfold Socket.onClose.
  set (y := Socket.set_sentCallbackFn [] _).
  assert (S : stable s (Socket.clearTransport pdc y))
    by (apply stable_clearTransport; subst y; auto 12 with stable).
  destruct S as [_ _ _ _ _ [l1 H1] _ _ _ _].
  destruct (emitClose_log r d (Socket.clearTransport pdc y)) as [l2 H2].
  destruct (Socket.readyState s); try congruence;
    exists l1, l2; rewrite H2, H1, <- app_assoc; reflexivity.
Qed.

Lemma opts_sendPacket ty d o cb x :
  Socket.opts (Socket.sendPacket pdc ty d o cb x) = Socket.opts x.
Proof. apply (stable_sendPacket pdc x x), stable_refl. Qed.

Lemma onOpen_opts s : exists x,
  Socket.onOpen pdc s = Socket.schedulePing x /\
  Socket.opts x = Socket.opts s.
Proof.
  unfold Socket.onOpen. eexists. split; [reflexivity|].
  cbn [Socket.opts Socket.emit Socket.record Socket.set_log].
  destruct (JS.truthy _); rewrite ?opts_sendPacket; reflexivity.
Qed.

(** C2: the heartbeat of an open session.  Entering the open state arms the
    ping-interval timer with [pingInterval], and so does every pong.  When
    that timer expires a ping packet is queued and flushed and the
    ping-timeout timer is armed with [pingTimeout].  Every packet received
    while open re-arms the ping-timeout timer with
    [pingInterval + pingTimeout] before the packet is looked at, and unless
    the packet is an error packet, which closes the session, the timer is
    left armed with that delay.  When the ping-timeout timer expires on a
    session that is not closed, the session closes and emits "close" with
    reason "ping timeout". *)
Theorem heartbeat_timers s p :
  Socket.pingIntervalTimer (Socket.onOpen pdc s) =
    Some (pingInterval (Socket.opts s)) /\
  (Socket.readyState s = Socket.Open ->
   (type p = "pong" ->
    Socket.pingIntervalTimer (Socket.onPacket pdc p s) =
      Some (pingInterval (Socket.opts s))) /\
   (Socket.pingIntervalTimer s <> None ->
    Socket.pingIntervalExpires pdc s =
      Socket.resetPingTimeout (pingTimeout (Socket.opts s))
        (Socket.flush pdc
           (enqueue pingPacket [] (Socket.set_pingIntervalTimer None s))) /\
    Socket.pingTimeoutTimer (Socket.pingIntervalExpires pdc s) =
      Some (pingTimeout (Socket.opts s))) /\
   (exists l,
      Socket.log (Socket.onPacket pdc p s) =
      (Socket.log s ++
       [Socket.Emit (Socket.EvPacket p);
        Socket.ClearTimer Socket.PingTimeout;
        Socket.SetTimer Socket.PingTimeout
          (pingInterval (Socket.opts s) + pingTimeout (Socket.opts s))]
       ++ l)%list) /\
   (type p <> "error" ->
    Socket.pingTimeoutTimer (Socket.onPacket pdc p s) =
      Some (pingInterval (Socket.opts s) + pingTimeout (Socket.opts s)))) /\
  (Socket.readyState s <> Socket.Closed ->
   Socket.pingTimeoutTimer s <> None ->
   Socket.readyState (Socket.pingTimeoutExpires pdc s) = Socket.Closed /\
   In (Socket.Emit (Socket.EvClose "ping timeout" None))
     (Socket.log (Socket.pingTimeoutExpires pdc s))).
Proof.
  split; [|split].
  - destruct (onOpen_opts s) as (x & -> & <-). reflexivity.
  - intros O. repeat split.
    + intros P. unfold Socket.onPacket. rewrite O, P. reflexivity.
    + unfold Socket.pingIntervalExpires.
      destruct (Socket.pingIntervalTimer s); [|congruence].
      rewrite sendPacket_accepted by (right; exact O).
      cbn. do 2 f_equal.
      etransitivity;
        [apply (st_opts _ _ (stable_flush pdc _ _ (stable_refl _)))
        | reflexivity].
    + unfold Socket.pingIntervalExpires.
      destruct (Socket.pingIntervalTimer s); [|congruence].
      cbn. now rewrite opts_sendPacket.
    + unfold Socket.onPacket. rewrite O.
      set (x := Socket.resetPingTimeout _ _).
      assert (L : Socket.log x =
        (Socket.log s ++
         [Socket.Emit (Socket.EvPacket p);
          Socket.ClearTimer Socket.PingTimeout;
          Socket.SetTimer Socket.PingTimeout
            (pingInterval (Socket.opts s) + pingTimeout (Socket.opts s))])%list)
        by (subst x; cbn; now rewrite <- !app_assoc).
      assert (G : forall y, stable x y -> exists l,
                Socket.log y =
                (Socket.log s ++
                 [Socket.Emit (Socket.EvPacket p);
                  Socket.ClearTimer Socket.PingTimeout;
                  Socket.SetTimer Socket.PingTimeout
                    (pingInterval (Socket.opts s)
                     + pingTimeout (Socket.opts s))]
                 ++ l)%list).
      { intros y [_ _ _ _ _ [l Hl] _ _ _ _]. exists l.
        rewrite Hl, L, <- app_assoc. reflexivity. }
      clearbody x.
      repeat destruct (String.eqb _ _); apply G;
        auto using stable_onClose, stable_schedulePing with stable.
    + intros E. unfold Socket.onPacket. rewrite O.
      destruct (String.eqb_spec (type p) "pong"); [reflexivity|].
      destruct (String.eqb_spec (type p) "error"); [congruence|].
      destruct (String.eqb (type p) "message"); reflexivity.
  - intros N T. unfold Socket.pingTimeoutExpires.
    destruct (Socket.pingTimeoutTimer s); [|congruence].
    set (x := Socket.set_pingTimeoutTimer None s).
    assert (Nx : Socket.readyState x <> Socket.Closed) by exact N.
    assert (Lx : Socket.log x = Socket.log s) by reflexivity.
    change (Socket.readyState x) with (Socket.readyState s).
    destruct (Socket.readyState s) eqn:R; try congruence;
      (split; [apply onClose_closed|]);
      destruct (onClose_emits "ping timeout" None x Nx) as (l1 & l2 & H);
      rewrite H; apply in_or_app; right; apply in_or_app; right; now left.
Qed.

End Heartbeat.

(** ** Opening (Socket.onOpen, Socket.getAvailableUpgrades, Server.upgrades) *)

Section Opening.

Variable pdc : Transport.t -> Transport.t * bool.

Lemma getAvailableUpgrades_offered s :
  Socket.getAvailableUpgrades s =
  offeredUpgrades (Socket.opts s) (Transport.kind (Socket.transport s)).
Proof.
  unfold Socket.getAvailableUpgrades, offeredUpgrades, upgrades,
    Transport.name, upgradeMap.
  destruct (allowUpgrades (Socket.opts s));
    destruct (Transport.kind (Socket.transport s)); reflexivity.
Qed.

Lemma truthy_stringify_obj fields :
  JS.truthy (JS.Str (Json.stringify (Json.Obj fields))) = true.
Proof. reflexivity. Qed.

(** Packets are accounted for: [flush] moves the write buffer to the
    transport and announces nothing. *)
Lemma flush_accounts s :
  created (Socket.log (Socket.flush pdc s)) = created (Socket.log s) /\
  (handedPackets (Socket.flush pdc s) ++ Socket.writeBuffer (Socket.flush pdc s))%list
  = (handedPackets s ++ Socket.writeBuffer s)%list.
Proof.
  destruct (flushes s) eqn:F; [|now rewrite flush_idle].
  destruct (flush_fires pdc s F) as (s1 & E & W & P & C & T & R & D & L).
  pose proof (quiet_closeTransports pdc (Socket.drainListeners s1) _ _
                (quiet_refl
                   (Socket.set_drainListeners []
                      (Socket.emit Socket.EvDrain s1))))
    as [Qh Qc Qw _ _ _].
  rewrite <- emitDrain_eq in Qh, Qc, Qw.
  unfold handedPackets. rewrite E.
  cbn [Socket.log Socket.record Socket.set_log Socket.writeBuffer].
  rewrite created_app, handed_app, Qh, Qc, Qw.
  cbn [Socket.log Socket.emit Socket.record Socket.set_log
       Socket.set_drainListeners Socket.writeBuffer].
  rewrite !created_app, !handed_app, L, created_app, handed_app, W.
  cbn. rewrite !app_nil_r, map_app, concat_app. cbn.
  now rewrite app_nil_r.
Qed.

(** Without a listener for "drain", [flush] neither closes the session nor
    leaves a listener behind. *)
Lemma flush_plain s :
  Socket.drainListeners s = [] ->
  Socket.readyState (Socket.flush pdc s) = Socket.readyState s /\
  Socket.drainListeners (Socket.flush pdc s) = [].
Proof.
  intros D0.
  destruct (flushes s) eqn:F; [|now rewrite flush_idle].
  destruct (flush_fires pdc s F) as (s1 & E & W & P & C & T & R & D & L).
  rewrite E, emitDrain_eq, D, D0. cbn. auto.
Qed.

Lemma sendPacket_accounts ty d o cb s :
  Socket.readyState s = Socket.Open ->
  Socket.drainListeners s = [] ->
  let s' := Socket.sendPacket pdc ty d o cb s in
  Socket.readyState s' = Socket.Open /\
  Socket.drainListeners s' = [] /\
  created (Socket.log s') = (created (Socket.log s) ++ [packetOf ty d o])%list /\
  (handedPackets s' ++ Socket.writeBuffer s')%list =
    ((handedPackets s ++ Socket.writeBuffer s) ++ [packetOf ty d o])%list.
Proof.
  intros O D. cbn zeta.
  rewrite sendPacket_accepted by auto.
  set (q := enqueue (packetOf ty d o) (callbackOf o cb) s).
  destruct (flush_plain q D) as [R D'].
  destruct (flush_accounts q) as [Cq Hq].
  rewrite R, D', Cq, Hq. subst q. unfold handedPackets. cbn.
  rewrite created_app, handed_app. cbn. rewrite app_nil_r, app_assoc.
  auto.
Qed.

Lemma onOpen_tail x :
  let y := Socket.schedulePing (Socket.emit Socket.EvOpen x) in
  Socket.readyState y = Socket.readyState x /\
  created (Socket.log y) = created (Socket.log x) /\
  handedPackets y = handedPackets x /\
  Socket.writeBuffer y = Socket.writeBuffer x.
Proof.
  unfold handedPackets. cbn.
  rewrite !handed_app, !created_app. cbn. now rewrite !app_nil_r.
Qed.

Lemma onOpen_accounts s :
  Socket.drainListeners s = [] ->
  let s' := Socket.onOpen pdc s in
  let o := Socket.opts s in
  let announced :=
    openPacket (Socket.id s) o (Transport.kind (Socket.transport s))
    :: (if JS.truthy (initialPacket o) then [initialMessage o] else []) in
  Socket.readyState s' = Socket.Open /\
  created (Socket.log s') = (created (Socket.log s) ++ announced)%list /\
  (handedPackets s' ++ Socket.writeBuffer s')%list =
    ((handedPackets s ++ Socket.writeBuffer s) ++ announced)%list.
Proof.
  intros D. cbn zeta. unfold Socket.onOpen.
  set (x0 := Socket.set_transport _ (Socket.set_readyState _ _)).
  assert (O0 : Socket.readyState x0 = Socket.Open) by reflexivity.
  assert (D0 : Socket.drainListeners x0 = []) by exact D.
  assert (L0 : Socket.log x0 = Socket.log s) by reflexivity.
  assert (W0 : Socket.writeBuffer x0 = Socket.writeBuffer s) by reflexivity.
  assert (P0 : Socket.opts x0 = Socket.opts s) by reflexivity.
  assert (I0 : Socket.id x0 = Socket.id s) by reflexivity.
  assert (K0 : Transport.kind (Socket.transport x0) =
               Transport.kind (Socket.transport s)) by reflexivity.
  assert (Pk : packetOf "open"
                 (JS.Str (Json.stringify (Socket.handshakeData x0)))
                 Socket.NoOptions =
               openPacket (Socket.id s) (Socket.opts s)
                 (Transport.kind (Socket.transport s))).
  { unfold Socket.handshakeData.
    rewrite getAvailableUpgrades_offered, P0, I0, K0.
    unfold packetOf, openPacket. now rewrite truthy_stringify_obj. }
  assert (H0 : handedPackets x0 = handedPackets s)
    by (unfold handedPackets; now rewrite L0).
  clearbody x0.
  destruct (sendPacket_accounts "open"
              (JS.Str (Json.stringify (Socket.handshakeData x0)))
              Socket.NoOptions None x0 O0 D0) as (O1 & D1 & C1 & H1).
  rewrite Pk, L0, W0, H0 in *.
  set (x1 := Socket.sendPacket pdc "open" _ _ _ x0) in *.
  assert (P1 : Socket.opts x1 = Socket.opts s)
    by (subst x1; now rewrite opts_sendPacket).
  clearbody x1. rewrite P1.
  destruct (JS.truthy (initialPacket (Socket.opts s))) eqn:T.
  - destruct (sendPacket_accounts "message" (initialPacket (Socket.opts s))
                Socket.NoOptions None x1 O1 D1) as (O2 & D2 & C2 & H2).
    assert (Pm : packetOf "message" (initialPacket (Socket.opts s))
                   Socket.NoOptions = initialMessage (Socket.opts s))
      by (unfold packetOf, initialMessage; now rewrite T).
    rewrite Pm in *.
    destruct (onOpen_tail
                (Socket.sendPacket pdc "message"
                   (initialPacket (Socket.opts s)) Socket.NoOptions None x1))
      as (Rt & Ct & Ht & Wt).
    rewrite Rt, Ct, Ht, Wt, C2, C1, H2, H1, <- !app_assoc.
    repeat split; assumption.
  - destruct (onOpen_tail x1) as (Rt & Ct & Ht & Wt).
    rewrite Rt, Ct, Ht, Wt, C1, H1.
    repeat split; assumption.
Qed.

(** C6: a new session enters the open state and announces the open packet:
    its data is the JSON text of [{sid, upgrades, pingInterval,
    pingTimeout}], where [upgrades] is the upgrade map of the transport
    (polling gives websocket, websocket gives nothing) cut down to
    [opts.transports], and empty when [allowUpgrades] is off.  When
    [opts.initialPacket] is set (truthy) a message packet carrying it is the
    next and last packet announced.  Both packets are, in this order, handed
    to the transport or waiting in the write buffer. *)
Theorem open_packet_on_entry i o tr :
  let s := Socket.create pdc i o tr in
  Socket.readyState s = Socket.Open /\
  created (Socket.log s) =
    openPacket i o (Transport.kind tr)
    :: (if JS.truthy (initialPacket o) then [initialMessage o] else []) /\
  (handedPackets s ++ Socket.writeBuffer s)%list = created (Socket.log s) /\
  offeredUpgrades o Transport.WebSocket = [] /\
  offeredUpgrades o Transport.Polling =
    (if allowUpgrades o && includes (transports o) "websocket"
     then ["websocket"] else []).
Proof.
  cbn zeta. unfold Socket.create.
  set (x := Socket.setTransport tr _).
  destruct (onOpen_accounts x eq_refl) as (R & C & H).
  change (Socket.opts x) with o in C, H.
  change (Socket.id x) with i in C, H.
  change (Transport.kind (Socket.transport x)) with (Transport.kind tr) in C, H.
  change (Socket.log x) with (@nil Socket.Effect) in C.
  change (handedPackets x) with (@nil Packet) in H.
  change (Socket.writeBuffer x) with (@nil Packet) in H.
  cbn [app] in C, H.
  rewrite R, C, H. repeat split.
  - unfold offeredUpgrades. now destruct (allowUpgrades o).
  - unfold offeredUpgrades. destruct (allowUpgrades o); cbn; auto.
    now destruct (includes (transports o) "websocket").
Qed.

End Opening.

(** ** Upgrading (Socket.maybeUpgrade) *)

Section Upgrading.

Variable pdc : Transport.t -> Transport.t * bool.

Lemma close_discarded x :
  Transport.discarded (fst (Transport.close pdc x)) = Transport.discarded x.
Proof.
  unfold Transport.close, Transport.doClose.
  destruct (Transport.readyState x); cbn; auto.
  destruct (Transport.kind x); reflexivity.
Qed.

Lemma close_listeners x :
  Transport.listeners (fst (Transport.close pdc x)) = Transport.listeners x.
Proof.
  unfold Transport.close, Transport.doClose.
  destruct (Transport.readyState x); cbn; auto.
  destruct (Transport.kind x); reflexivity.
Qed.

Lemma shiftCleanups_session s :
  Socket.cleanupFn s = sessionCleanups ->
  Transport.listeners (Socket.transport s) = sessionListeners ->
  Socket.shiftCleanups 2 s =
  Socket.set_cleanupFn []
    (Socket.set_transport
       (Transport.set_listeners [] (Socket.transport s)) s).
Proof.
  intros C L.
  destruct s as [? ? ? ? ? ? ? ? cf tr]; destruct tr as [? ? ? ? ? ? ls ? ?].
  cbn in C, L. subst cf ls. reflexivity.
Qed.

Lemma clearTransport_shape x :
  exists cf ls, Socket.clearTransport pdc x = cleared pdc cf ls x.
Proof.
  unfold Socket.clearTransport, cleared.
  destruct (shiftCleanups_shape (length (Socket.cleanupFn x)) x)
    as (cf & ls & E).
  exists cf, ls. rewrite E. cbn. rewrite close_tid. reflexivity.
Qed.

Lemma clearTransport_session x :
  Socket.cleanupFn x = sessionCleanups ->
  Transport.listeners (Socket.transport x) = sessionListeners ->
  Socket.clearTransport pdc x = cleared pdc [] [] x.
Proof.
  intros C L. unfold Socket.clearTransport, cleared.
  rewrite C. cbn [length sessionCleanups].
  rewrite (shiftCleanups_session x C L).
  cbn. rewrite close_tid. reflexivity.
Qed.

Lemma isProbe_not_upgrade p : isUpgrade p = true -> isProbe p = false.
Proof.
  unfold isProbe, isUpgrade. intros U.
  apply String.eqb_eq in U. now rewrite <- U.
Qed.

Lemma upgrade_commit_with cf ls s c p :
  Socket.candidate s = Some c ->
  Socket.readyState s <> Socket.Closed ->
  isUpgrade p = true ->
  Socket.clearTransport pdc
    (Socket.set_upgraded true
       (Socket.record (Socket.TDiscard (Transport.tid (Socket.transport s)))
          (Socket.set_transport (Transport.discard (Socket.transport s))
             (Socket.cleanup s)))) =
  cleared pdc cf ls
    (Socket.set_upgraded true
       (Socket.record (Socket.TDiscard (Transport.tid (Socket.transport s)))
          (Socket.set_transport (Transport.discard (Socket.transport s))
             (Socket.cleanup s)))) ->
  Socket.upgradeOnPacket pdc p s =
    match Socket.readyState (Socket.flush pdc (swapped pdc cf ls c s)) with
    | Socket.Closing =>
        Socket.closeTransport pdc false (Socket.flush pdc (swapped pdc cf ls c s))
    | _ => Socket.flush pdc (swapped pdc cf ls c s)
    end.
Proof.
  intros Hc Hr Hu E.
  pose proof (isProbe_not_upgrade p Hu) as Hp.
  unfold isProbe, isUpgrade in *.
  unfold Socket.upgradeOnPacket. rewrite Hc, Hp, Hu.
  replace (match Socket.readyState s with
           | Socket.Closed => false | _ => true end) with true
    by (destruct (Socket.readyState s); congruence).
  cbn [andb].
  set (xa := Socket.set_upgraded true _) in E.
  change (Socket.set_upgraded true
            (Socket.record
               (Socket.TDiscard
                  (Transport.tid (Socket.transport (Socket.cleanup s))))
               (Socket.set_transport
                  (Transport.discard (Socket.transport (Socket.cleanup s)))
                  (Socket.cleanup s)))) with xa.
  rewrite E. unfold swapped. cbn zeta. fold xa.
  set (cl := cleared pdc cf ls xa).
  assert (Hcand : Socket.candidate cl = Some (unlistened c))
    by (subst cl xa; cbn; now rewrite Hc).
  assert (Hret : Socket.retired cl = Socket.retired s) by reflexivity.
  clearbody cl. clear E. clearbody xa.
  rewrite Hret.
  set (xr := Socket.set_retired _ cl).
  assert (Hcand' : Socket.candidate xr = Some (unlistened c)) by exact Hcand.
  clearbody xr. rewrite Hcand'.
  reflexivity.
Qed.

Lemma swapped_fields cf ls c s :
  let old :=
    fst (Transport.close pdc
           (Transport.set_listeners (ls ++ [Transport.Silence])
              (Transport.discard (Socket.transport s)))) in
  let s2 := swapped pdc cf ls c s in
  Socket.checkIntervalTimer s2 = None /\
  Socket.upgradeTimeoutTimer s2 = None /\
  Socket.retired s2 = (Socket.retired s ++ [old])%list /\
  Transport.tid old = Transport.tid (Socket.transport s) /\
  Transport.discarded old = true /\
  Transport.listeners old = (ls ++ [Transport.Silence])%list /\
  Socket.upgraded s2 = true /\
  Socket.upgrading s2 = false /\
  Socket.candidate s2 = None /\
  Transport.tid (Socket.transport s2) = Transport.tid c /\
  Transport.kind (Socket.transport s2) = Transport.kind c /\
  Transport.listeners (Socket.transport s2) =
    (Transport.listeners (unlistened c) ++ sessionListeners)%list /\
  Socket.pingIntervalTimer s2 = Some (pingInterval (Socket.opts s)) /\
  Socket.writeBuffer s2 = Socket.writeBuffer s /\
  Socket.readyState s2 = Socket.readyState s /\
  Socket.log s2 =
    (Socket.log s ++
     [Socket.ClearTimer Socket.CheckInterval;
      Socket.ClearTimer Socket.UpgradeTimeout;
      Socket.TDiscard (Transport.tid (Socket.transport s));
      Socket.TClose (Transport.tid (Socket.transport s)) false;
      Socket.ClearTimer Socket.PingTimeout;
      Socket.Emit (Socket.EvUpgrade (Transport.tid c));
      Socket.ClearTimer Socket.PingInterval;
      Socket.SetTimer Socket.PingInterval (pingInterval (Socket.opts s))])%list.
Proof.
  cbn zeta. unfold swapped, cleared.
  cbn [Socket.checkIntervalTimer Socket.upgradeTimeoutTimer Socket.retired
       Socket.upgraded Socket.upgrading Socket.candidate Socket.transport
       Socket.pingIntervalTimer Socket.writeBuffer Socket.readyState
       Socket.log Socket.opts
       Socket.schedulePing Socket.emit Socket.record Socket.armTimer
       Socket.clearTimer Socket.set_timer Socket.cleanup
       Socket.setTransport Socket.setupSendCallback
       Socket.set_log Socket.set_candidate Socket.set_retired
       Socket.set_transport Socket.set_cleanupFn Socket.set_upgraded
       Socket.set_upgrading Socket.set_closeListener
       Socket.set_pingIntervalTimer Socket.set_pingTimeoutTimer
       Socket.set_checkIntervalTimer Socket.set_upgradeTimeoutTimer
       Transport.on Transport.tid Transport.kind Transport.listeners
       Transport.set_listeners Transport.discard Transport.set_discarded].
  rewrite close_tid, close_discarded, close_listeners.
  cbn [Transport.tid Transport.discarded Transport.listeners
       Transport.set_listeners].
  rewrite <- !app_assoc. cbn [app].
  repeat split; reflexivity.
Qed.

Lemma stable_settled s x : stable s x -> stable s (settled pdc x).
Proof.
  intros H. unfold settled.
  destruct (Socket.readyState x); auto using stable_closeTransport.
Qed.

Lemma unlistened_upgradeListeners c :
  Transport.listeners c = upgradeListeners ->
  Transport.listeners (unlistened c) = [].
Proof.
  intros L. unfold unlistened, Transport.removeListener.
  cbn [Transport.listeners Transport.set_listeners]. now rewrite L.
Qed.

Lemma flush_hands x :
  handed (Socket.log (Socket.flush pdc x)) =
    (handed (Socket.log x) ++
     if flushes x
     then [(Transport.tid (Socket.transport x), Socket.writeBuffer x)]
     else [])%list /\
  Socket.writeBuffer (Socket.flush pdc x) =
    (if flushes x then [] else Socket.writeBuffer x).
Proof.
  destruct (flushes x) eqn:F.
  - destruct (flush_fires pdc x F) as (s1 & E & W & _ & _ & _ & _ & _ & L).
    set (base := Socket.set_drainListeners [] (Socket.emit Socket.EvDrain s1)).
    assert (Q : quiet base
              (fold_left (fun y d => Socket.closeTransport pdc d y)
                 (Socket.drainListeners s1) base))
      by apply quiet_closeTransports, quiet_refl.
    destruct Q as [Qh _ Qw _ _ _].
    rewrite E, emitDrain_eq. fold base.
    cbn [Socket.log Socket.record Socket.set_log Socket.writeBuffer].
    rewrite handed_app, Qh, Qw. subst base.
    cbn [Socket.log Socket.emit Socket.record Socket.set_log
         Socket.set_drainListeners Socket.writeBuffer].
    rewrite !handed_app, L, handed_app. cbn [handed]. rewrite !app_nil_r.
    split; [reflexivity|exact W].
  - rewrite (flush_idle pdc x F), app_nil_r. split; reflexivity.
Qed.

Lemma swapped_writable cf ls c s :
  Transport.writable (Socket.transport (swapped pdc cf ls c s)) =
  Transport.writable c.
Proof. reflexivity. Qed.

Lemma quiet_settled x : quiet x (settled pdc x).
Proof.
  unfold settled.
  destruct (Socket.readyState x); auto using quiet_closeTransport, quiet_refl.
Qed.

(** C1: the "packet" handler that [maybeUpgrade] puts on the candidate
    transport [c], for a session that is not closed.

    A ping with data "probe": a pong with data "probe" is sent on [c],
    "upgrading" is emitted with [c], and the check interval is armed with
    100 ms; each tick of it sends a noop packet on the session's transport
    when that transport is named "polling" and is writable, and does
    nothing otherwise.

    An upgrade packet: the check interval and the upgrade timeout are
    cleared, the old transport is discarded, cleared (its session listeners
    are removed, it is closed) and dropped, [upgraded] is true and
    [upgrading] false, [c] is the session's transport with the session's
    listeners, "upgrade" is emitted with [c], the ping interval is armed
    anew, [flush] runs, and when the session is closing after that, [c] is
    closed with the "forced close" callback.  The flush hands the packets
    that were waiting in the write buffer to [c]: when [c] is writable, the
    whole buffer goes to [c.send] in one call and the buffer is empty
    afterwards; when [c] is not writable, nothing is handed over and the
    buffer stays as it was.

    Any other packet: the upgrade marks are taken down and [c] is closed;
    the session keeps its transport and state. *)
Theorem upgrade_handler s c p :
  Socket.candidate s = Some c ->
  Socket.readyState s <> Socket.Closed ->
  let s' := Socket.upgradeOnPacket pdc p s in
  (Transport.listeners c = upgradeListeners ->
   Socket.candidateEmit pdc (Socket.TPacket p) s = s') /\
  if isProbe p then
    Socket.candidate s' = Some (Transport.send [pong_probe] c) /\
    Socket.log s' =
      (Socket.log s ++
       [Socket.TSend (Transport.tid c) [pong_probe];
        Socket.Emit (Socket.EvUpgrading (Transport.tid c));
        Socket.ClearTimer Socket.CheckInterval;
        Socket.SetTimer Socket.CheckInterval 100])%list /\
    Socket.checkIntervalTimer s' = Some 100 /\
    Socket.transport s' = Socket.transport s /\
    Socket.checkIntervalTick s' =
      (if String.eqb "polling" (Transport.name (Socket.transport s))
          && Transport.writable (Socket.transport s)
       then Socket.transportSend [noop_packet] s'
       else s') /\
    Socket.log (Socket.transportSend [noop_packet] s') =
      (Socket.log s' ++
       [Socket.TSend (Transport.tid (Socket.transport s)) [noop_packet]])%list
  else if isUpgrade p then
    (exists cf ls, s' = settled pdc (Socket.flush pdc (swapped pdc cf ls c s))) /\
    (Socket.cleanupFn s = sessionCleanups ->
     Transport.listeners (Socket.transport s) = sessionListeners ->
     Transport.listeners c = upgradeListeners ->
     s' = settled pdc (Socket.flush pdc (swapped pdc [] [] c s)) /\
     Transport.listeners (Socket.transport (swapped pdc [] [] c s)) =
       sessionListeners) /\
    (forall cf ls,
       let old :=
         fst (Transport.close pdc
                (Transport.set_listeners (ls ++ [Transport.Silence])
                   (Transport.discard (Socket.transport s)))) in
       let s2 := swapped pdc cf ls c s in
       Socket.checkIntervalTimer s2 = None /\
       Socket.upgradeTimeoutTimer s2 = None /\
       Socket.retired s2 = (Socket.retired s ++ [old])%list /\
       Transport.tid old = Transport.tid (Socket.transport s) /\
       Transport.discarded old = true /\
       Transport.listeners old = (ls ++ [Transport.Silence])%list /\
       Socket.upgraded s2 = true /\
       Socket.upgrading s2 = false /\
       Socket.candidate s2 = None /\
       Transport.tid (Socket.transport s2) = Transport.tid c /\
       Transport.kind (Socket.transport s2) = Transport.kind c /\
       Transport.listeners (Socket.transport s2) =
         (Transport.listeners (unlistened c) ++ sessionListeners)%list /\
       Socket.pingIntervalTimer s2 = Some (pingInterval (Socket.opts s)) /\
       Socket.writeBuffer s2 = Socket.writeBuffer s /\
       Socket.readyState s2 = Socket.readyState s /\
       Socket.log s2 =
         (Socket.log s ++
          [Socket.ClearTimer Socket.CheckInterval;
           Socket.ClearTimer Socket.UpgradeTimeout;
           Socket.TDiscard (Transport.tid (Socket.transport s));
           Socket.TClose (Transport.tid (Socket.transport s)) false;
           Socket.ClearTimer Socket.PingTimeout;
           Socket.Emit (Socket.EvUpgrade (Transport.tid c));
           Socket.ClearTimer Socket.PingInterval;
           Socket.SetTimer Socket.PingInterval
             (pingInterval (Socket.opts s))])%list /\
       match Socket.readyState (Socket.flush pdc s2) with
       | Socket.Closing =>
           In (Socket.TClose (Transport.tid c) true)
             (Socket.log (settled pdc (Socket.flush pdc s2)))
       | _ => settled pdc (Socket.flush pdc s2) = Socket.flush pdc s2
       end) /\
    Socket.upgraded s' = true /\
    Socket.upgrading s' = false /\
    Transport.tid (Socket.transport s') = Transport.tid c /\
    Socket.checkIntervalTimer s' = None /\
    Socket.upgradeTimeoutTimer s' = None /\
    Socket.writeBuffer s' =
      (if Transport.writable c then [] else Socket.writeBuffer s) /\
    handed (Socket.log s') =
      (handed (Socket.log s) ++
       if Transport.writable c
          && match Socket.writeBuffer s with [] => false | _ => true end
       then [(Transport.tid c, Socket.writeBuffer s)]
       else [])%list
  else
    s' = Socket.closeCandidate pdc (Socket.cleanup s) /\
    Socket.transport s' = Socket.transport s /\
    Socket.readyState s' = Socket.readyState s /\
    Socket.writeBuffer s' = Socket.writeBuffer s /\
    Socket.upgraded s' = Socket.upgraded s /\
    Socket.upgrading s' = false /\
    Socket.candidate s' = None /\
    Socket.retired s' =
      (Socket.retired s ++ [fst (Transport.close pdc (unlistened c))])%list /\
    Socket.log s' =
      (Socket.log s ++
       [Socket.ClearTimer Socket.CheckInterval;
        Socket.ClearTimer Socket.UpgradeTimeout;
        Socket.TClose (Transport.tid c) false])%list.
Proof.
  intros Hc Hr. cbn zeta. split.
  { intros L. unfold Socket.candidateEmit. rewrite Hc, L. reflexivity. }
  destruct (isProbe p) eqn:Pp.
  - unfold Socket.upgradeOnPacket. unfold isProbe in Pp. rewrite Hc, Pp.
    cbn. rewrite <- !app_assoc. repeat split.
  - destruct (isUpgrade p) eqn:Pu.
    + assert (E : exists cf ls,
                Socket.upgradeOnPacket pdc p s =
                settled pdc (Socket.flush pdc (swapped pdc cf ls c s))).
      { destruct (clearTransport_shape
                    (Socket.set_upgraded true
                       (Socket.record
                          (Socket.TDiscard (Transport.tid (Socket.transport s)))
                          (Socket.set_transport
                             (Transport.discard (Socket.transport s))
                             (Socket.cleanup s))))) as (cf & ls & E).
        exists cf, ls. now apply upgrade_commit_with. }
      split; [exact E|]. split; [|split].
      * intros C L Lc. split.
        -- apply upgrade_commit_with; auto.
           apply clearTransport_session; [exact C | exact L].
        -- destruct (swapped_fields [] [] c s)
             as (_ & _ & _ & _ & _ & _ & _ & _ & _ & _ & _ & Ll & _).
           rewrite Ll, (unlistened_upgradeListeners c Lc). reflexivity.
      * intros cf ls. cbn zeta.
        pose proof (swapped_fields cf ls c s) as F. cbn zeta in F.
        destruct F as (F1 & F2 & F3 & F4 & F5 & F6 & F7 & F8 & F9 & F10
                       & F11 & F12 & F13 & F14 & F15 & F16).
        repeat (split; [assumption|]).
        unfold settled.
        destruct (Socket.readyState (Socket.flush pdc (swapped pdc cf ls c s)))
          eqn:R; try reflexivity.
        destruct (closeTransport_log pdc false
                    (Socket.flush pdc (swapped pdc cf ls c s))) as [l Hl].
        rewrite Hl.
        rewrite (st_tid _ _ (stable_flush pdc _ _
                               (stable_refl (swapped pdc cf ls c s)))), F10.
        apply in_or_app; right. now left.
      * destruct E as (cf & ls & ->).
        pose proof (swapped_fields cf ls c s) as F. cbn zeta in F.
        destruct F as (F1 & F2 & F3 & F4 & F5 & F6 & F7 & F8 & F9 & F10
                       & F11 & F12 & F13 & F14 & F15 & F16).
        pose proof (stable_settled _ _
                      (stable_flush pdc _ _
                         (stable_refl (swapped pdc cf ls c s)))) as S.
        destruct S as [_ _ Su St _ _ _ Sg Sc Sp].
        rewrite Su, St, F7, F10.
        destruct (quiet_settled (Socket.flush pdc (swapped pdc cf ls c s)))
          as [Qh _ Qw _ _ _].
        destruct (flush_hands (swapped pdc cf ls c s)) as [Fh Fw].
        assert (Ff : flushes (swapped pdc cf ls c s) =
                     Transport.writable c
                     && match Socket.writeBuffer s with
                        | [] => false
                        | _ => true
                        end).
        { unfold flushes. rewrite F14, F15, swapped_writable.
          destruct (Socket.readyState s); try reflexivity. congruence. }
        rewrite Qh, Qw, Fh, Fw, Ff, F10, F14, F16, handed_app.
        cbn [handed]. rewrite app_nil_r.
        repeat split.
        -- destruct Sg as [Sg|Sg]; congruence.
        -- destruct Sc as [Sc|Sc]; congruence.
        -- destruct Sp as [Sp|Sp]; congruence.
        -- destruct (Transport.writable c), (Socket.writeBuffer s);
             reflexivity.
    + unfold Socket.upgradeOnPacket. unfold isProbe, isUpgrade in *.
      rewrite Hc, Pp, Pu. cbn [andb].
      assert (Hcand : Socket.candidate (Socket.cleanup s) =
                      Some (unlistened c))
        by (cbn; now rewrite Hc).
      unfold Socket.closeCandidate. rewrite Hcand.
      cbn. rewrite <- !app_assoc. repeat split.
Qed.

Lemma emitClose_gives_up r d x c :
  Socket.closeListener x = true ->
  Socket.candidate x = Some c ->
  Socket.candidate (Socket.emitClose pdc r d (Socket.clearTransport pdc x))
  = None.
Proof.
  intros Hl Hc.
  destruct (clearTransport_shape x) as (cf & ls & E).
  rewrite E. unfold Socket.emitClose, cleared. cbn. rewrite Hl.
  unfold Socket.upgradeOnError, Socket.closeCandidate. cbn.
  rewrite Hc. reflexivity.
Qed.

(** Why the handler is only considered on a session that is not closed:
    [maybeUpgrade] listens for the session's "close", and a session that
    closes while an upgrade is under way gives its candidate up, listeners
    and all. *)
Lemma close_ends_upgrade r d s tr :
  Socket.readyState s <> Socket.Closed ->
  Socket.closeListener (Socket.maybeUpgrade tr s) = true /\
  Socket.candidate (Socket.onClose pdc r d (Socket.maybeUpgrade tr s)) = None.
Proof.
  intros N. split; [reflexivity|].
  unfold Socket.onClose.
  destruct (Socket.readyState (Socket.maybeUpgrade tr s)) eqn:R;
    try (exfalso; apply N; exact R);
    eapply emitClose_gives_up; reflexivity.
Qed.

End Upgrading.

(** ** Verifying requests (Server.verify, checkInvalidHeaderChar) *)

Lemma validHdrChars_fieldVchar c :
  match nth_error Server.validHdrChars (nat_of_ascii c) with
  | Some (S _) => false
  | _ => true
  end = negb (fieldVchar c).
Proof. destruct c as [[] [] [] [] [] [] [] []]; reflexivity. Qed.

Lemma invalidAt_head c r :
  Server.invalidAt (String c r) 0 = negb (fieldVchar c).
Proof. unfold Server.invalidAt. cbn [String.get]. apply validHdrChars_fieldVchar. Qed.

Lemma invalidAt_tail c r i :
  Server.invalidAt (String c r) (S i) = Server.invalidAt r i.
Proof. reflexivity. Qed.

Lemma invalidFrom_tail n : forall c r i,
  Server.invalidFrom n (S i) (String c r) = Server.invalidFrom n i r.
Proof.
  induction n as [|n IH]; intros c r i; cbn [Server.invalidFrom]; auto.
  now rewrite invalidAt_tail, IH.
Qed.

Lemma invalidFrom_all r :
  Server.invalidFrom (String.length r) 0 r =
  existsb (fun c => negb (fieldVchar c)) (list_ascii_of_string r).
Proof.
  induction r as [|c r IH]; cbn [String.length Server.invalidFrom
                                 list_ascii_of_string existsb]; auto.
  now rewrite invalidAt_head, invalidFrom_tail, IH.
Qed.

(** The unrolled scan of the header finds exactly the invalid characters. *)
Lemma checkInvalidHeaderChar_invalidOrigin v :
  Server.checkInvalidHeaderChar v = invalidOrigin v.
Proof.
  destruct v as [x|]; [|reflexivity].
  unfold Server.checkInvalidHeaderChar, invalidOrigin.
  destruct x as [|c0 [|c1 [|c2 [|c3 r]]]];
    cbn [String.length Nat.ltb Nat.leb list_ascii_of_string existsb];
    rewrite ?invalidAt_tail, ?invalidAt_head;
    try (repeat destruct (negb (fieldVchar _)); reflexivity).
  cbn [Nat.sub]. rewrite Nat.sub_0_r, !invalidFrom_tail, invalidFrom_all.
  repeat destruct (negb (fieldVchar _)); reflexivity.
Qed.

(** C4: [verify] answers as the rules say, in their order: a transport
    outside [opts.transports] gives UNKNOWN_TRANSPORT (0); else an Origin
    header with an invalid field-vchar gives BAD_REQUEST (3); else, with a
    sid, a sid that is not in the client table gives UNKNOWN_SID (1) and,
    unless the request is an upgrade, a session on another transport than
    the one asked for gives BAD_REQUEST (3); without a sid, a method other
    than GET gives BAD_HANDSHAKE_METHOD (2) and otherwise [allowRequest],
    when set, decides; a request that fails no rule is accepted.  The
    request itself is left as it was, except that an invalid Origin header
    is removed. *)
Theorem verify_follows_rules srv req upgrade :
  snd (Server.verify srv req upgrade) = verifyRules srv req upgrade /\
  Server.UNKNOWN_TRANSPORT = 0 /\ Server.UNKNOWN_SID = 1 /\
  Server.BAD_HANDSHAKE_METHOD = 2 /\ Server.BAD_REQUEST = 3 /\
  (if invalidOrigin (Http.origin req)
      && match Http.q_transport (Http.query req) with
         | Some name => includes (transports (Server.opts srv)) name
         | None => false
         end
   then Http.origin (fst (Server.verify srv req upgrade)) = None
   else fst (Server.verify srv req upgrade) = req).
Proof.
  unfold Server.verify, verifyRules.
  rewrite checkInvalidHeaderChar_invalidOrigin.
  rewrite (String.eqb_sym "GET").
  destruct (Http.q_transport (Http.query req)) as [name|]; cbn [negb];
    [|rewrite andb_false_r; repeat split].
  destruct (includes (transports (Server.opts srv)) name); cbn [negb];
    [|rewrite andb_false_r; repeat split].
  destruct (invalidOrigin (Http.origin req)); cbn [andb];
    [repeat split|].
  destruct (Server.given (Http.q_sid (Http.query req))) as [sid|].
  - destruct (Server.clients srv !! sid) as [session|]; [|repeat split].
    destruct (negb upgrade && _); repeat split.
  - destruct (negb (String.eqb (Http.method req) "GET")); [repeat split|].
    destruct (allowRequest (Server.opts srv)); repeat split.
Qed.

(** ** Error responses (sendErrorMessage, Server.errors, Server.errorMessages) *)

Lemma to_int_proper z : Z.to_int z <> Decimal.Pos Decimal.Nil /\
                        Z.to_int z <> Decimal.Neg Decimal.Nil.
Proof.
  destruct z; cbn; split; try discriminate;
    intros [= H]; now apply DecimalPos.Unsigned.to_uint_nonnil in H.
Qed.

Lemma string_of_Z_inj a b : JS.string_of_Z a = JS.string_of_Z b -> a = b.
Proof.
  unfold JS.string_of_Z. intros H.
  destruct (to_int_proper a) as [A1 A2], (to_int_proper b) as [B1 B2].
  pose proof (NilZero.isi _ A1 A2) as Ia.
  pose proof (NilZero.isi _ B1 B2) as Ib.
  rewrite H, Ib in Ia. injection Ia as Ia.
  rewrite <- (DecimalZ.of_to a), <- (DecimalZ.of_to b). now rewrite Ia.
Qed.

(** The table of messages holds exactly the keys "0" to "4". *)
Lemma lookup_key_codes k m :
  Server.lookup_key k Server.errorMessages = Some m <->
  exists n, 0 <= n <= 4 /\ k = JS.string_of_Z n /\ messageOf n = Some m.
Proof.
  split.
  - cbn [Server.errorMessages Server.lookup_key].
    destruct (String.eqb_spec k "0") as [->|_];
      [intros [= <-]; exists 0; repeat split; lia|].
    destruct (String.eqb_spec k "1") as [->|_];
      [intros [= <-]; exists 1; repeat split; lia|].
    destruct (String.eqb_spec k "2") as [->|_];
      [intros [= <-]; exists 2; repeat split; lia|].
    destruct (String.eqb_spec k "3") as [->|_];
      [intros [= <-]; exists 3; repeat split; lia|].
    destruct (String.eqb_spec k "4") as [->|_];
      [intros [= <-]; exists 4; repeat split; lia|].
    discriminate.
  - intros (n & B & -> & M).
    assert (C : n = 0 \/ n = 1 \/ n = 2 \/ n = 3 \/ n = 4) by lia.
    destruct C as [->|[->|[->|[->| ->]]]]; exact M.
Qed.

Lemma messageOf_codes n : messageOf n <> None <-> 0 <= n <= 4.
Proof.
  unfold messageOf.
  repeat match goal with
         | |- context [Z.eqb n ?k] => destruct (Z.eqb_spec n k)
         end; split; try lia; try congruence; intros; discriminate.
Qed.

Lemma errorMessages_codes n :
  Server.errorMessage (JS.Num n) = messageOf n.
Proof.
  unfold Server.errorMessage. cbn [JS.to_key].
  destruct (messageOf n) as [m|] eqn:M.
  - apply lookup_key_codes. exists n.
    split; [apply messageOf_codes; congruence|]. split; [reflexivity|exact M].
  - destruct (Server.lookup_key _ _) as [m|] eqn:L; [|reflexivity].
    apply lookup_key_codes in L as (k & _ & E & K).
    apply string_of_Z_inj in E. subst k. congruence.
Qed.

Section ErrorResponses.

Variable pdc : Transport.t -> Transport.t * bool.
Variable por : Http.Request -> Socket.t -> Socket.t.

(** C5, as the code has it: a request that [verify] turns down is answered
    with [sendErrorMessage] on the value [verify] gave, whatever that value
    is.  When the value is a key of [Server.errorMessages], the answer has
    status 400 and the JSON body [{code, message}] with the value itself as
    code and the message listed for it.  The keys are the texts "0" to "4":
    so the numbers 0 to 4, the code FORBIDDEN (4) among them, and also a
    string or a Buffer that holds such a text.  For every other value the
    answer has status 403 and carries the code FORBIDDEN: a value that is
    truthy is passed on as the message (an unlisted number, true, a custom
    text), and undefined, null, false and the empty string give the message
    "Forbidden". *)
Theorem error_response req generated i srv n text code bytes :
  (snd (Server.verify srv
          {| Http.method := Http.method req; Http.query := Http.query req;
             Http.origin := Http.origin req;
             Http.websocket := Http.websocket req; Http.res := true |}
          false) = (code, false) ->
   snd (Server.handleRequest pdc por req generated i srv) =
   Some (Server.sendErrorMessage
           (fst (Server.verify srv
                   {| Http.method := Http.method req;
                      Http.query := Http.query req;
                      Http.origin := Http.origin req;
                      Http.websocket := Http.websocket req;
                      Http.res := true |} false))
           true code)) /\
  Server.sendErrorMessage req true (JS.Num n) =
    match messageOf n with
    | Some m =>
        errorResponse 400 (jsonHeader ++ corsHeaders req) (Json.Num n)
          (Json.Str m)
    | None =>
        errorResponse 403 jsonHeader (Json.Num Server.FORBIDDEN) (Json.Num n)
    end /\
  (messageOf n <> None <-> 0 <= n <= 4) /\
  Server.sendErrorMessage req true JS.Null =
    errorResponse 403 jsonHeader (Json.Num Server.FORBIDDEN)
      (Json.Str "Forbidden") /\
  (Server.hasOwnProperty (JS.Str text) = false ->
   JS.truthy (JS.Str text) = true ->
   Server.sendErrorMessage req true (JS.Str text) =
     errorResponse 403 jsonHeader (Json.Num Server.FORBIDDEN) (Json.Str text)) /\
  Server.sendErrorMessage req true code =
    match Server.errorMessage code with
    | Some m =>
        Server.Wrote
          {| Http.status := 400;
             Http.headers := (jsonHeader ++ corsHeaders req)%list;
             Http.body :=
               Json.stringify
                 (Json.Obj
                    (Server.field "code" code
                     ++ [("message", Json.Str m)])%list) |}
    | None =>
        Server.Wrote
          {| Http.status := 403;
             Http.headers := jsonHeader;
             Http.body :=
               Json.stringify
                 (Json.Obj
                    (("code", Json.Num Server.FORBIDDEN)
                     :: Server.field "message"
                          (if JS.truthy code then code
                           else JS.Str "Forbidden"))) |}
    end /\
  (forall m,
     Server.errorMessage code = Some m <->
     exists k,
       0 <= k <= 4 /\ JS.to_key code = Some (JS.string_of_Z k) /\
       messageOf k = Some m) /\
  (Server.hasOwnProperty code = true <-> Server.errorMessage code <> None) /\
  Server.sendErrorMessage req true JS.Undefined =
    errorResponse 403 jsonHeader (Json.Num Server.FORBIDDEN)
      (Json.Str "Forbidden") /\
  Server.sendErrorMessage req true (JS.Bool false) =
    errorResponse 403 jsonHeader (Json.Num Server.FORBIDDEN)
      (Json.Str "Forbidden") /\
  Server.sendErrorMessage req true (JS.Str "") =
    errorResponse 403 jsonHeader (Json.Num Server.FORBIDDEN)
      (Json.Str "Forbidden") /\
  Server.sendErrorMessage req true (JS.Bool true) =
    errorResponse 403 jsonHeader (Json.Num Server.FORBIDDEN)
      (Json.Bool true) /\
  (forall m,
     messageOf n = Some m ->
     Server.sendErrorMessage req true (JS.Str (JS.string_of_Z n)) =
       errorResponse 400 (jsonHeader ++ corsHeaders req)
         (Json.Str (JS.string_of_Z n)) (Json.Str m)) /\
  (JS.utf8_text bytes = Some text ->
   Server.errorMessage (JS.Buffer bytes) = Server.errorMessage (JS.Str text)) /\
  (JS.utf8_text bytes = None -> Server.errorMessage (JS.Buffer bytes) = None).
Proof.
  assert (G : forall rq c,
    Server.sendErrorMessage rq true c =
    match Server.errorMessage c with
    | Some m =>
        Server.Wrote
          {| Http.status := 400;
             Http.headers := (jsonHeader ++ corsHeaders rq)%list;
             Http.body :=
               Json.stringify
                 (Json.Obj
                    (Server.field "code" c ++ [("message", Json.Str m)])%list) |}
    | None =>
        Server.Wrote
          {| Http.status := 403;
             Http.headers := jsonHeader;
             Http.body :=
               Json.stringify
                 (Json.Obj
                    (("code", Json.Num Server.FORBIDDEN)
                     :: Server.field "message"
                          (if JS.truthy c then c else JS.Str "Forbidden"))) |}
    end).
  { intros rq c. unfold Server.sendErrorMessage, Server.hasOwnProperty.
    destruct (Server.errorMessage c) as [m|]; cbn [negb]; [|reflexivity].
    unfold jsonHeader, corsHeaders.
    destruct (Server.given (Http.origin rq)); reflexivity. }
  split; [|split; [|split; [|split; [|split; [|split; [|split; [|split]]]]]]].
  - intros V. unfold Server.handleRequest.
    destruct (Server.verify srv _ false) as [req' [err ok]] eqn:E.
    cbn in V. injection V as -> ->. reflexivity.
  - rewrite G, errorMessages_codes.
    destruct (messageOf n) as [m|] eqn:M; [reflexivity|].
    assert (N : n <> 0) by (intros ->; discriminate M).
    cbn [JS.truthy]. destruct (Z.eqb_spec n 0) as [|_]; [contradiction|].
    reflexivity.
  - apply messageOf_codes.
  - reflexivity.
  - intros K T. rewrite G. unfold Server.hasOwnProperty in K.
    destruct (Server.errorMessage (JS.Str text)); [discriminate|].
    rewrite T. reflexivity.
  - apply G.
  - intros m. unfold Server.errorMessage.
    destruct (JS.to_key code) as [k|].
    + rewrite lookup_key_codes. split; intros (x & B & E & M); exists x;
        (split; [exact B|]); (split; [congruence|exact M]).
    + split; [discriminate|]. intros (x & _ & E & _). discriminate E.
  - unfold Server.hasOwnProperty.
    destruct (Server.errorMessage code); split; congruence.
  - repeat split; try reflexivity.
    + intros m M. rewrite G.
      assert (E : Server.errorMessage (JS.Str (JS.string_of_Z n)) = Some m).
      { unfold Server.errorMessage. cbn [JS.to_key].
        apply lookup_key_codes. exists n.
        split; [apply messageOf_codes; congruence|].
        split; [reflexivity|exact M]. }
      rewrite E. reflexivity.
    + intros T. unfold Server.errorMessage. cbn [JS.to_key]. now rewrite T.
    + intros T. unfold Server.errorMessage. cbn [JS.to_key]. now rewrite T.
Qed.

End ErrorResponses.

(** C5 as it is worded fails on the code FORBIDDEN itself: a handshake that
    [allowRequest] turns down with the code 4 is answered with status 400,
    not 403. *)
Lemma forbidden_code_answered_400 :
  exists r,
    snd (Server.handleRequest laterPoll idlePoll handshakeRequest None 0
           forbiddingServer)
      = Some (Server.Wrote r) /\
    Http.status r = 400 /\
    Http.status r <> 403 /\
    Http.body r =
      Json.stringify
        (Json.Obj [("code", Json.Num Server.FORBIDDEN);
                   ("message", Json.Str "Forbidden")]).
Proof.
  eexists. split; [reflexivity|]. cbn. repeat split. discriminate.
Qed.

(** ** The client table (Server.handshake, Server.clients, Server.clientsCount) *)

Section ClientTable.

Variable pdc : Transport.t -> Transport.t * bool.
Variable por : Http.Request -> Socket.t -> Socket.t.

Lemma includes_In l x : includes l x = true <-> In x l.
Proof.
  unfold includes. rewrite existsb_exists. split.
  - intros (y & Hy & E). apply String.eqb_eq in E. now subst.
  - intros H. exists x. split; [exact H | apply String.eqb_refl].
Qed.

Lemma remove_one_In id l x :
  In x (Server.remove_one id l) -> In x l.
Proof.
  induction l as [|h r IH]; cbn; auto.
  destruct (String.eqb h id); cbn; intuition.
Qed.

Lemma remove_one_NoDup id l :
  List.NoDup l ->
  List.NoDup (Server.remove_one id l) /\ ~ In id (Server.remove_one id l).
Proof.
  induction 1 as [|h r Hh Hr IH]; cbn.
  - split; [constructor | tauto].
  - destruct (String.eqb_spec h id) as [->|N].
    + split; assumption.
    + destruct IH as [IH1 IH2]. split.
      * constructor; [|exact IH1]. intros H. now apply remove_one_In in H.
      * intros [E|H]; [congruence | contradiction].
Qed.

Lemma NoDup_snoc (l : list string) x :
  List.NoDup l -> ~ In x l -> List.NoDup (l ++ [x]).
Proof.
  induction 1 as [|h r Hh Hr IH]; cbn; intros Hx.
  - constructor; [tauto | constructor].
  - constructor.
    + intros Hin. apply in_app_or in Hin as [Hin|[->|[]]]; tauto.
    + apply IH. tauto.
Qed.

Lemma consistent_create o : consistent (Server.create o).
Proof.
  split; [|split].
  - change (Server.clients (Server.create o)) with (∅ : gmap string Socket.t).
    now rewrite map_size_empty.
  - intros id [].
  - constructor.
Qed.

Lemma consistent_sessionStep id f srv :
  consistent srv -> consistent (Server.sessionStep id f srv).
Proof.
  intros (C & H & N). unfold Server.sessionStep.
  destruct (Server.clients srv !! id) as [s|] eqn:E; [|repeat split; auto].
  cbn [Server.closeHandlers Server.set_clients].
  destruct (Server.closedNow s (f s) && includes (Server.closeHandlers srv) id)
    eqn:B.
  - apply andb_true_iff in B as [_ B]. apply includes_In in B.
    destruct (remove_one_NoDup id _ N) as [N1 N2].
    repeat split; cbn.
    + rewrite map_size_delete_Some, map_size_insert_Some, C
        by (rewrite ?lookup_insert_eq; eauto).
      assert (0 < size (Server.clients srv))%nat.
      { destruct (decide (size (Server.clients srv) = 0%nat)) as [Z|]; [|lia].
        apply map_size_empty_inv in Z. rewrite Z in E. discriminate. }
      lia.
    + intros x Hx.
      assert (x <> id) by (intros ->; contradiction).
      rewrite lookup_delete_ne, lookup_insert_ne by congruence.
      apply H. eapply remove_one_In, Hx.
    + exact N1.
  - repeat split; cbn.
    + rewrite map_size_insert_Some by eauto. exact C.
    + intros x Hx. destruct (decide (id = x)) as [->|Ne].
      * rewrite lookup_insert_eq. eauto.
      * rewrite lookup_insert_ne by exact Ne. now apply H.
    + exact N.
Qed.

Lemma handshake_registers name req id i srv tr :
  Server.construct name req i = Some tr ->
  let socket := Server.onRequest por req (Socket.create pdc id (Server.opts srv) tr) in
  fst (Server.handshake pdc por name req (Some id) i srv) =
  Server.set_connections (Server.connections srv ++ [id])
    (Server.set_closeHandlers (Server.closeHandlers srv ++ [id])
       (Server.set_clientsCount (Server.clientsCount srv + 1)
          (Server.set_clients (<[id := socket]> (Server.clients srv)) srv))).
Proof. intros C. unfold Server.handshake. now rewrite C. Qed.

Lemma consistent_handshake name req generated i srv :
  unusedId srv generated ->
  consistent srv ->
  consistent (fst (Server.handshake pdc por name req generated i srv)).
Proof.
  intros F (C & H & N). unfold Server.handshake.
  destruct generated as [id|]; [|repeat split; auto].
  destruct (Server.construct name req i) as [tr|]; [|repeat split; auto].
  cbn in F. repeat split; cbn.
  - rewrite map_size_insert_None by exact F. lia.
  - intros x Hx. apply in_app_or in Hx as [Hx|[<-|[]]].
    + destruct (decide (id = x)) as [->|Ne].
      * rewrite lookup_insert_eq. eauto.
      * rewrite lookup_insert_ne by exact Ne. now apply H.
    + rewrite lookup_insert_eq. eauto.
  - apply NoDup_snoc; [exact N|].
    intros Hx. destruct (H _ Hx) as [? Hs]. rewrite F in Hs. discriminate.
Qed.

Lemma consistent_handleRequest req generated i srv :
  unusedId srv generated ->
  consistent srv ->
  consistent (fst (Server.handleRequest pdc por req generated i srv)).
Proof.
  intros F C. unfold Server.handleRequest.
  destruct (Server.verify srv _ false) as [req' [err ok]].
  destruct ok; cbn [negb fst]; [|exact C].
  destruct (Server.given _); cbn [fst].
  - now apply consistent_sessionStep.
  - destruct (Http.q_transport _); [|exact C].
    now apply consistent_handshake.
Qed.

Lemma consistent_close srv : consistent srv -> consistent (Server.close pdc srv).
Proof.
  unfold Server.close.
  generalize (map fst (map_to_list (Server.clients srv))). intros ids.
  revert srv. induction ids as [|id ids IH]; intros srv C; cbn; auto.
  apply IH. now apply consistent_sessionStep.
Qed.

Lemma consistent_step srv srv' :
  step pdc por srv srv' -> consistent srv -> consistent srv'.
Proof.
  intros [name req generated i s F | req generated i s F | id f s | s] C;
    auto using consistent_handshake, consistent_handleRequest,
      consistent_sessionStep, consistent_close.
Qed.

(** C9: at every stable point of a server the count of clients is the size
    of the client table, provided [generateId] never gives an id that is in
    the table.  A handshake that succeeds puts the new session in the table
    under its sid and adds one to the count; the handler it registers for
    the session's "close" takes the entry out and takes one off the
    count. *)
Theorem clientsCount_is_size o srv :
  reachable pdc por o srv ->
  Server.clientsCount srv = Z.of_nat (size (Server.clients srv)) /\
  (forall name req id i tr,
     Server.construct name req i = Some tr ->
     let srv' := fst (Server.handshake pdc por name req (Some id) i srv) in
     Server.clients srv' =
       <[id := Server.onRequest por req
                 (Socket.create pdc id (Server.opts srv) tr)]>
         (Server.clients srv) /\
     Server.clientsCount srv' = Server.clientsCount srv + 1 /\
     In id (Server.closeHandlers srv')) /\
  (forall id,
     Server.clients (Server.onSocketClose id srv) =
       delete id (Server.clients srv) /\
     Server.clientsCount (Server.onSocketClose id srv) =
       Server.clientsCount srv - 1).
Proof.
  intros R. split; [|split].
  - assert (C : consistent srv).
    { induction R as [|s s' R IH S]; [apply consistent_create|].
      eapply consistent_step; eassumption. }
    apply C.
  - intros name req id i tr Ct. cbn zeta.
    rewrite (handshake_registers name req id i srv tr Ct). cbn.
    repeat split. apply in_or_app. right. now left.
  - intros id. split; reflexivity.
Qed.

End ClientTable.

(** ** One "close" per session (Socket.onClose) *)

Lemma closes_app l1 l2 : closes (l1 ++ l2) = (closes l1 + closes l2)%nat.
Proof.
  induction l1 as [|[[]| | | | | | |] l1 IH]; simpl; auto.
Qed.

Lemma closedNow_same s x y :
  Socket.readyState y = Socket.readyState x ->
  Server.closedNow s y = Server.closedNow s x.
Proof. unfold Server.closedNow. now intros ->. Qed.

Lemma tally_refl s : tally s s.
Proof.
  split; auto. unfold Server.closedNow.
  destruct (Socket.readyState s); lia.
Qed.

Lemma tally_trans s1 s2 s3 : tally s1 s2 -> tally s2 s3 -> tally s1 s3.
Proof.
  intros [m1 c1] [m2 c2]. split; auto.
  rewrite c2, c1. unfold Server.closedNow in *.
  destruct (Socket.readyState s1) eqn:E1, (Socket.readyState s2) eqn:E2,
    (Socket.readyState s3) eqn:E3; try lia;
    try (specialize (m1 eq_refl); discriminate);
    try (specialize (m2 eq_refl); discriminate).
Qed.

(** A step that leaves the state and the count of "close" as they are. *)
Lemma tally_same s x y :
  Socket.readyState y = Socket.readyState x ->
  closes (Socket.log y) = closes (Socket.log x) ->
  tally s x -> tally s y.
Proof.
  intros R C [m c]. split.
  - intros H. rewrite R. auto.
  - rewrite C, c, (closedNow_same s x y R). reflexivity.
Qed.

Lemma tally_record s x e :
  plain e = true -> tally s x -> tally s (Socket.record e x).
Proof.
  intros P. apply tally_same; [reflexivity|].
  cbn. rewrite closes_app. destruct e as [[]| | | | | | |]; cbn in *;
    try discriminate; lia.
Qed.

Lemma tally_emit s x e :
  plain (Socket.Emit e) = true -> tally s x -> tally s (Socket.emit e x).
Proof. apply tally_record. Qed.

Lemma tally_set_writeBuffer s x v :
  tally s x -> tally s (Socket.set_writeBuffer v x).
Proof. apply tally_same; reflexivity. Qed.

Lemma tally_set_packetsFn s x v :
  tally s x -> tally s (Socket.set_packetsFn v x).
Proof. apply tally_same; reflexivity. Qed.

Lemma tally_set_sentCallbackFn s x v :
  tally s x -> tally s (Socket.set_sentCallbackFn v x).
Proof. apply tally_same; reflexivity. Qed.

Lemma tally_set_cleanupFn s x v :
  tally s x -> tally s (Socket.set_cleanupFn v x).
Proof. apply tally_same; reflexivity. Qed.

Lemma tally_set_transport s x v :
  tally s x -> tally s (Socket.set_transport v x).
Proof. apply tally_same; reflexivity. Qed.

Lemma tally_set_checkIntervalTimer s x v :
  tally s x -> tally s (Socket.set_checkIntervalTimer v x).
Proof. apply tally_same; reflexivity. Qed.

Lemma tally_set_upgradeTimeoutTimer s x v :
  tally s x -> tally s (Socket.set_upgradeTimeoutTimer v x).
Proof. apply tally_same; reflexivity. Qed.

Lemma tally_set_pingTimeoutTimer s x v :
  tally s x -> tally s (Socket.set_pingTimeoutTimer v x).
Proof. apply tally_same; reflexivity. Qed.

Lemma tally_set_pingIntervalTimer s x v :
  tally s x -> tally s (Socket.set_pingIntervalTimer v x).
Proof. apply tally_same; reflexivity. Qed.

Lemma tally_set_drainListeners s x v :
  tally s x -> tally s (Socket.set_drainListeners v x).
Proof. apply tally_same; reflexivity. Qed.

Lemma tally_set_closeListener s x v :
  tally s x -> tally s (Socket.set_closeListener v x).
Proof. apply tally_same; reflexivity. Qed.

Lemma tally_set_candidate s x v :
  tally s x -> tally s (Socket.set_candidate v x).
Proof. apply tally_same; reflexivity. Qed.

Lemma tally_set_retired s x v :
  tally s x -> tally s (Socket.set_retired v x).
Proof. apply tally_same; reflexivity. Qed.

Lemma tally_set_nextTick s x v :
  tally s x -> tally s (Socket.set_nextTick v x).
Proof. apply tally_same; reflexivity. Qed.

Lemma tally_set_upgrading s x v :
  tally s x -> tally s (Socket.set_upgrading v x).
Proof. apply tally_same; reflexivity. Qed.

Lemma tally_set_upgraded s x v :
  tally s x -> tally s (Socket.set_upgraded v x).
Proof. apply tally_same; reflexivity. Qed.

Lemma tally_clearTimer s x n : tally s x -> tally s (Socket.clearTimer n x).
Proof.
  intros H. unfold Socket.clearTimer. apply tally_record; [reflexivity|].
  destruct n; cbn;
    auto using tally_set_pingIntervalTimer, tally_set_pingTimeoutTimer,
      tally_set_checkIntervalTimer, tally_set_upgradeTimeoutTimer.
Qed.

Lemma tally_armTimer s x n ms :
  tally s x -> tally s (Socket.armTimer n ms x).
Proof.
  intros H. unfold Socket.armTimer. apply tally_record; [reflexivity|].
  destruct n; cbn;
    auto using tally_set_pingIntervalTimer, tally_set_pingTimeoutTimer,
      tally_set_checkIntervalTimer, tally_set_upgradeTimeoutTimer.
Qed.

Create HintDb tally.

#[local] Hint Resolve tally_refl tally_clearTimer tally_armTimer
  tally_set_writeBuffer
  tally_set_packetsFn
  tally_set_sentCallbackFn
  tally_set_cleanupFn
  tally_set_transport
  tally_set_checkIntervalTimer
  tally_set_upgradeTimeoutTimer
  tally_set_pingTimeoutTimer
  tally_set_pingIntervalTimer
  tally_set_drainListeners
  tally_set_closeListener
  tally_set_candidate
  tally_set_retired
  tally_set_nextTick
  tally_set_upgrading
  tally_set_upgraded : tally.
#[local] Hint Extern 1 (tally _ (Socket.record _ _)) =>
  apply tally_record; [reflexivity|] : tally.
#[local] Hint Extern 1 (tally _ (Socket.emit _ _)) =>
  apply tally_emit; [reflexivity|] : tally.

Section OneClose.

Variable pdc : Transport.t -> Transport.t * bool.

Lemma tally_transportSend s x ps :
  tally s x -> tally s (Socket.transportSend ps x).
Proof. unfold Socket.transportSend. auto with tally. Qed.

Lemma tally_schedulePing s x : tally s x -> tally s (Socket.schedulePing x).
Proof. unfold Socket.schedulePing. auto with tally. Qed.

Lemma tally_resetPingTimeout s x ms :
  tally s x -> tally s (Socket.resetPingTimeout ms x).
Proof. unfold Socket.resetPingTimeout. auto with tally. Qed.

Lemma tally_setTransport s x tr :
  tally s x -> tally s (Socket.setTransport tr x).
Proof.
  unfold Socket.setTransport, Socket.setupSendCallback. auto 10 with tally.
Qed.

Lemma tally_shiftCleanups s x n :
  tally s x -> tally s (Socket.shiftCleanups n x).
Proof.
  intros H. destruct (shiftCleanups_shape n x) as (cf & ls & ->).
  auto with tally.
Qed.

Lemma tally_cleanup s x : tally s x -> tally s (Socket.cleanup x).
Proof. unfold Socket.cleanup. auto 10 with tally. Qed.

Lemma tally_closeCandidate s x :
  tally s x -> tally s (Socket.closeCandidate pdc x).
Proof.
  unfold Socket.closeCandidate. destruct (Socket.candidate x);
    auto 10 with tally.
Qed.

Lemma tally_upgradeOnError s x :
  tally s x -> tally s (Socket.upgradeOnError pdc x).
Proof.
  unfold Socket.upgradeOnError.
  auto using tally_closeCandidate, tally_cleanup.
Qed.

Lemma tally_clearTransport s x :
  tally s x -> tally s (Socket.clearTransport pdc x).
Proof.
  intros H. unfold Socket.clearTransport.
  auto 10 using tally_shiftCleanups with tally.
Qed.

(** [onClose] is where "close" is emitted: once, and only by a session that
    is not closed yet. *)
Lemma onClose_counts r d x :
  Socket.readyState x <> Socket.Closed ->
  Socket.readyState (Socket.onClose pdc r d x) = Socket.Closed /\
  closes (Socket.log (Socket.onClose pdc r d x)) = S (closes (Socket.log x)).
Proof.
  intros N. split; [apply onClose_closed|].
  unfold Socket.onClose.
  set (y := Socket.set_sentCallbackFn [] _).
  assert (Y : Socket.readyState y = Socket.Closed) by reflexivity.
  assert (C : closes (Socket.log y) = closes (Socket.log x)).
  { subst y. cbn. rewrite !closes_app. cbn. lia. }
  clearbody y.
  assert (Z : tally y (Socket.clearTransport pdc y))
    by auto using tally_clearTransport with tally.
  set (z := Socket.clearTransport pdc y) in *. clearbody z.
  destruct Z as [Zm Zc]. specialize (Zm Y).
  assert (Zn : Server.closedNow y z = false)
    by (unfold Server.closedNow; now rewrite Y).
  rewrite Zn in Zc.
  assert (W : closes (Socket.log (Socket.emitClose pdc r d z)) =
              S (closes (Socket.log z))).
  { unfold Socket.emitClose.
    set (z1 := Socket.emit (Socket.EvClose r d) z).
    assert (Z1 : closes (Socket.log z1) = S (closes (Socket.log z)))
      by (subst z1; cbn; rewrite closes_app; cbn; lia).
    assert (R1 : Socket.readyState z1 = Socket.Closed) by exact Zm.
    clearbody z1.
    destruct (Socket.closeListener z1); [|exact Z1].
    set (z2 := Socket.set_closeListener false z1).
    assert (T : tally z2 (Socket.upgradeOnError pdc z2))
      by auto using tally_upgradeOnError with tally.
    destruct T as [_ Tc].
    assert (Tn : Server.closedNow z2 (Socket.upgradeOnError pdc z2) = false)
      by (unfold Server.closedNow; subst z2; cbn; now rewrite R1).
    rewrite Tc, Tn. subst z2. cbn. lia. }
  destruct (Socket.readyState x); try congruence; rewrite W; lia.
Qed.

Lemma tally_onClose s x r d :
  tally s x -> tally s (Socket.onClose pdc r d x).
Proof.
  intros H. destruct (Socket.readyState x) eqn:E.
  4: { unfold Socket.onClose. now rewrite E. }
  all: eapply tally_trans; [exact H|];
    destruct (onClose_counts r d x) as [R C]; [congruence|];
    split; [auto|]; rewrite C; unfold Server.closedNow; rewrite E, R; lia.
Qed.

Lemma tally_closeTransport s x d :
  tally s x -> tally s (Socket.closeTransport pdc d x).
Proof.
  intros H. unfold Socket.closeTransport.
  set (x1 := if d then _ else x).
  assert (H1 : tally s x1) by (subst x1; destruct d; auto with tally).
  clearbody x1.
  destruct (Transport.close pdc (Socket.transport x1)) as [tr now].
  destruct now; auto using tally_onClose with tally.
Qed.

Lemma tally_closeTransports ds : forall s x,
  tally s x ->
  tally s (fold_left (fun s d => Socket.closeTransport pdc d s) ds x).
Proof.
  induction ds as [|d ds IH]; intros s x H; simpl; auto.
  apply IH, tally_closeTransport, H.
Qed.

Lemma tally_emitDrain s x : tally s x -> tally s (Socket.emitDrain pdc x).
Proof.
  intros H. unfold Socket.emitDrain.
  apply tally_closeTransports. auto with tally.
Qed.

Lemma tally_flush s x : tally s x -> tally s (Socket.flush pdc x).
Proof.
  intros H. unfold Socket.flush.
  destruct (_ && _ && _); auto.
  apply tally_record; [reflexivity|].
  apply tally_emitDrain, tally_transportSend.
  destruct (negb _); auto 10 with tally.
Qed.

Lemma tally_sendPacket s x ty d o cb :
  tally s x -> tally s (Socket.sendPacket pdc ty d o cb x).
Proof.
  intros H. unfold Socket.sendPacket.
  destruct (Socket.readyState x); auto; apply tally_flush;
    destruct o, cb; auto 10 with tally.
Qed.

Lemma tally_onDrain s x : tally s x -> tally s (Socket.onDrain x).
Proof.
  intros H. unfold Socket.onDrain.
  destruct (Socket.sentCallbackFn x) as [|[f|fs] rest]; auto with tally.
  assert (G : tally s (Socket.set_sentCallbackFn rest x)) by auto with tally.
  revert G. generalize (Socket.set_sentCallbackFn rest x).
  induction fs as [|f fs IH]; intros y G; simpl; auto with tally.
Qed.

Lemma tally_onPacket s x p :
  tally s x -> tally s (Socket.onPacket pdc p x).
Proof.
  intros H. unfold Socket.onPacket.
  destruct (Socket.readyState x); auto.
  repeat destruct (String.eqb _ _);
    auto 10 using tally_onClose, tally_schedulePing,
      tally_resetPingTimeout with tally.
Qed.

Lemma tally_pingIntervalExpires s x :
  tally s x -> tally s (Socket.pingIntervalExpires pdc x).
Proof.
  intros H. unfold Socket.pingIntervalExpires.
  destruct (Socket.pingIntervalTimer x); auto.
  apply tally_resetPingTimeout, tally_sendPacket. auto with tally.
Qed.

Lemma tally_pingTimeoutExpires s x :
  tally s x -> tally s (Socket.pingTimeoutExpires pdc x).
Proof.
  intros H. unfold Socket.pingTimeoutExpires.
  destruct (Socket.pingTimeoutTimer x); auto.
  cbn. destruct (Socket.readyState x);
    auto using tally_onClose with tally.
Qed.

Lemma tally_upgradeTimeoutExpires s x :
  tally s x -> tally s (Socket.upgradeTimeoutExpires pdc x).
Proof.
  intros H. unfold Socket.upgradeTimeoutExpires.
  destruct (Socket.upgradeTimeoutTimer x); auto.
  set (y := Socket.cleanup _).
  assert (Y : tally s y) by (subst y; auto using tally_cleanup with tally).
  clearbody y.
  destruct (Socket.candidate y) as [c|]; auto.
  destruct (Transport.readyState c); auto using tally_closeCandidate.
Qed.

Lemma tally_checkIntervalTick s x :
  tally s x -> tally s (Socket.checkIntervalTick x).
Proof.
  intros H. unfold Socket.checkIntervalTick, Socket.check.
  destruct (Socket.checkIntervalTimer x); auto.
  destruct (_ && _); auto using tally_transportSend.
Qed.

Lemma tally_close s x d :
  tally s x -> tally s (fst (Socket.close pdc d x)).
Proof.
  intros H. unfold Socket.close.
  destruct (Socket.readyState x) eqn:E; auto.
  assert (G : tally s (Socket.set_readyState Socket.Closing x)).
  { eapply tally_trans; [exact H|]. split.
    - intros C. congruence.
    - unfold Server.closedNow. cbn. rewrite E. lia. }
  destruct (negb _); cbn; auto using tally_closeTransport with tally.
Qed.

Lemma tally_maybeUpgrade s x tr :
  tally s x -> tally s (Socket.maybeUpgrade tr x).
Proof. unfold Socket.maybeUpgrade. auto 10 with tally. Qed.

Lemma tally_runNextTick s x : tally s x -> tally s (Socket.runNextTick x).
Proof.
  unfold Socket.runNextTick. destruct (Socket.nextTick x); auto with tally.
Qed.

Lemma tally_upgradeOnPacket s x p :
  tally s x -> tally s (Socket.upgradeOnPacket pdc p x).
Proof.
  intros H. unfold Socket.upgradeOnPacket.
  destruct (Socket.candidate x) as [c|]; auto.
  destruct (_ && _); [auto 10 with tally|].
  destruct (_ && _); [|auto using tally_closeCandidate, tally_cleanup].
  set (y := Socket.set_retired _ _).
  assert (Y : tally s y).
  { subst y. apply tally_set_retired, tally_clearTransport.
    auto 10 using tally_cleanup with tally. }
  clearbody y.
  set (z := match Socket.candidate y with Some _ => _ | None => y end).
  assert (Z : tally s z).
  { subst z. destruct (Socket.candidate y);
      auto using tally_setTransport with tally. }
  clearbody z.
  set (w := Socket.flush pdc _).
  assert (W : tally s w).
  { subst w. apply tally_flush, tally_schedulePing. auto with tally. }
  clearbody w.
  destruct (Socket.readyState w); auto using tally_closeTransport.
Qed.

Lemma tally_listener s x l e :
  tally s x -> tally s (Socket.listener pdc l e x).
Proof.
  intros H. destruct l, e; cbn;
    auto using tally_onClose, tally_onPacket, tally_flush, tally_onDrain,
      tally_upgradeOnPacket, tally_upgradeOnError.
  all: unfold Socket.onError; auto using tally_onClose.
Qed.

Lemma tally_transportEmit s x e :
  tally s x -> tally s (Socket.transportEmit pdc e x).
Proof.
  unfold Socket.transportEmit.
  generalize (filter (Socket.handles e) (Transport.listeners (Socket.transport x))).
  intros ls. revert x.
  induction ls as [|l ls IH]; intros x H; simpl; auto.
  apply IH, tally_listener. destruct (Socket.once l); auto with tally.
Qed.

Lemma tally_candidateEmit s x e :
  tally s x -> tally s (Socket.candidateEmit pdc e x).
Proof.
  unfold Socket.candidateEmit. destruct (Socket.candidate x) as [c|]; auto.
  generalize (filter (Socket.handles e) (Transport.listeners c)).
  intros ls. revert x.
  induction ls as [|l ls IH]; intros x H; simpl; auto.
  apply IH, tally_listener. destruct (Socket.once l); auto with tally.
Qed.

Lemma tally_react s x i : tally s x -> tally s (Life.react pdc i x).
Proof.
  intros H. destruct i as [e| |w|e|d o cb|d|n| |j|]; unfold Life.react.
  - now apply tally_transportEmit.
  - unfold Socket.transportOnEnd. apply tally_transportEmit. auto with tally.
  - auto with tally.
  - now apply tally_candidateEmit.
  - now apply tally_sendPacket.
  - now apply tally_close.
  - destruct n; auto using tally_pingIntervalExpires,
      tally_pingTimeoutExpires, tally_checkIntervalTick,
      tally_upgradeTimeoutExpires.
  - now apply tally_runNextTick.
  - destruct (_ || _ || _); auto using tally_maybeUpgrade.
  - now apply tally_onClose.
Qed.

Lemma tally_run inputs : forall s x,
  tally s x -> tally s (Life.run pdc inputs x).
Proof.
  induction inputs as [|i inputs IH]; intros s x H; simpl; auto.
  apply IH, tally_react, H.
Qed.

Lemma tally_create i o tr :
  closes (Socket.log (Socket.create pdc i o tr)) =
  match Socket.readyState (Socket.create pdc i o tr) with
  | Socket.Closed => 1%nat
  | _ => 0%nat
  end.
Proof.
  unfold Socket.create.
  match goal with
  | |- context [Socket.setTransport tr ?r] => set (s0 := r)
  end.
  assert (T : tally s0 (Socket.onOpen pdc (Socket.setTransport tr s0))).
  { unfold Socket.onOpen.
    apply tally_schedulePing, tally_emit; [reflexivity|].
    set (y := Socket.set_transport _ _).
    assert (Y : tally s0 y).
    { subst y. apply tally_set_transport.
      eapply tally_trans; [apply (tally_setTransport s0 s0 tr), tally_refl|].
      split; [intros C; discriminate C|].
      unfold Server.closedNow. cbn. lia. }
    clearbody y.
    destruct (JS.truthy _); auto using tally_sendPacket. }
  destruct T as [_ C]. rewrite C. unfold Server.closedNow.
  change (Socket.readyState s0) with Socket.Opening.
  change (closes (Socket.log s0)) with 0%nat.
  destruct (Socket.readyState _); reflexivity.
Qed.

End OneClose.

(** X1: "close" is emitted once per session, when it closes.  Whatever
    happens to a session, in whatever state it is, it stays closed once it
    is closed, and its log gains one "close" if it closes on the way and
    none otherwise; a session made by the constructor has emitted "close"
    once if it is closed and never if it is not. *)
Theorem close_emitted_once pdc inputs s i o tr :
  let s' := Life.run pdc inputs s in
  let born := Life.run pdc inputs (Socket.create pdc i o tr) in
  (Socket.readyState s = Socket.Closed ->
   Socket.readyState s' = Socket.Closed) /\
  closes (Socket.log s') =
    (closes (Socket.log s) + if Server.closedNow s s' then 1 else 0)%nat /\
  closes (Socket.log born) =
    match Socket.readyState born with
    | Socket.Closed => 1%nat
    | _ => 0%nat
    end.
Proof.
  cbn zeta.
  destruct (tally_run pdc inputs s s (tally_refl s)) as [M C].
  split; [exact M|]. split; [exact C|].
  set (c := Socket.create pdc i o tr).
  destruct (tally_run pdc inputs c c (tally_refl c)) as [M' C'].
  rewrite C'. subst c. rewrite tally_create. unfold Server.closedNow.
  set (r := Socket.readyState
              (Life.run pdc inputs (Socket.create pdc i o tr))) in *.
  destruct (Socket.readyState (Socket.create pdc i o tr)) eqn:E.
  4: { rewrite (M' eq_refl). reflexivity. }
  all: destruct r; reflexivity.
Qed.

(** ** What holds of a session between two inputs *)

Lemma forallb_remove_first l ls :
  forallb ofSession ls = true ->
  forallb ofSession (Transport.remove_first l ls) = true.
Proof.
  induction ls as [|h r IH]; simpl; auto.
  intros H. apply andb_prop in H as [H1 H2].
  destruct (Transport.listener_eqb h l); simpl; auto.
  now rewrite H1, IH.
Qed.

Lemma send_listeners ps x :
  Transport.listeners (Transport.send ps x) = Transport.listeners x.
Proof.
  unfold Transport.send, Transport.pollingSend.
  destruct (Transport.kind x), ps, (Transport.writable x); reflexivity.
Qed.

(** A step that leaves alone what [sound] speaks of. *)
Lemma sound_same x y :
  Transport.listeners (Socket.transport y) =
    Transport.listeners (Socket.transport x) ->
  Socket.candidate y = Socket.candidate x ->
  Socket.closeListener y = Socket.closeListener x ->
  Socket.readyState y = Socket.readyState x ->
  Socket.drainListeners y = Socket.drainListeners x ->
  Socket.pingIntervalTimer y = Socket.pingIntervalTimer x ->
  Socket.pingTimeoutTimer y = Socket.pingTimeoutTimer x ->
  Socket.checkIntervalTimer y = Socket.checkIntervalTimer x ->
  Socket.upgradeTimeoutTimer y = Socket.upgradeTimeoutTimer x ->
  Socket.sentCallbackFn y = Socket.sentCallbackFn x ->
  sound x -> sound y.
Proof.
  intros E1 E2 E3 E4 E5 E6 E7 E8 E9 E10 [L C D Z].
  split; unfold candidateShape in *;
    rewrite ?E1, ?E2, ?E3, ?E4, ?E5, ?E6, ?E7, ?E8, ?E9, ?E10; auto.
Qed.

Ltac sound_frame := apply sound_same; reflexivity.

Lemma sound_record x e : sound x -> sound (Socket.record e x).
Proof. sound_frame. Qed.

Lemma sound_emit x e : sound x -> sound (Socket.emit e x).
Proof. sound_frame. Qed.

Lemma sound_set_writeBuffer x v : sound x -> sound (Socket.set_writeBuffer v x).
Proof. sound_frame. Qed.

Lemma sound_set_packetsFn x v : sound x -> sound (Socket.set_packetsFn v x).
Proof. sound_frame. Qed.

Lemma sound_set_cleanupFn x v : sound x -> sound (Socket.set_cleanupFn v x).
Proof. sound_frame. Qed.

Lemma sound_set_retired x v : sound x -> sound (Socket.set_retired v x).
Proof. sound_frame. Qed.

Lemma sound_set_nextTick x v : sound x -> sound (Socket.set_nextTick v x).
Proof. sound_frame. Qed.

Lemma sound_set_upgrading x v : sound x -> sound (Socket.set_upgrading v x).
Proof. sound_frame. Qed.

Lemma sound_set_upgraded x v : sound x -> sound (Socket.set_upgraded v x).
Proof. sound_frame. Qed.

Lemma sound_set_transport x tr :
  Transport.listeners tr = Transport.listeners (Socket.transport x) ->
  sound x -> sound (Socket.set_transport tr x).
Proof. intros E. apply sound_same; auto. Qed.

Lemma sound_new_transport x tr :
  forallb ofSession (Transport.listeners tr) = true ->
  sound x -> sound (Socket.set_transport tr x).
Proof. intros E [L C D Z]. split; auto. Qed.

Lemma sound_clearTimer x n : sound x -> sound (Socket.clearTimer n x).
Proof.
  intros [L C D Z]. destruct n; split; auto; cbn; intros R;
    destruct (Z R) as (? & ? & ? & ? & ? & ?); auto 10.
Qed.

Lemma sound_armTimer x n ms :
  Socket.readyState x <> Socket.Closed ->
  sound x -> sound (Socket.armTimer n ms x).
Proof.
  intros N [L C D Z]. destruct n; split; auto; cbn; intros R; contradiction.
Qed.

Lemma sound_set_sentCallbackFn x v :
  Socket.readyState x <> Socket.Closed ->
  sound x -> sound (Socket.set_sentCallbackFn v x).
Proof. intros N [L C D Z]. split; auto; cbn; intros R; contradiction. Qed.

Lemma sound_no_drainListeners x :
  sound x -> sound (Socket.set_drainListeners [] x).
Proof.
  intros [L C D Z]. split; auto. cbn. now destruct (Socket.readyState x).
Qed.

Lemma sound_not_closed x :
  sound x ->
  Socket.pingIntervalTimer x <> None \/ Socket.pingTimeoutTimer x <> None \/
  Socket.checkIntervalTimer x <> None \/ Socket.upgradeTimeoutTimer x <> None \/
  Socket.sentCallbackFn x <> [] \/ Socket.closeListener x = true ->
  Socket.readyState x <> Socket.Closed.
Proof.
  intros [L C D Z] H R. destruct (Z R) as (A & B & E & F & G & I).
  destruct H as [H|[H|[H|[H|[H|H]]]]]; congruence.
Qed.

Lemma shiftCleanups_ofSession n : forall s,
  forallb ofSession (Transport.listeners (Socket.transport s)) = true ->
  exists cf ls,
    Socket.shiftCleanups n s =
    Socket.set_cleanupFn cf
      (Socket.set_transport
         (Transport.set_listeners ls (Socket.transport s)) s) /\
    forallb ofSession ls = true.
Proof.
  induction n as [|n IH]; intros s F; simpl.
  - exists (Socket.cleanupFn s), (Transport.listeners (Socket.transport s)).
    split; [|exact F].
    destruct s as [? ? ? ? ? ? ? ? ? tr]; destruct tr; reflexivity.
  - destruct (Socket.cleanupFn s) as [|c r] eqn:E.
    + exists [], (Transport.listeners (Socket.transport s)).
      split; [|exact F].
      destruct s as [? ? ? ? ? ? ? ? ? tr]; destruct tr; simpl in *.
      now subst.
    + destruct (IH (Socket.runCleanup c (Socket.set_cleanupFn r s)))
        as (cf & ls & -> & G).
      { destruct c; cbn; auto using forallb_remove_first. }
      exists cf, ls. split; [|exact G].
      destruct s as [? ? ? ? ? ? ? ? ? tr]; destruct tr, c; reflexivity.
Qed.

Section Soundness.

Variable pdc : Transport.t -> Transport.t * bool.

Lemma sound_transportSend x ps :
  sound x -> sound (Socket.transportSend ps x).
Proof.
  intros H. unfold Socket.transportSend.
  apply sound_record, sound_set_transport; auto using send_listeners.
Qed.

Lemma sound_cleanup x : sound x -> sound (Socket.cleanup x).
Proof.
  intros [L C D Z]. unfold Socket.cleanup. split; auto.
  - unfold candidateShape in *. cbn.
    destruct (Socket.candidate x) as [c|]; cbn; auto.
    right. split; [|reflexivity].
    destruct C as [[E _]|[E _]]; rewrite E; reflexivity.
  - cbn. intros R. destruct (Z R) as (? & ? & ? & ? & ? & ?). auto 10.
Qed.

Lemma sound_closeCandidate x : sound x -> sound (Socket.closeCandidate pdc x).
Proof.
  intros H. unfold Socket.closeCandidate.
  destruct (Socket.candidate x) as [c|]; auto.
  destruct H as [L C D Z]. split; auto. exact I.
Qed.

(** Giving an upgrade up leaves no candidate, whatever listeners it had. *)
Lemma sound_giveUp x c :
  sound x -> sound (Socket.upgradeOnError pdc (Socket.set_candidate (Some c) x)).
Proof.
  intros [L C D Z]. unfold Socket.upgradeOnError, Socket.closeCandidate.
  cbn. split; auto.
  - exact I.
  - cbn. intros R. destruct (Z R) as (? & ? & ? & ? & ? & ?). auto 10.
Qed.

Lemma sound_upgradeOnError x : sound x -> sound (Socket.upgradeOnError pdc x).
Proof.
  intros H. unfold Socket.upgradeOnError.
  auto using sound_closeCandidate, sound_cleanup.
Qed.

Lemma sound_clearTransport x : sound x -> sound (Socket.clearTransport pdc x).
Proof.
  intros H. unfold Socket.clearTransport.
  destruct (shiftCleanups_ofSession (length (Socket.cleanupFn x)) x)
    as (cf & ls & -> & F); [apply H|].
  apply sound_clearTimer, sound_record, sound_new_transport.
  - rewrite close_listeners. cbn. rewrite forallb_app, F. reflexivity.
  - apply sound_new_transport.
    + cbn. rewrite forallb_app, F. reflexivity.
    + apply sound_set_cleanupFn, sound_new_transport; [exact F|exact H].
Qed.

(** [onClose] leaves a session sound: the timers are cleared, the callback
    queues emptied, the candidate of an upgrade is given up. *)
Lemma sound_onClose x r d : sound x -> sound (Socket.onClose pdc r d x).
Proof.
  intros H. unfold Socket.onClose.
  destruct (Socket.readyState x) eqn:E; auto.
  all: set (y := Socket.set_sentCallbackFn [] _);
    destruct (shiftCleanups_ofSession (length (Socket.cleanupFn y)) y)
      as (cf & ls & S & F); [apply H|];
    unfold Socket.clearTransport; rewrite S; clear S;
    unfold Socket.emitClose;
    cbn [Socket.closeListener Socket.emit Socket.record Socket.set_log
         Socket.clearTimer Socket.set_timer Socket.set_pingTimeoutTimer
         Socket.set_transport Socket.set_cleanupFn y
         Socket.set_sentCallbackFn Socket.set_packetsFn Socket.set_nextTick
         Socket.set_pingIntervalTimer Socket.set_checkIntervalTimer
         Socket.set_upgradeTimeoutTimer Socket.set_readyState];
    destruct H as [L C D Z];
    destruct (Socket.closeListener x) eqn:CL.
  all: try (unfold Socket.upgradeOnError, Socket.closeCandidate, Socket.cleanup;
            cbn; destruct (Socket.candidate x) as [c|] eqn:Cx; cbn;
            split; cbn; auto 10;
            try exact I;
            try (rewrite close_listeners; cbn; rewrite forallb_app, F;
                 reflexivity);
            try (unfold candidateShape; cbn; rewrite Cx; exact I)).
  all: try (split; cbn; auto 10;
            try (rewrite close_listeners; cbn; rewrite forallb_app, F;
                 reflexivity);
            unfold candidateShape in *; cbn;
            destruct (Socket.candidate x) as [c|]; auto;
            destruct C as [[_ C]|C]; [congruence|right; exact C]).
Qed.

Lemma sound_closeTransport x d :
  sound x -> sound (Socket.closeTransport pdc d x).
Proof.
  intros H. unfold Socket.closeTransport.
  set (x1 := if d then _ else x).
  assert (H1 : sound x1).
  { subst x1. destruct d; auto.
    apply sound_record, sound_set_transport; auto. }
  clearbody x1.
  destruct (Transport.close pdc (Socket.transport x1)) as [tr now] eqn:E.
  assert (H2 : sound
            (Socket.record (Socket.TClose (Transport.tid tr) true)
               (Socket.set_transport tr x1))).
  { apply sound_record, sound_set_transport; auto.
    change tr with (fst (tr, now)). rewrite <- E. apply close_listeners. }
  destruct now; auto using sound_onClose.
Qed.

Lemma sound_closeTransports ds : forall x,
  sound x ->
  sound (fold_left (fun s d => Socket.closeTransport pdc d s) ds x).
Proof.
  induction ds as [|d ds IH]; intros x H; simpl; auto.
  apply IH, sound_closeTransport, H.
Qed.

Lemma sound_emitDrain x : sound x -> sound (Socket.emitDrain pdc x).
Proof.
  intros H. unfold Socket.emitDrain.
  apply sound_closeTransports, sound_no_drainListeners, sound_emit, H.
Qed.

Lemma sound_flush x : sound x -> sound (Socket.flush pdc x).
Proof.
  intros H. unfold Socket.flush.
  destruct (_ && _ && _) eqn:G; auto.
  assert (N : Socket.readyState x <> Socket.Closed).
  { intros R. rewrite R in G. discriminate G. }
  apply sound_record, sound_emitDrain, sound_transportSend,
    sound_set_packetsFn.
  match goal with
  | |- sound (if ?b then _ else _) => destruct b
  end; apply sound_set_sentCallbackFn; auto;
    apply sound_set_writeBuffer, sound_record, sound_emit, H.
Qed.

Lemma sound_sendPacket x ty d o cb :
  sound x -> sound (Socket.sendPacket pdc ty d o cb x).
Proof.
  intros H. unfold Socket.sendPacket.
  destruct (Socket.readyState x); auto; apply sound_flush;
    destruct o, cb;
    auto using sound_set_packetsFn, sound_set_writeBuffer, sound_emit.
Qed.

Lemma sound_onDrain x : sound x -> sound (Socket.onDrain x).
Proof.
  intros H. unfold Socket.onDrain.
  destruct (Socket.sentCallbackFn x) as [|e rest] eqn:E; auto.
  assert (N : Socket.readyState x <> Socket.Closed).
  { apply sound_not_closed; auto. rewrite E. do 4 right. left. discriminate. }
  assert (G : sound (Socket.set_sentCallbackFn rest x))
    by (apply sound_set_sentCallbackFn; auto).
  destruct e as [f|fs]; [now apply sound_record|].
  clear E. revert G. generalize (Socket.set_sentCallbackFn rest x).
  induction fs as [|f fs IH]; intros y G; simpl; auto.
  apply IH, sound_record, G.
Qed.

Lemma sound_schedulePing x :
  Socket.readyState x <> Socket.Closed ->
  sound x -> sound (Socket.schedulePing x).
Proof.
  intros N H. unfold Socket.schedulePing.
  apply sound_armTimer; [exact N|]. now apply sound_clearTimer.
Qed.

Lemma sound_resetPingTimeout x ms :
  Socket.readyState x <> Socket.Closed ->
  sound x -> sound (Socket.resetPingTimeout ms x).
Proof.
  intros N H. unfold Socket.resetPingTimeout.
  apply sound_armTimer; [exact N|]. now apply sound_clearTimer.
Qed.

Lemma sound_onPacket x p : sound x -> sound (Socket.onPacket pdc p x).
Proof.
  intros H. unfold Socket.onPacket.
  destruct (Socket.readyState x) eqn:E; auto.
  set (y := Socket.resetPingTimeout _ _).
  assert (Y : sound y).
  { subst y. apply sound_resetPingTimeout; [cbn; congruence|].
    now apply sound_emit. }
  assert (R : Socket.readyState y = Socket.Open) by exact E.
  clearbody y.
  repeat destruct (String.eqb _ _);
    auto using sound_onClose, sound_emit.
  apply sound_emit, sound_schedulePing; [congruence|exact Y].
Qed.

(** A session that is open or opening has no listener for "drain", so
    [sendPacket] does not close it. *)
Lemma sendPacket_keeps_state x ty d o cb :
  sound x ->
  Socket.readyState x <> Socket.Closed ->
  Socket.readyState (Socket.sendPacket pdc ty d o cb x) <> Socket.Closed.
Proof.
  intros H N.
  destruct (Socket.readyState x) eqn:E; try congruence.
  3: { rewrite sendPacket_rejected by auto. congruence. }
  all: rewrite sendPacket_accepted by auto;
    match goal with
    | |- Socket.readyState (Socket.flush pdc ?q) <> _ =>
        destruct (flush_plain pdc q) as [R _];
          [pose proof (so_drain x H) as D; rewrite E in D; exact D|];
          rewrite R; cbn; congruence
    end.
Qed.

Lemma sound_pingIntervalExpires x :
  sound x -> sound (Socket.pingIntervalExpires pdc x).
Proof.
  intros H. unfold Socket.pingIntervalExpires.
  destruct (Socket.pingIntervalTimer x) eqn:T; auto.
  assert (N : Socket.readyState x <> Socket.Closed).
  { apply sound_not_closed; auto. left. congruence. }
  set (y := Socket.set_pingIntervalTimer None x).
  assert (Y : sound y) by (apply (sound_clearTimer x Socket.PingInterval) in H;
                           revert H; apply sound_same; reflexivity).
  assert (Ny : Socket.readyState y <> Socket.Closed) by exact N.
  clearbody y.
  apply sound_resetPingTimeout.
  - now apply sendPacket_keeps_state.
  - now apply sound_sendPacket.
Qed.

Lemma sound_pingTimeoutExpires x :
  sound x -> sound (Socket.pingTimeoutExpires pdc x).
Proof.
  intros H. unfold Socket.pingTimeoutExpires.
  destruct (Socket.pingTimeoutTimer x) eqn:T; auto.
  set (y := Socket.set_pingTimeoutTimer None x).
  assert (Y : sound y) by (apply (sound_clearTimer x Socket.PingTimeout) in H;
                           revert H; apply sound_same; reflexivity).
  clearbody y.
  destruct (Socket.readyState y); auto using sound_onClose.
Qed.

Lemma sound_upgradeTimeoutExpires x :
  sound x -> sound (Socket.upgradeTimeoutExpires pdc x).
Proof.
  intros H. unfold Socket.upgradeTimeoutExpires.
  destruct (Socket.upgradeTimeoutTimer x) eqn:T; auto.
  set (y := Socket.cleanup _).
  assert (Y : sound y).
  { subst y. apply sound_cleanup.
    apply (sound_clearTimer x Socket.UpgradeTimeout) in H.
    revert H. apply sound_same; reflexivity. }
  clearbody y.
  destruct (Socket.candidate y) as [c|]; auto.
  destruct (Transport.readyState c); auto using sound_closeCandidate.
Qed.

Lemma sound_checkIntervalTick x :
  sound x -> sound (Socket.checkIntervalTick x).
Proof.
  intros H. unfold Socket.checkIntervalTick, Socket.check.
  destruct (Socket.checkIntervalTimer x); auto.
  destruct (_ && _); auto using sound_transportSend.
Qed.

Lemma sound_closing x :
  Socket.readyState x <> Socket.Closed ->
  sound x -> sound (Socket.set_readyState Socket.Closing x).
Proof.
  intros N [L C D Z]. split; auto; cbn; [exact I|discriminate].
Qed.

Lemma sound_close x d : sound x -> sound (fst (Socket.close pdc d x)).
Proof.
  intros H. unfold Socket.close.
  destruct (Socket.readyState x) eqn:E; auto.
  assert (G : sound (Socket.set_readyState Socket.Closing x))
    by (apply sound_closing; [congruence|exact H]).
  destruct (negb _); cbn; auto using sound_closeTransport.
  destruct G as [L C D Z]. split; auto; cbn; try exact I; discriminate.
Qed.

Lemma sound_maybeUpgrade x i :
  Socket.readyState x <> Socket.Closed ->
  sound x ->
  sound (Socket.maybeUpgrade (Transport.create i Transport.WebSocket) x).
Proof.
  intros N [L C D Z]. unfold Socket.maybeUpgrade.
  split; auto.
  - unfold candidateShape. cbn. left. split; reflexivity.
  - cbn. intros R. contradiction.
Qed.

Lemma sound_runNextTick x : sound x -> sound (Socket.runNextTick x).
Proof.
  intros H. unfold Socket.runNextTick.
  destruct (Socket.nextTick x);
    auto using sound_set_writeBuffer, sound_set_nextTick.
Qed.

Lemma sound_setTransport x tr :
  Transport.listeners tr = [] ->
  sound x -> sound (Socket.setTransport tr x).
Proof.
  intros E H. unfold Socket.setTransport, Socket.setupSendCallback.
  apply sound_set_cleanupFn, sound_set_cleanupFn, sound_new_transport.
  - cbn. rewrite E. reflexivity.
  - apply sound_new_transport; [cbn; rewrite E; reflexivity|exact H].
Qed.

Lemma clearTransport_keeps x :
  Socket.readyState (Socket.clearTransport pdc x) = Socket.readyState x /\
  Socket.candidate (Socket.clearTransport pdc x) = Socket.candidate x.
Proof.
  destruct (clearTransport_shape pdc x) as (cf & ls & ->). now cbn.
Qed.

Lemma sound_no_candidate x : sound x -> sound (Socket.set_candidate None x).
Proof. intros [L C D Z]. split; auto. exact I. Qed.

Lemma clearTransport_ofSession x :
  forallb ofSession (Transport.listeners (Socket.transport x)) = true ->
  exists cf ls,
    Socket.clearTransport pdc x = cleared pdc cf ls x /\
    forallb ofSession ls = true.
Proof.
  intros F. unfold Socket.clearTransport, cleared.
  destruct (shiftCleanups_ofSession (length (Socket.cleanupFn x)) x F)
    as (cf & ls & E & G).
  exists cf, ls. split; [|exact G].
  rewrite E. cbn. rewrite close_tid. reflexivity.
Qed.

Lemma sound_cleared cf ls y :
  forallb ofSession ls = true -> sound y -> sound (cleared pdc cf ls y).
Proof.
  intros F H. unfold cleared.
  apply sound_clearTimer, sound_record, sound_new_transport.
  - rewrite close_listeners. cbn. rewrite forallb_app, F. reflexivity.
  - now apply sound_set_cleanupFn.
Qed.

Lemma schedulePing_readyState x :
  Socket.readyState (Socket.schedulePing x) = Socket.readyState x.
Proof. reflexivity. Qed.

Lemma sound_swapped cf ls c x :
  forallb ofSession ls = true ->
  Transport.listeners c = upgradeListeners ->
  Socket.readyState x <> Socket.Closed ->
  sound x -> sound (swapped pdc cf ls c x).
Proof.
  intros F Lc N H.
  pose proof (swapped_fields pdc cf ls c x) as S. cbn zeta in S.
  destruct S as (_ & _ & _ & _ & _ & _ & _ & _ & _ & _ & _ & _ & _ & _ & R & _).
  unfold swapped in *. rewrite schedulePing_readyState in R.
  apply sound_schedulePing.
  - rewrite R. exact N.
  - apply sound_emit, sound_no_candidate, sound_setTransport.
    + now apply unlistened_upgradeListeners.
    + apply sound_set_retired, sound_cleared; [exact F|].
      apply sound_set_upgraded, sound_record, sound_set_transport;
        [reflexivity|].
      now apply sound_cleanup.
Qed.

(** The "packet" listener of an upgrade, which is only registered while the
    session listens for its own "close". *)
Lemma sound_upgradeOnPacket x p :
  Socket.closeListener x = true ->
  sound x -> sound (Socket.upgradeOnPacket pdc p x).
Proof.
  intros CL H.
  assert (N : Socket.readyState x <> Socket.Closed)
    by (apply sound_not_closed; auto 10).
  destruct (Socket.candidate x) as [c|] eqn:Cx;
    [|unfold Socket.upgradeOnPacket; now rewrite Cx].
  assert (Lc : Transport.listeners c = upgradeListeners).
  { pose proof (so_candidate x H) as S. unfold candidateShape in S.
    rewrite Cx in S. destruct S as [[S _]|[_ S]]; [exact S|congruence]. }
  destruct (isProbe p) eqn:P.
  { unfold Socket.upgradeOnPacket. unfold isProbe in P. rewrite Cx, P.
    apply sound_armTimer; [exact N|].
    apply sound_clearTimer, sound_emit, sound_record.
    destruct H as [L C D Z]. split; auto.
    unfold candidateShape. cbn. rewrite send_listeners. left. auto. }
  destruct (isUpgrade p) eqn:U.
  - set (y := Socket.set_upgraded true
                (Socket.record
                   (Socket.TDiscard (Transport.tid (Socket.transport x)))
                   (Socket.set_transport
                      (Transport.discard (Socket.transport x))
                      (Socket.cleanup x)))).
    destruct (clearTransport_ofSession y) as (cf & ls & E & F);
      [apply H|].
    rewrite (upgrade_commit_with pdc cf ls x c p Cx N U E).
    pose proof (sound_flush _ (sound_swapped cf ls c x F Lc N H)) as S.
    set (z := Socket.flush pdc _) in *. clearbody z.
    destruct (Socket.readyState z); auto using sound_closeTransport.
  - unfold Socket.upgradeOnPacket. unfold isProbe, isUpgrade in *.
    rewrite Cx, P, U. cbn [andb].
    auto using sound_closeCandidate, sound_cleanup.
Qed.

Lemma sound_listener x l e :
  ofSession l = true -> sound x -> sound (Socket.listener pdc l e x).
Proof.
  intros O H. destruct l; try discriminate O; destruct e; cbn;
    auto using sound_onClose, sound_onPacket, sound_flush, sound_onDrain.
  all: unfold Socket.onError; auto using sound_onClose.
Qed.

Lemma sound_transportEmits e ls : forall x,
  forallb ofSession ls = true ->
  sound x ->
  sound
    (fold_left
       (fun s l =>
          Socket.listener pdc l e
            (if Socket.once l
             then Socket.set_transport
                    (Transport.removeListener l (Socket.transport s)) s
             else s))
       ls x).
Proof.
  induction ls as [|l ls IH]; intros x F H; simpl; auto.
  simpl in F. apply andb_prop in F as [F1 F2].
  apply IH; auto. apply sound_listener; auto.
  destruct (Socket.once l); auto.
  apply sound_new_transport; auto.
  apply forallb_remove_first, H.
Qed.

Lemma forallb_filter_ofSession (p : Transport.Listener -> bool) ls :
  forallb ofSession ls = true -> forallb ofSession (filter p ls) = true.
Proof.
  induction ls as [|h r IH]; [reflexivity|].
  cbn [forallb]. intros H. apply andb_prop in H as [H1 H2].
  rewrite filter_cons. destruct (decide _); cbn [forallb]; auto.
  rewrite H1. cbn [andb]. auto.
Qed.

Lemma sound_transportEmit x e :
  sound x -> sound (Socket.transportEmit pdc e x).
Proof.
  intros H. unfold Socket.transportEmit.
  apply sound_transportEmits; auto.
  apply forallb_filter_ofSession, H.
Qed.

Lemma upgradeListeners_handle e :
  filter (Socket.handles e) upgradeListeners =
  match e with
  | Socket.TError _ => [Transport.UpgradeOnError]
  | Socket.TPacket _ => [Transport.UpgradeOnPacket]
  | Socket.TDrain => []
  | Socket.TClosed => [Transport.UpgradeOnTransportClose]
  end.
Proof. destruct e; reflexivity. Qed.

Lemma sound_candidateEmit x e :
  sound x -> sound (Socket.candidateEmit pdc e x).
Proof.
  intros H. unfold Socket.candidateEmit.
  destruct (Socket.candidate x) as [c|] eqn:Cx; auto.
  pose proof (so_candidate x H) as S. unfold candidateShape in S.
  rewrite Cx in S. destruct S as [[S CL]|[S _]]; rewrite S;
    [|destruct e; exact H].
  rewrite upgradeListeners_handle.
  destruct e; cbn [fold_left Socket.once]; auto.
  - rewrite Cx. cbn [option_map].
    change (Socket.listener pdc Transport.UpgradeOnError (Socket.TError err))
      with (Socket.upgradeOnError pdc).
    now apply sound_giveUp.
  - cbn [Socket.listener]. now apply sound_upgradeOnPacket.
  - rewrite Cx. cbn [option_map].
    change (Socket.listener pdc Transport.UpgradeOnTransportClose
              Socket.TClosed)
      with (Socket.upgradeOnError pdc).
    now apply sound_giveUp.
Qed.

Lemma sound_react x i : sound x -> sound (Life.react pdc i x).
Proof.
  intros H. destruct i as [e| |w|e|d o cb|d|n| |j|]; unfold Life.react.
  - now apply sound_transportEmit.
  - unfold Socket.transportOnEnd.
    apply sound_transportEmit, sound_set_transport; auto.
  - apply sound_set_transport; auto.
  - now apply sound_candidateEmit.
  - now apply sound_sendPacket.
  - now apply sound_close.
  - destruct n; auto using sound_pingIntervalExpires,
      sound_pingTimeoutExpires, sound_checkIntervalTick,
      sound_upgradeTimeoutExpires.
  - now apply sound_runNextTick.
  - destruct (Socket.readyState x) eqn:R;
      destruct (Socket.upgrading x), (Socket.upgraded x); cbn; auto;
      apply sound_maybeUpgrade; auto; congruence.
  - now apply sound_onClose.
Qed.

Lemma sound_run inputs : forall x, sound x -> sound (Life.run pdc inputs x).
Proof.
  induction inputs as [|i inputs IH]; intros x H; simpl; auto.
  apply IH, sound_react, H.
Qed.

Lemma sound_opened x :
  Socket.drainListeners x = [] ->
  sound x ->
  let y :=
    Socket.set_transport
      (Transport.set_sid (Some (Socket.id x)) (Socket.transport x))
      (Socket.set_readyState Socket.Open x) in
  sound y /\ Socket.readyState y = Socket.Open /\ Socket.drainListeners y = [].
Proof.
  intros D [L C _ Z]. cbn zeta. split; [|split; [reflexivity|exact D]].
  split; auto; cbn; try exact D; discriminate.
Qed.

Lemma sound_sent x ty d :
  sound x /\ Socket.readyState x = Socket.Open /\ Socket.drainListeners x = [] ->
  let y := Socket.sendPacket pdc ty d Socket.NoOptions None x in
  sound y /\ Socket.readyState y = Socket.Open /\ Socket.drainListeners y = [].
Proof.
  intros (S & R & D). cbn zeta.
  destruct (sendPacket_accounts pdc ty d Socket.NoOptions None x R D)
    as (R' & D' & _).
  auto using sound_sendPacket.
Qed.

Lemma sound_onOpen x :
  Socket.drainListeners x = [] -> sound x -> sound (Socket.onOpen pdc x).
Proof.
  intros D S. unfold Socket.onOpen.
  pose proof (sound_opened x D S) as H2. cbn zeta in H2.
  set (x2 := Socket.set_transport _ _) in *. clearbody x2.
  pose proof (sound_sent x2 "open"
                (JS.Str (Json.stringify (Socket.handshakeData x2))) H2) as H3.
  cbn zeta in H3.
  set (x3 := Socket.sendPacket pdc "open" _ _ _ x2) in *. clearbody x3.
  assert (H4 : sound (if JS.truthy (initialPacket (Socket.opts x3))
                      then Socket.sendPacket pdc "message"
                             (initialPacket (Socket.opts x3))
                             Socket.NoOptions None x3
                      else x3) /\
               Socket.readyState
                 (if JS.truthy (initialPacket (Socket.opts x3))
                  then Socket.sendPacket pdc "message"
                         (initialPacket (Socket.opts x3))
                         Socket.NoOptions None x3
                  else x3) = Socket.Open).
  { destruct (JS.truthy _).
    - destruct (sound_sent x3 "message" (initialPacket (Socket.opts x3)) H3)
        as (A & B & _). auto.
    - destruct H3 as (A & B & _). auto. }
  set (x4 := if JS.truthy _ then _ else x3) in *. clearbody x4.
  destruct H4 as [S4 R4].
  apply sound_schedulePing; [cbn; congruence|now apply sound_emit].
Qed.

(** A session is sound when its constructor returns. *)
Lemma sound_create i o tr :
  Transport.listeners tr = [] -> sound (Socket.create pdc i o tr).
Proof.
  intros E. unfold Socket.create.
  apply sound_onOpen; [reflexivity|].
  apply sound_setTransport; [exact E|].
  split; cbn; auto; try discriminate. rewrite E. reflexivity.
Qed.

End Soundness.

(** ** A closed session is final *)

Section Final.

Variable pdc : Transport.t -> Transport.t * bool.

Lemma listener_closed l e x :
  ofSession l = true ->
  Socket.readyState x = Socket.Closed ->
  Socket.sentCallbackFn x = [] ->
  Socket.listener pdc l e x = x.
Proof.
  intros O R S. destruct l; try discriminate O; destruct e; cbn;
    unfold Socket.onError, Socket.onClose, Socket.onPacket, Socket.flush,
      Socket.onDrain;
    rewrite ?R, ?S; reflexivity.
Qed.

Lemma transportEmits_closed e ls : forall x,
  forallb ofSession ls = true ->
  Socket.readyState x = Socket.Closed ->
  Socket.sentCallbackFn x = [] ->
  Socket.log
    (fold_left
       (fun s l =>
          Socket.listener pdc l e
            (if Socket.once l
             then Socket.set_transport
                    (Transport.removeListener l (Socket.transport s)) s
             else s))
       ls x) = Socket.log x.
Proof.
  induction ls as [|l ls IH]; intros x F R S; simpl; auto.
  simpl in F. apply andb_prop in F as [F1 F2].
  rewrite listener_closed; auto; [|now destruct (Socket.once l)..].
  rewrite IH; auto; now destruct (Socket.once l).
Qed.

Lemma transportEmit_closed e x :
  sound x ->
  Socket.readyState x = Socket.Closed ->
  Socket.log (Socket.transportEmit pdc e x) = Socket.log x.
Proof.
  intros H R. unfold Socket.transportEmit.
  destruct (so_closed x H R) as (_ & _ & _ & _ & S & _).
  apply transportEmits_closed; auto.
  apply forallb_filter_ofSession, H.
Qed.

(** Nothing that happens to a closed session shows. *)
Lemma react_closed i x :
  sound x ->
  Socket.readyState x = Socket.Closed ->
  Socket.log (Life.react pdc i x) = Socket.log x.
Proof.
  intros H R.
  destruct (so_closed x H R) as (T1 & T2 & T3 & T4 & S & CL).
  destruct i as [e| |w|e|d o cb|d|n| |j|]; unfold Life.react.
  - now apply transportEmit_closed.
  - unfold Socket.transportOnEnd.
    rewrite transportEmit_closed; auto.
    revert H. apply sound_same; reflexivity.
  - reflexivity.
  - unfold Socket.candidateEmit.
    destruct (Socket.candidate x) as [c|] eqn:Cx; auto.
    pose proof (so_candidate x H) as Sh. unfold candidateShape in Sh.
    rewrite Cx in Sh. destruct Sh as [[_ Sh]|[Sh _]]; [congruence|].
    rewrite Sh. now destruct e.
  - cbn. now rewrite sendPacket_rejected by auto.
  - unfold Socket.close. now rewrite R.
  - destruct n.
    + unfold Socket.pingIntervalExpires. now rewrite T1.
    + unfold Socket.pingTimeoutExpires. now rewrite T2.
    + unfold Socket.checkIntervalTick. now rewrite T3.
    + unfold Socket.upgradeTimeoutExpires. now rewrite T4.
  - unfold Socket.runNextTick. now destruct (Socket.nextTick x).
  - rewrite R. now rewrite !orb_true_r.
  - unfold Socket.onClose. now rewrite R.
Qed.

Lemma run_closed inputs : forall x,
  sound x ->
  Socket.readyState x = Socket.Closed ->
  Socket.readyState (Life.run pdc inputs x) = Socket.Closed /\
  Socket.log (Life.run pdc inputs x) = Socket.log x.
Proof.
  induction inputs as [|i inputs IH]; intros x H R; simpl; auto.
  destruct (IH (Life.react pdc i x)) as [R' L'].
  - now apply sound_react.
  - now apply (t_closed x _ (tally_react pdc x x i (tally_refl x))).
  - split; [exact R'|]. rewrite L'. now apply react_closed.
Qed.

(** X2: a closed session is final.  Take a session as the constructor
    makes it, on a new transport, and let anything happen to it.  If it is
    closed then, no timer of it is pending and no send callback is waiting;
    and whatever happens next, it stays closed and does nothing that shows:
    no event is emitted, no callback invoked, no timer armed, nothing sent
    to or called on a transport. *)
Theorem closed_session_is_final i o j k before after :
  let s :=
    Life.run pdc before (Socket.create pdc i o (Transport.create j k)) in
  Socket.readyState s = Socket.Closed ->
  Socket.pingIntervalTimer s = None /\
  Socket.pingTimeoutTimer s = None /\
  Socket.checkIntervalTimer s = None /\
  Socket.upgradeTimeoutTimer s = None /\
  Socket.sentCallbackFn s = [] /\
  Socket.readyState (Life.run pdc after s) = Socket.Closed /\
  Socket.log (Life.run pdc after s) = Socket.log s.
Proof.
  intros s R.
  assert (H : sound s).
  { subst s. apply sound_run, sound_create. reflexivity. }
  destruct (so_closed s H R) as (T1 & T2 & T3 & T4 & S & _).
  destruct (run_closed after s H R) as [R' L'].
  auto 10.
Qed.

End Final.

(** ** Tearing a session down (Socket.onClose, Socket.clearTransport) *)

Section TearDown.

Variable pdc : Transport.t -> Transport.t * bool.

(** [onClose] on a session that is not closed, step by step. *)
Lemma onClose_open r d s :
  Socket.readyState s <> Socket.Closed ->
  Socket.onClose pdc r d s =
  Socket.emitClose pdc r d
    (Socket.clearTransport pdc
       (Socket.set_sentCallbackFn []
          (Socket.set_packetsFn []
             (Socket.set_nextTick true
                (Socket.clearTimer Socket.UpgradeTimeout
                   (Socket.clearTimer Socket.CheckInterval
                      (Socket.clearTimer Socket.PingTimeout
                         (Socket.clearTimer Socket.PingInterval
                            (Socket.set_readyState Socket.Closed s))))))))).
Proof.
  intros N. unfold Socket.onClose.
  destruct (Socket.readyState s); try congruence; reflexivity.
Qed.

(** What [emitClose] leaves of a state whose timers are cleared. *)
Lemma emitClose_fields r d z :
  let z' := Socket.emitClose pdc r d z in
  Socket.readyState z' = Socket.readyState z /\
  Socket.pingIntervalTimer z' = Socket.pingIntervalTimer z /\
  Socket.pingTimeoutTimer z' = Socket.pingTimeoutTimer z /\
  (Socket.checkIntervalTimer z = None -> Socket.checkIntervalTimer z' = None) /\
  (Socket.upgradeTimeoutTimer z = None ->
   Socket.upgradeTimeoutTimer z' = None) /\
  Socket.packetsFn z' = Socket.packetsFn z /\
  Socket.sentCallbackFn z' = Socket.sentCallbackFn z /\
  Socket.writeBuffer z' = Socket.writeBuffer z /\
  Socket.nextTick z' = Socket.nextTick z /\
  Socket.transport z' = Socket.transport z /\
  Socket.closeListener z' = false.
Proof.
  cbn zeta. unfold Socket.emitClose.
  cbn [Socket.closeListener Socket.emit Socket.record Socket.set_log].
  destruct (Socket.closeListener z) eqn:CL; [|cbn; auto 12].
  unfold Socket.upgradeOnError, Socket.closeCandidate, Socket.cleanup.
  cbn. destruct (Socket.candidate z); cbn; auto 12.
Qed.

Lemma cleared_fields cf ls y :
  let z := cleared pdc cf ls y in
  Socket.readyState z = Socket.readyState y /\
  Socket.pingIntervalTimer z = Socket.pingIntervalTimer y /\
  Socket.pingTimeoutTimer z = None /\
  Socket.checkIntervalTimer z = Socket.checkIntervalTimer y /\
  Socket.upgradeTimeoutTimer z = Socket.upgradeTimeoutTimer y /\
  Socket.packetsFn z = Socket.packetsFn y /\
  Socket.sentCallbackFn z = Socket.sentCallbackFn y /\
  Socket.writeBuffer z = Socket.writeBuffer y /\
  Socket.nextTick z = Socket.nextTick y /\
  Transport.listeners (Socket.transport z) = (ls ++ [Transport.Silence])%list /\
  Transport.tid (Socket.transport z) = Transport.tid (Socket.transport y).
Proof.
  cbn zeta. unfold cleared. cbn.
  rewrite close_listeners, close_tid. cbn. auto 12.
Qed.

(** X3: what [onClose] leaves of a session that was not closed.  The
    session is closed, its four timers are cleared, the callbacks that were
    waiting are dropped, and its transport has the listener that swallows
    errors as its last one.  "close" is emitted with the reason and the
    description, after the transport was told to close.  The write buffer
    is still there when "close" is emitted and is emptied by the next tick.
    A second [onClose] does nothing, whatever its reason. *)
Theorem onClose_tears_down r d r' d' s :
  Socket.readyState s <> Socket.Closed ->
  let s' := Socket.onClose pdc r d s in
  Socket.readyState s' = Socket.Closed /\
  Socket.pingIntervalTimer s' = None /\
  Socket.pingTimeoutTimer s' = None /\
  Socket.checkIntervalTimer s' = None /\
  Socket.upgradeTimeoutTimer s' = None /\
  Socket.packetsFn s' = [] /\
  Socket.sentCallbackFn s' = [] /\
  (exists ls,
     Transport.listeners (Socket.transport s') =
     (ls ++ [Transport.Silence])%list) /\
  (exists l,
     Socket.log s' =
     (Socket.log s ++
      [Socket.ClearTimer Socket.PingInterval;
       Socket.ClearTimer Socket.PingTimeout;
       Socket.ClearTimer Socket.CheckInterval;
       Socket.ClearTimer Socket.UpgradeTimeout;
       Socket.TClose (Transport.tid (Socket.transport s)) false;
       Socket.ClearTimer Socket.PingTimeout;
       Socket.Emit (Socket.EvClose r d)] ++ l)%list) /\
  Socket.writeBuffer s' = Socket.writeBuffer s /\
  Socket.writeBuffer (Socket.runNextTick s') = [] /\
  Socket.onClose pdc r' d' s' = s'.
Proof.
  intros N s'.
  assert (R : Socket.readyState s' = Socket.Closed)
    by apply onClose_closed.
  assert (I : Socket.onClose pdc r' d' s' = s')
    by (unfold Socket.onClose at 1; now rewrite R).
  subst s'. rewrite (onClose_open r d s N) in *.
  set (y := Socket.set_sentCallbackFn [] _) in *.
  destruct (clearTransport_shape pdc y) as (cf & ls & E).
  rewrite E in *. clear E.
  pose proof (cleared_fields cf ls y) as C. cbn zeta in C.
  destruct C as (C1 & C2 & C3 & C4 & C5 & C6 & C7 & C8 & C9 & C10 & C11).
  assert (L : Socket.log (cleared pdc cf ls y) =
              (Socket.log s ++
               [Socket.ClearTimer Socket.PingInterval;
                Socket.ClearTimer Socket.PingTimeout;
                Socket.ClearTimer Socket.CheckInterval;
                Socket.ClearTimer Socket.UpgradeTimeout;
                Socket.TClose (Transport.tid (Socket.transport s)) false;
                Socket.ClearTimer Socket.PingTimeout])%list).
  { unfold cleared. cbn. rewrite <- !app_assoc. reflexivity. }
  destruct (emitClose_log pdc r d (cleared pdc cf ls y)) as [l Hl].
  set (z := cleared pdc cf ls y) in *. clearbody z.
  pose proof (emitClose_fields r d z) as F. cbn zeta in F.
  destruct F as (F1 & F2 & F3 & F4 & F5 & F6 & F7 & F8 & F9 & F10 & F11).
  set (w := Socket.emitClose pdc r d z) in *. clearbody w.
  repeat split.
  - exact R.
  - now rewrite F2, C2.
  - now rewrite F3, C3.
  - apply F4. now rewrite C4.
  - apply F5. now rewrite C5.
  - now rewrite F6, C6.
  - now rewrite F7, C7.
  - exists ls. now rewrite F10, C10.
  - exists l. rewrite Hl, L, <- app_assoc. reflexivity.
  - now rewrite F8, C8.
  - unfold Socket.runNextTick. rewrite F9, C9. reflexivity.
  - exact I.
Qed.

End TearDown.

(** ** Giving an upgrade up (Socket.maybeUpgrade) *)

Section GivingUp.

Variable pdc : Transport.t -> Transport.t * bool.

(** What [onError] of [maybeUpgrade] makes of a session whose candidate is
    [c]. *)
Lemma upgradeOnError_fields s c :
  Socket.candidate s = Some c ->
  let s' := Socket.upgradeOnError pdc s in
  Socket.upgrading s' = false /\
  Socket.checkIntervalTimer s' = None /\
  Socket.upgradeTimeoutTimer s' = None /\
  Socket.closeListener s' = false /\
  Socket.candidate s' = None /\
  Socket.retired s' =
    (Socket.retired s ++ [fst (Transport.close pdc (unlistened c))])%list /\
  Socket.transport s' = Socket.transport s /\
  Socket.readyState s' = Socket.readyState s /\
  Socket.upgraded s' = Socket.upgraded s /\
  Socket.writeBuffer s' = Socket.writeBuffer s /\
  Socket.log s' =
    (Socket.log s ++
     [Socket.ClearTimer Socket.CheckInterval;
      Socket.ClearTimer Socket.UpgradeTimeout;
      Socket.TClose (Transport.tid c) false])%list.
Proof.
  intros Cx. cbn zeta.
  unfold Socket.upgradeOnError, Socket.closeCandidate, Socket.cleanup.
  cbn. rewrite Cx. cbn. rewrite <- !app_assoc. auto 12.
Qed.

(** X4: the upgrade timeout.  When it expires on a session whose candidate
    [c] has the listeners of [maybeUpgrade], the upgrade is over: the
    session is not upgrading, the check interval is cleared, the candidate
    has lost its listeners, and it is closed if it was open, else left as
    it is.  The session keeps its transport, its state and its [upgraded]
    flag, so that a later upgrade request is accepted again. *)
Theorem upgrade_timeout_gives_up s c ms :
  Socket.candidate s = Some c ->
  Socket.upgradeTimeoutTimer s = Some ms ->
  let s' := Socket.upgradeTimeoutExpires pdc s in
  Socket.upgrading s' = false /\
  Socket.checkIntervalTimer s' = None /\
  Socket.upgradeTimeoutTimer s' = None /\
  Socket.closeListener s' = false /\
  Socket.transport s' = Socket.transport s /\
  Socket.readyState s' = Socket.readyState s /\
  Socket.upgraded s' = Socket.upgraded s /\
  match Transport.readyState c with
  | Transport.Open =>
      Socket.candidate s' = None /\
      Socket.log s' =
        (Socket.log s ++
         [Socket.ClearTimer Socket.CheckInterval;
          Socket.ClearTimer Socket.UpgradeTimeout;
          Socket.TClose (Transport.tid c) false])%list
  | _ =>
      Socket.candidate s' = Some (unlistened c) /\
      Socket.log s' =
        (Socket.log s ++
         [Socket.ClearTimer Socket.CheckInterval;
          Socket.ClearTimer Socket.UpgradeTimeout])%list
  end /\
  (Transport.listeners c = upgradeListeners ->
   Transport.listeners (unlistened c) = []).
Proof.
  intros Cx T. cbn zeta. unfold Socket.upgradeTimeoutExpires. rewrite T.
  unfold Socket.cleanup, Socket.closeCandidate. cbn. rewrite Cx. cbn.
  destruct (Transport.readyState c); cbn; rewrite <- ?app_assoc;
    repeat split; auto; intros ->; reflexivity.
Qed.

(** X5: an upgrade is abandoned when its candidate [c] emits "error" or
    "close", and when the session closes.  In each case the candidate is
    closed and dropped, without its listeners, and the marks of the upgrade
    are taken down; an event of the candidate leaves the session on its
    transport, in its state, with its write buffer. *)
Theorem upgrade_abandoned s c err r d :
  Socket.candidate s = Some c ->
  Transport.listeners c = upgradeListeners ->
  Socket.closeListener s = true ->
  let gone s' :=
    Socket.upgrading s' = false /\
    Socket.checkIntervalTimer s' = None /\
    Socket.upgradeTimeoutTimer s' = None /\
    Socket.closeListener s' = false /\
    Socket.candidate s' = None /\
    exists c',
      Socket.retired s' = (Socket.retired s ++ [c'])%list /\
      Transport.tid c' = Transport.tid c /\
      Transport.listeners c' = [] in
  let kept s' :=
    Socket.transport s' = Socket.transport s /\
    Socket.readyState s' = Socket.readyState s /\
    Socket.upgraded s' = Socket.upgraded s /\
    Socket.writeBuffer s' = Socket.writeBuffer s /\
    Socket.log s' =
      (Socket.log s ++
       [Socket.ClearTimer Socket.CheckInterval;
        Socket.ClearTimer Socket.UpgradeTimeout;
        Socket.TClose (Transport.tid c) false])%list in
  (gone (Socket.candidateEmit pdc (Socket.TError err) s) /\
   kept (Socket.candidateEmit pdc (Socket.TError err) s)) /\
  (gone (Socket.candidateEmit pdc Socket.TClosed s) /\
   kept (Socket.candidateEmit pdc Socket.TClosed s)) /\
  (Socket.readyState s <> Socket.Closed ->
   gone (Socket.onClose pdc r d s) /\
   exists l,
     Socket.log (Socket.onClose pdc r d s) =
     (Socket.log s ++ l ++
      [Socket.Emit (Socket.EvClose r d);
       Socket.ClearTimer Socket.CheckInterval;
       Socket.ClearTimer Socket.UpgradeTimeout;
       Socket.TClose (Transport.tid c) false])%list).
Proof.
  intros Cx Lc CL. cbn zeta.
  assert (G : forall l,
    In l [Transport.UpgradeOnError; Transport.UpgradeOnTransportClose] ->
    let s' :=
      Socket.upgradeOnError pdc
        (Socket.set_candidate (Some (Transport.removeListener l c)) s) in
    (Socket.upgrading s' = false /\
     Socket.checkIntervalTimer s' = None /\
     Socket.upgradeTimeoutTimer s' = None /\
     Socket.closeListener s' = false /\
     Socket.candidate s' = None /\
     exists c',
       Socket.retired s' = (Socket.retired s ++ [c'])%list /\
       Transport.tid c' = Transport.tid c /\
       Transport.listeners c' = []) /\
    Socket.transport s' = Socket.transport s /\
    Socket.readyState s' = Socket.readyState s /\
    Socket.upgraded s' = Socket.upgraded s /\
    Socket.writeBuffer s' = Socket.writeBuffer s /\
    Socket.log s' =
      (Socket.log s ++
       [Socket.ClearTimer Socket.CheckInterval;
        Socket.ClearTimer Socket.UpgradeTimeout;
        Socket.TClose (Transport.tid c) false])%list).
  { intros l Hl.
    pose proof (upgradeOnError_fields
                  (Socket.set_candidate (Some (Transport.removeListener l c)) s)
                  (Transport.removeListener l c) eq_refl) as F.
    cbn zeta in *.
    destruct F as (F1 & F2 & F3 & F4 & F5 & F6 & F7 & F8 & F9 & F10 & F11).
    repeat split; auto.
    eexists. split; [exact F6|].
    rewrite close_tid, close_listeners. split; [reflexivity|].
    unfold unlistened, Transport.removeListener. cbn. rewrite Lc.
    destruct Hl as [<-|[<-|[]]]; reflexivity. }
  split; [|split].
  - unfold Socket.candidateEmit. rewrite Cx, Lc, upgradeListeners_handle.
    cbn [fold_left Socket.once]. rewrite Cx. cbn [option_map].
    apply (G Transport.UpgradeOnError). now left.
  - unfold Socket.candidateEmit. rewrite Cx, Lc, upgradeListeners_handle.
    cbn [fold_left Socket.once]. rewrite Cx. cbn [option_map].
    apply (G Transport.UpgradeOnTransportClose). right. now left.
  - intros N. rewrite (onClose_open pdc r d s N).
    set (y := Socket.set_sentCallbackFn [] _).
    destruct (clearTransport_shape pdc y) as (cf & ls & ->).
    set (z := cleared pdc cf ls y).
    assert (Cz : Socket.candidate z = Some c) by exact Cx.
    assert (CLz : Socket.closeListener z = true) by exact CL.
    assert (Rz : Socket.retired z = Socket.retired s) by reflexivity.
    assert (Lz : exists l, Socket.log z = (Socket.log s ++ l)%list).
    { subst z y. unfold cleared. cbn. rewrite <- !app_assoc.
      eexists. reflexivity. }
    clearbody z. clear y.
    unfold Socket.emitClose.
    cbn [Socket.closeListener Socket.emit Socket.record Socket.set_log].
    rewrite CLz.
    set (w := Socket.set_closeListener false _).
    pose proof (upgradeOnError_fields w c Cz) as F. cbn zeta in F.
    destruct F as (F1 & F2 & F3 & F4 & F5 & F6 & _ & _ & _ & _ & F11).
    destruct Lz as [l Hl].
    repeat split; auto.
    + eexists. split; [rewrite F6; subst w; cbn; rewrite Rz; reflexivity|].
      rewrite close_tid, close_listeners. split; [reflexivity|].
      now apply unlistened_upgradeListeners.
    + exists l. rewrite F11. subst w. cbn. rewrite Hl, <- !app_assoc.
      reflexivity.
Qed.

End GivingUp.

(** ** Events of the session's transport (Socket.setTransport, Socket.onPacket) *)

Lemma sessionListeners_handle e :
  filter (Socket.handles e) sessionListeners =
  match e with
  | Socket.TError _ => [Transport.OnError]
  | Socket.TPacket _ => [Transport.OnPacket]
  | Socket.TDrain => [Transport.Flush; Transport.OnDrain]
  | Socket.TClosed => [Transport.OnClose]
  end.
Proof. destruct e; reflexivity. Qed.

Section TransportEvents.

Variable pdc : Transport.t -> Transport.t * bool.

Lemma transportEmit_session e s :
  Transport.listeners (Socket.transport s) = sessionListeners ->
  Socket.transportEmit pdc e s =
  match e with
  | Socket.TError err =>
      Socket.onClose pdc "transport error" (Some err)
        (Socket.set_transport
           (Transport.removeListener Transport.OnError (Socket.transport s)) s)
  | Socket.TPacket p => Socket.onPacket pdc p s
  | Socket.TDrain => Socket.onDrain (Socket.flush pdc s)
  | Socket.TClosed =>
      Socket.onClose pdc "transport close" None
        (Socket.set_transport
           (Transport.removeListener Transport.OnClose (Socket.transport s)) s)
  end.
Proof.
  intros L. unfold Socket.transportEmit.
  rewrite L, sessionListeners_handle. destruct e; reflexivity.
Qed.

(** X6: a failing transport closes its session.  On a session that is not
    closed and listens to its transport as [setTransport] left it, an
    "error" of the transport closes the session with the reason "transport
    error" and the error as description, a "close" of the transport with
    the reason "transport close"; an error packet on an open session closes
    it with the reason "parse error".  Each time "close" is emitted once. *)
Theorem transport_failure_closes_session s err p :
  Transport.listeners (Socket.transport s) = sessionListeners ->
  Socket.readyState s <> Socket.Closed ->
  let closedWith r d s' :=
    Socket.readyState s' = Socket.Closed /\
    closes (Socket.log s') = S (closes (Socket.log s)) /\
    exists l1 l2,
      Socket.log s' =
      (Socket.log s ++ l1 ++ Socket.Emit (Socket.EvClose r d) :: l2)%list in
  closedWith "transport error" (Some err)
    (Socket.transportEmit pdc (Socket.TError err) s) /\
  closedWith "transport close" None
    (Socket.transportEmit pdc Socket.TClosed s) /\
  (Socket.readyState s = Socket.Open -> type p = "error" ->
   closedWith "parse error" None
     (Socket.transportEmit pdc (Socket.TPacket p) s)).
Proof.
  intros L N. cbn zeta.
  assert (G : forall r d y l0,
    Socket.readyState y <> Socket.Closed ->
    closes (Socket.log y) = closes (Socket.log s) ->
    Socket.log y = (Socket.log s ++ l0)%list ->
    Socket.readyState (Socket.onClose pdc r d y) = Socket.Closed /\
    closes (Socket.log (Socket.onClose pdc r d y)) = S (closes (Socket.log s)) /\
    exists l1 l2,
      Socket.log (Socket.onClose pdc r d y) =
      (Socket.log s ++ l1 ++ Socket.Emit (Socket.EvClose r d) :: l2)%list).
  { intros r d y l0 Ny Cy Ly.
    destruct (onClose_counts pdc r d y Ny) as [R C].
    destruct (onClose_emits pdc r d y Ny) as (l1 & l2 & E).
    split; [exact R|]. split; [now rewrite C, Cy|].
    exists (l0 ++ l1)%list, l2. rewrite E, Ly, <- !app_assoc. reflexivity. }
  rewrite !transportEmit_session by exact L.
  split; [|split].
  - apply (G _ _ _ []); auto. cbn. now rewrite app_nil_r.
  - apply (G _ _ _ []); auto. cbn. now rewrite app_nil_r.
  - intros O P. unfold Socket.onPacket. rewrite O, P.
    cbn [String.eqb Ascii.eqb Bool.eqb].
    eapply G.
    + cbn. congruence.
    + cbn. rewrite !closes_app. cbn. lia.
    + cbn. rewrite <- !app_assoc. reflexivity.
Qed.

(** X7: what becomes of an inbound packet.  A session that is not open
    drops it without a trace.  An open session announces it with "packet"
    and re-arms the ping timeout; a message packet is then handed to the
    application as "data" and as "message", in this order, with the
    packet's data, and the session stays open with its transport, its
    write buffer and its ping interval as they were. *)
Theorem inbound_packet_delivery s p :
  (Socket.readyState s <> Socket.Open -> Socket.onPacket pdc p s = s) /\
  (Socket.readyState s = Socket.Open -> type p = "message" ->
   let s' := Socket.onPacket pdc p s in
   Socket.log s' =
     (Socket.log s ++
      [Socket.Emit (Socket.EvPacket p);
       Socket.ClearTimer Socket.PingTimeout;
       Socket.SetTimer Socket.PingTimeout
         (pingInterval (Socket.opts s) + pingTimeout (Socket.opts s));
       Socket.Emit (Socket.EvData (data p));
       Socket.Emit (Socket.EvMessage (data p))])%list /\
   Socket.pingTimeoutTimer s' =
     Some (pingInterval (Socket.opts s) + pingTimeout (Socket.opts s)) /\
   Socket.readyState s' = Socket.Open /\
   Socket.transport s' = Socket.transport s /\
   Socket.writeBuffer s' = Socket.writeBuffer s /\
   Socket.pingIntervalTimer s' = Socket.pingIntervalTimer s).
Proof.
  split.
  - intros N. unfold Socket.onPacket.
    destruct (Socket.readyState s); congruence.
  - intros O P. cbn zeta. unfold Socket.onPacket. rewrite O, P.
    cbn. rewrite <- !app_assoc. auto 10.
Qed.

End TransportEvents.

(** ** Sessions in the client table (Server.handshake, Server.close) *)

Section Table.

Variable pdc : Transport.t -> Transport.t * bool.
Variable por : Http.Request -> Socket.t -> Socket.t.

Lemma create_open i o tr :
  Socket.readyState (Socket.create pdc i o tr) = Socket.Open.
Proof.
  unfold Socket.create.
  match goal with
  | |- context [Socket.onOpen pdc ?x] =>
      apply (onOpen_accounts pdc x eq_refl)
  end.
Qed.

Lemma create_kind i o tr :
  Transport.kind (Socket.transport (Socket.create pdc i o tr)) =
  Transport.kind tr.
Proof.
  unfold Socket.create, Socket.onOpen.
  set (x := Socket.set_transport _ (Socket.set_readyState Socket.Open _)).
  assert (K : Transport.kind (Socket.transport x) = Transport.kind tr)
    by reflexivity.
  clearbody x.
  match goal with
  | |- Transport.kind (Socket.transport ?y) = _ =>
      assert (S : stable x y)
  end.
  { apply stable_schedulePing, stable_emit.
    destruct (JS.truthy _);
      auto using stable_sendPacket, stable_refl. }
  now rewrite (st_kind _ _ S).
Qed.

Lemma tidy_sessionStep id f srv :
  tidy srv -> tidy (Server.sessionStep id f srv).
Proof.
  intros T. unfold Server.sessionStep.
  destruct (Server.clients srv !! id) as [s|] eqn:E; [|exact T].
  destruct (T id s E) as [N I]. apply (includes_In) in I.
  cbn [Server.closeHandlers Server.set_clients]. rewrite I, andb_true_r.
  destruct (Server.closedNow s (f s)) eqn:B.
  - intros x y Hx. cbn in Hx.
    destruct (decide (x = id)) as [->|Ne].
    + now rewrite lookup_delete_eq in Hx.
    + rewrite lookup_delete_ne, lookup_insert_ne in Hx by congruence.
      destruct (T x y Hx) as [Ny Iy]. split; [exact Ny|]. cbn.
      clear -Iy Ne. induction (Server.closeHandlers srv) as [|h r IH];
        cbn in *; [contradiction|].
      destruct (String.eqb_spec h id) as [->|Nh].
      * destruct Iy as [->|Iy]; [congruence|exact Iy].
      * destruct Iy as [->|Iy]; [now left|right; auto].
  - intros x y Hx. cbn in Hx. cbn.
    destruct (decide (x = id)) as [->|Ne].
    + rewrite lookup_insert_eq in Hx. injection Hx as <-.
      split; [|now apply includes_In].
      unfold Server.closedNow in B.
      destruct (Socket.readyState s), (Socket.readyState (f s));
        congruence.
    + rewrite lookup_insert_ne in Hx by congruence. exact (T x y Hx).
Qed.

Section Handshakes.

(** The polling transport does not close a session that the constructor
    has just made while [handshake] hands it its first request.  Nothing is
    asked of what it does to a session on a later request. *)
Hypothesis first_request :
  forall req id o i,
    Socket.readyState
      (por req
         (Socket.create pdc id o (Transport.create i Transport.Polling)))
    <> Socket.Closed.

Lemma tidy_handshake name req generated i srv :
  tidy srv -> tidy (fst (Server.handshake pdc por name req generated i srv)).
Proof.
  intros T. unfold Server.handshake.
  destruct generated as [id|]; [|exact T].
  assert (K : forall tr,
    Server.construct name req i = Some tr ->
    Socket.readyState
      (Server.onRequest por req (Socket.create pdc id (Server.opts srv) tr))
    <> Socket.Closed).
  { intros tr Cn. unfold Server.construct in Cn.
    unfold Server.onRequest. rewrite create_kind.
    destruct (String.eqb name "polling").
    - injection Cn as <-. apply first_request.
    - destruct (String.eqb name "websocket"), (Http.websocket req);
        try discriminate.
      injection Cn as <-. cbn [Transport.kind Transport.create].
      rewrite create_open. discriminate. }
  destruct (Server.construct name req i) as [tr|]; [|exact T].
  specialize (K tr eq_refl).
  intros x y Hx. cbn in Hx. cbn.
  destruct (decide (x = id)) as [->|Ne].
  - rewrite lookup_insert_eq in Hx. injection Hx as <-.
    split; [exact K|apply in_or_app; right; now left].
  - rewrite lookup_insert_ne in Hx by congruence.
    destruct (T x y Hx) as [Ny Iy]. split; [exact Ny|].
    apply in_or_app. now left.
Qed.

Lemma tidy_step srv srv' : step pdc por srv srv' -> tidy srv -> tidy srv'.
Proof.
  intros [name req generated i s F | req generated i s F | id f s | s] T.
  - now apply tidy_handshake.
  - unfold Server.handleRequest.
    destruct (Server.verify s _ false) as [req' [err ok]].
    destruct ok; cbn [negb fst]; [|exact T].
    destruct (Server.given _); cbn [fst].
    + now apply tidy_sessionStep.
    + destruct (Http.q_transport _); [|exact T].
      now apply tidy_handshake.
  - now apply tidy_sessionStep.
  - unfold Server.close.
    generalize (map fst (map_to_list (Server.clients s))). intros ids.
    revert s T. induction ids as [|id ids IH]; intros s T; cbn; auto.
    apply IH. now apply tidy_sessionStep.
Qed.

(** X8: a closed session does not stay in the client table.  At every
    stable point of a server, no session in [clients] is closed, and each
    is stored under a sid whose close handler is in place; so a session
    that closes is taken out of the table by that handler.  This holds as
    long as the polling transport does not close a new session while
    [handshake] hands it its first request, which is before the handler is
    registered; the transport may close a session on any later request. *)
Theorem closed_sessions_leave_table o srv id s :
  reachable pdc por o srv ->
  Server.clients srv !! id = Some s ->
  Socket.readyState s <> Socket.Closed /\
  In id (Server.closeHandlers srv).
Proof.
  intros R. revert id s. change (tidy srv).
  induction R as [|srv srv' R T St].
  - intros id s H. cbn in H. now rewrite lookup_empty in H.
  - eapply tidy_step; eauto.
Qed.

End Handshakes.

End Table.

Section Closing.

Variable pdc : Transport.t -> Transport.t * bool.
Variable por : Http.Request -> Socket.t -> Socket.t.

Lemma sessionStep_other id f srv x :
  x <> id ->
  Server.clients (Server.sessionStep id f srv) !! x = Server.clients srv !! x.
Proof.
  intros Ne. unfold Server.sessionStep.
  destruct (Server.clients srv !! id) as [s|]; [|reflexivity].
  destruct (_ && _); cbn.
  - now rewrite lookup_delete_ne, lookup_insert_ne by congruence.
  - now rewrite lookup_insert_ne by congruence.
Qed.

Lemma sessionStep_same id f srv y :
  Server.clients (Server.sessionStep id f srv) !! id = Some y ->
  exists s, Server.clients srv !! id = Some s /\ y = f s.
Proof.
  unfold Server.sessionStep.
  destruct (Server.clients srv !! id) as [s|] eqn:E; [|congruence].
  destruct (_ && _); cbn.
  - now rewrite lookup_delete_eq.
  - rewrite lookup_insert_eq. intros [= <-]. eauto.
Qed.

Lemma close_all ids : forall srv x y,
  Server.clients
    (fold_left
       (fun srv id =>
          Server.sessionStep id
            (fun s => fst (Socket.close pdc true s)) srv)
       ids srv) !! x = Some y ->
  (In x ids -> Socket.readyState y <> Socket.Open) /\
  (~ In x ids -> Server.clients srv !! x = Some y).
Proof.
  induction ids as [|id ids IH]; intros srv x y H; cbn in *.
  - split; [contradiction|auto].
  - destruct (IH _ x y H) as [A B]. split.
    + intros [<-|I]; [|auto].
      destruct (in_dec string_dec id ids) as [I|I]; [auto|].
      specialize (B I). apply sessionStep_same in B as (s & _ & ->).
      apply close_not_open.
    + intros N.
      rewrite <- (sessionStep_other id
                    (fun s => fst (Socket.close pdc true s)) srv x)
        by (intros ->; tauto).
      apply B. tauto.
Qed.

(** X9: [Server.close] leaves no session open.  Whatever the client table
    holds when [close] is called, no session that is in it when [close]
    returns is open. *)
Theorem server_close_leaves_none_open srv id s :
  Server.clients (Server.close pdc srv) !! id = Some s ->
  Socket.readyState s <> Socket.Open.
Proof.
  unfold Server.close. intros H.
  destruct (close_all _ _ _ _ H) as [A B].
  destruct (in_dec string_dec id (map fst (map_to_list (Server.clients srv))))
    as [I|I]; [auto|].
  specialize (B I). exfalso. apply I.
  apply in_map_iff. exists (id, s). split; [reflexivity|].
  apply list_elem_of_In, elem_of_map_to_list, B.
Qed.

(** X10: a handshake and the close of its session cancel out.  A
    websocket handshake under a sid that is not in use stores an open
    session under it, counts it and emits "connection"; when that session
    closes, the table, the count and the close handlers are what they were
    before the handshake. *)
Theorem handshake_then_close_restores req id i srv f :
  Http.websocket req = true ->
  Server.clients srv !! id = None ->
  ~ In id (Server.closeHandlers srv) ->
  let srv1 := fst (Server.handshake pdc por "websocket" req (Some id) i srv) in
  let born :=
    Socket.create pdc id (Server.opts srv)
      (Transport.create i Transport.WebSocket) in
  Server.clients srv1 !! id = Some born /\
  Socket.readyState born = Socket.Open /\
  Server.clientsCount srv1 = Server.clientsCount srv + 1 /\
  Server.connections srv1 = (Server.connections srv ++ [id])%list /\
  (Socket.readyState (f born) = Socket.Closed ->
   let srv2 := Server.sessionStep id f srv1 in
   Server.clients srv2 = Server.clients srv /\
   Server.clientsCount srv2 = Server.clientsCount srv /\
   Server.closeHandlers srv2 = Server.closeHandlers srv).
Proof.
  intros W F N. cbn zeta.
  assert (C : Server.construct "websocket" req i =
              Some (Transport.create i Transport.WebSocket))
    by (unfold Server.construct; cbn; now rewrite W).
  rewrite (handshake_registers pdc por "websocket" req id i srv _ C).
  cbn [Server.clients Server.clientsCount Server.connections
       Server.set_connections Server.set_closeHandlers
       Server.set_clientsCount Server.set_clients].
  unfold Server.onRequest. rewrite create_kind.
  cbn [Transport.kind Transport.create].
  set (born := Socket.create pdc id (Server.opts srv) _).
  assert (O : Socket.readyState born = Socket.Open) by apply create_open.
  clearbody born.
  assert (E : existsb (String.eqb id) (Server.closeHandlers srv ++ [id])
              = true).
  { apply (includes_In (Server.closeHandlers srv ++ [id]) id), in_or_app.
    right. now left. }
  rewrite lookup_insert_eq. repeat split; auto.
  - unfold Server.sessionStep. cbn. rewrite lookup_insert_eq.
    unfold Server.closedNow. rewrite O, H, E. cbn.
    rewrite delete_insert_eq, delete_insert_id by exact F. reflexivity.
  - unfold Server.sessionStep. cbn. rewrite lookup_insert_eq.
    unfold Server.closedNow. rewrite O, H, E. cbn. lia.
  - unfold Server.sessionStep. cbn. rewrite lookup_insert_eq.
    unfold Server.closedNow. rewrite O, H, E. cbn. clear -N.
    induction (Server.closeHandlers srv) as [|h r IH]; cbn in *.
    + now rewrite String.eqb_refl.
    + destruct (String.eqb_spec h id) as [->|Nh]; [tauto|].
      rewrite IH by tauto. reflexivity.
Qed.

End Closing.

(** ** Answers to requests (Server.handleRequest, Server.verify, sendErrorMessage) *)

Section Answers.

Variable pdc : Transport.t -> Transport.t * bool.
Variable por : Http.Request -> Socket.t -> Socket.t.

Lemma verify_keeps_accepted srv req up req' err :
  Server.verify srv req up = (req', (err, true)) -> req' = req.
Proof.
  unfold Server.verify.
  repeat match goal with
         | |- context [if ?b then _ else _] => destruct b
         | |- context [match ?x with _ => _ end] => destruct x
         end; intros E; try discriminate E; now injection E.
Qed.

(** X11: a request that is answered with an error changes nothing.
    Whenever [handleRequest] writes a response itself, which it only does
    to turn a request down, the server is as it was: no session is made,
    changed or removed.  A request that is let through is answered by the
    transport, not by [handleRequest]; and a request that [verify] accepts
    but [handshake] cannot serve is answered with the code BAD_REQUEST. *)
Theorem answered_request_changes_nothing req generated i srv sent :
  let req0 :=
    {| Http.method := Http.method req; Http.query := Http.query req;
       Http.origin := Http.origin req;
       Http.websocket := Http.websocket req; Http.res := true |} in
  snd (Server.handleRequest pdc por req generated i srv) = Some sent ->
  fst (Server.handleRequest pdc por req generated i srv) = srv /\
  (snd (snd (Server.verify srv req0 false)) = true ->
   sent = Server.sendErrorMessage req0 true (JS.Num Server.BAD_REQUEST)).
Proof.
  intros req0. unfold Server.handleRequest. fold req0.
  destruct (Server.verify srv req0 false) as [req' [err ok]] eqn:V.
  destruct ok; cbn [negb fst snd].
  - apply verify_keeps_accepted in V. subst req'.
    destruct (Server.given _); cbn [fst snd]; [discriminate|].
    destruct (Http.q_transport (Http.query req0)) as [name|];
      [|discriminate].
    unfold Server.handshake.
    destruct generated as [id|];
      [destruct (Server.construct name req0 i)|]; cbn [fst snd];
      try discriminate; intros [= <-]; split; auto.
  - intros [= <-]. split; [reflexivity|]. discriminate.
Qed.

Lemma valid_header_names :
  Server.checkInvalidHeaderChar (Some "application/json") = false /\
  Server.checkInvalidHeaderChar (Some "true") = false /\
  Server.checkInvalidHeaderChar (Some "*") = false.
Proof. repeat split; reflexivity. Qed.

Lemma sendErrorMessage_headers req code r :
  Server.checkInvalidHeaderChar (Http.origin req) = false ->
  Server.sendErrorMessage req true code = Server.Wrote r ->
  Forall (fun kv => Server.checkInvalidHeaderChar (Some (snd kv)) = false)
    (Http.headers r).
Proof.
  intros O. unfold Server.sendErrorMessage.
  destruct valid_header_names as (A & B & C).
  destruct (negb (Server.hasOwnProperty code)); intros [= <-]; cbn.
  - repeat constructor; exact A.
  - destruct (Http.origin req) as [o|] eqn:E; cbn.
    + destruct (String.eqb o ""); cbn; repeat constructor; auto.
    + repeat constructor; auto.
Qed.

(** X12: no invalid Origin in an error response.  When the transport named
    in the query is one the server has, every header value of an error
    response written by [handleRequest] is free of invalid characters: the
    Origin is copied into [Access-Control-Allow-Origin] only after
    [verify] has checked it, and replaced by "*" when it is invalid. *)
Theorem error_response_origin_is_checked req generated i srv name r :
  Http.q_transport (Http.query req) = Some name ->
  includes (transports (Server.opts srv)) name = true ->
  snd (Server.handleRequest pdc por req generated i srv)
    = Some (Server.Wrote r) ->
  Forall (fun kv => Server.checkInvalidHeaderChar (Some (snd kv)) = false)
    (Http.headers r).
Proof.
  intros Q K. unfold Server.handleRequest.
  set (req0 := {| Http.method := Http.method req |}).
  assert (V : exists req' answer,
             Server.verify srv req0 false = (req', answer) /\
             Server.checkInvalidHeaderChar (Http.origin req') = false /\
             Http.res req' = true).
  { unfold Server.verify.
    change (Http.q_transport (Http.query req0))
      with (Http.q_transport (Http.query req)).
    rewrite Q, K. cbn [negb].
    destruct (Server.checkInvalidHeaderChar (Http.origin req0)) eqn:O.
    - do 2 eexists. split; [reflexivity|]. split; reflexivity.
    - repeat match goal with
             | |- context [if ?b then _ else _] => destruct b
             | |- context [match ?x with _ => _ end] => destruct x
             end; do 2 eexists; (split; [reflexivity|]); split;
        try exact O; reflexivity. }
  destruct V as (req' & [err ok] & -> & O & Rs).
  destruct ok; cbn [negb fst snd].
  - destruct (Server.given _); cbn [fst snd]; [discriminate|].
    destruct (Http.q_transport (Http.query req')) as [nm|]; [|discriminate].
    unfold Server.handshake. rewrite Rs.
    destruct generated as [id|];
      [destruct (Server.construct nm req' i)|]; cbn [fst snd];
      try discriminate; intros E;
      apply (f_equal (default Server.Throws)) in E;
      eapply sendErrorMessage_headers; eauto.
  - intros E. apply (f_equal (default Server.Throws)) in E.
    eapply sendErrorMessage_headers; eauto.
Qed.

(** X13: an unknown transport is answered before the Origin is looked at.
    When the transport named in the query is not one the server has,
    [handleRequest] answers with status 400 and the code 0, and copies the
    request's Origin into [Access-Control-Allow-Origin] as it is, valid or
    not. *)
Theorem unknown_transport_answered_first req generated i srv o :
  match Http.q_transport (Http.query req) with
  | Some name => includes (transports (Server.opts srv)) name = false
  | None => True
  end ->
  Http.origin req = Some o ->
  o <> "" ->
  Server.handleRequest pdc por req generated i srv =
  (srv,
   Some
     (Server.Wrote
        {| Http.status := 400;
           Http.headers :=
             [("Content-Type", "application/json");
              ("Access-Control-Allow-Credentials", "true");
              ("Access-Control-Allow-Origin", o)];
           Http.body :=
             Json.stringify
               (Json.Obj [("code", Json.Num Server.UNKNOWN_TRANSPORT);
                          ("message", Json.Str "Transport unknown")]) |})).
Proof.
  intros K O N. unfold Server.handleRequest, Server.verify.
  cbn [Http.query Http.origin].
  replace (negb match Http.q_transport (Http.query req) with
                | Some name => includes (transports (Server.opts srv)) name
                | None => false
                end) with true
    by (destruct (Http.q_transport (Http.query req)); [now rewrite K|auto]).
  cbn [negb]. unfold Server.sendErrorMessage. cbn.
  rewrite O. cbn.
  destruct (String.eqb_spec o ""); [contradiction|]. reflexivity.
Qed.

End Answers.

(** ** Upgrade requests (Server.handleUpgrade, Server.onWebSocket, abortConnection) *)

Lemma prefix_app s t : String.prefix s (s ++ t) = true.
Proof.
  induction s as [|c s IH]; simpl; [now destruct t|].
  destruct (Ascii.ascii_dec c c); [exact IH|congruence].
Qed.

Lemma message_of_text bytes text :
  JS.utf8_text bytes = Some text ->
  Upgrade.message (JS.Buffer bytes) = Upgrade.message (JS.Str text).
Proof.
  intros T. unfold Upgrade.message, Server.hasOwnProperty, Server.errorMessage.
  cbn [JS.to_key JS.truthy]. rewrite T.
  destruct (Server.lookup_key text Server.errorMessages); [reflexivity|].
  destruct (String.eqb_spec text "") as [->|_]; reflexivity.
Qed.

(** X14: an upgrade request that [verify] turns down.  The connection is
    destroyed, and if it was writable it is first sent one raw response,
    which starts with the status line of a 400 whatever the code is, also
    for a code that an HTTP request would be answered with 403 for.  The
    body is the message of a listed code; a value that is not a listed code
    is its own message, and no value at all gives an empty body where the
    HTTP response says "Forbidden".  A Buffer counts as the text it
    holds. *)
Theorem upgrade_rejection srv req socket err n text bytes :
  snd (Server.verify srv req true) = (err, false) ->
  exists socket',
    Upgrade.handleUpgrade srv req socket = Upgrade.Aborted socket' /\
    Net.destroyed socket' = true /\
    Net.written socket' =
      (Net.written socket ++
       if Net.writable socket
       then [option_map Upgrade.badRequest (Upgrade.message err)]
       else [])%list /\
    (forall m,
       String.prefix "HTTP/1.1 400 Bad Request" (Upgrade.badRequest m) = true) /\
    Upgrade.message (JS.Num n) =
      Some match messageOf n with
           | Some m => m
           | None => JS.string_of_Z n
           end /\
    Upgrade.message JS.Null = Some "" /\
    Upgrade.message JS.Undefined = Some "" /\
    (Server.hasOwnProperty (JS.Str text) = false ->
     Upgrade.message (JS.Str text) = Some text) /\
    (JS.utf8_text bytes = Some text ->
     Upgrade.message (JS.Buffer bytes) = Upgrade.message (JS.Str text)).
Proof.
  intros V. unfold Upgrade.handleUpgrade.
  destruct (Server.verify srv req true) as [req' [e ok]].
  cbn in V. injection V as -> ->. cbn [negb].
  eexists. split; [reflexivity|].
  split; [reflexivity|]. split.
  { unfold Upgrade.abortConnection. cbn.
    destruct (Net.writable socket); cbn; now rewrite ?app_nil_r. }
  split; [intros m; apply (prefix_app "HTTP/1.1 400 Bad Request")|].
  split.
  { unfold Upgrade.message, Server.hasOwnProperty.
    rewrite errorMessages_codes.
    destruct (messageOf n) eqn:M; [reflexivity|].
    assert (N : n <> 0) by (intros ->; discriminate M).
    cbn. destruct (Z.eqb_spec n 0); [contradiction|reflexivity]. }
  split; [reflexivity|]. split; [reflexivity|]. split.
  - intros H. unfold Upgrade.message. rewrite H. cbn.
    destruct (String.eqb_spec text ""); [now subst|reflexivity].
  - apply message_of_text.
Qed.

Lemma entry_eq_dec (a b : Upgrade.Entry) : {a = b} + {a <> b}.
Proof. decide equality. apply Bool.bool_dec. Defined.

Section WebSocketConnections.

Variable pdc : Transport.t -> Transport.t * bool.
Variable por : Http.Request -> Socket.t -> Socket.t.

Lemma onWebSocket_goes_on req generated i srv :
  Upgrade.entry (Http.q_transport (Http.query req))
    <> Upgrade.HandlesUpgrades false ->
  Upgrade.entry (Http.q_transport (Http.query req)) <> Upgrade.NoPrototype ->
  Upgrade.onWebSocket pdc por req generated i srv =
  let req' :=
    {| Http.method := Http.method req; Http.query := Http.query req;
       Http.origin := Http.origin req; Http.websocket := true;
       Http.res := Http.res req |} in
  match Server.given (Http.q_sid (Http.query req)) with
  | Some id =>
      match Server.clients srv !! id with
      | None =>
          if Upgrade.inheritedKey id then (srv, Upgrade.Throws)
          else (srv, Upgrade.SocketClosed)
      | Some client =>
          if Socket.upgrading client then (srv, Upgrade.SocketClosed)
          else if Socket.upgraded client then (srv, Upgrade.SocketClosed)
          else
            match
              match Http.q_transport (Http.query req) with
              | Some n => Server.construct n req' i
              | None => None
              end
            with
            | Some transport =>
                (Server.set_clients
                   (<[id := Socket.maybeUpgrade transport client]>
                      (Server.clients srv)) srv,
                 Upgrade.MaybeUpgrade id i)
            | None => (srv, Upgrade.Throws)
            end
      end
  | None =>
      match Http.q_transport (Http.query req) with
      | Some n =>
          (fst (Server.handshake pdc por n req' generated i srv),
           Upgrade.Handshake
             (snd (Server.handshake pdc por n req' generated i srv)))
      | None =>
          (srv,
           Upgrade.Handshake
             (Some (Server.sendErrorMessage req' (Http.res req')
                      (JS.Num Server.BAD_REQUEST))))
      end
  end.
Proof.
  intros N1 N2. unfold Upgrade.onWebSocket.
  destruct (Upgrade.entry (Http.q_transport (Http.query req))) as [| |[]];
    try congruence;
    cbn zeta; cbn [Http.query Http.q_sid];
    destruct (Server.given _); try reflexivity;
    destruct (Http.q_transport (Http.query req)) as [name|];
    try reflexivity;
    now destruct (Server.handshake pdc por name _ generated i srv).
Qed.

Lemma entry_refuses name :
  Upgrade.entry name = Upgrade.HandlesUpgrades false <->
  name = Some "polling" \/ name = Some "constructor".
Proof.
  unfold Upgrade.entry. destruct name as [n|].
  - destruct (String.eqb_spec n "polling") as [->|N1]; [split; auto|].
    destruct (String.eqb_spec n "websocket") as [->|N2].
    { split; [discriminate|]. intros [H|H]; discriminate H. }
    destruct (String.eqb_spec n "constructor") as [->|N3]; [split; auto|].
    split.
    + destruct (includes Upgrade.inherited n); discriminate.
    + intros [H|H]; congruence.
  - split; [discriminate|]. intros [H|H]; discriminate H.
Qed.

(** X15: when [onWebSocket] closes the connection it was given.  It does
    so exactly when the query names a transport whose prototype does not
    handle upgrades, which is so of polling and of the name constructor,
    or names a sid for which the client table gives nothing, or one whose
    session is upgrading or has been upgraded; and then the server is left
    as it was.  The table gives nothing for a sid that is neither stored in
    it nor the name of something every object inherits; for such a name
    that is not stored, the inherited value is taken for the session and
    [onWebSocket] throws, without closing the connection.  The sid is not
    looked at when the transport is the name of an inherited method: the
    test of the transport throws on those. *)
Theorem websocket_connection_refused req generated i srv :
  let name := Http.q_transport (Http.query req) in
  let refused :=
    Upgrade.entry name = Upgrade.HandlesUpgrades false \/
    (Upgrade.entry name <> Upgrade.NoPrototype /\
     exists id,
       Server.given (Http.q_sid (Http.query req)) = Some id /\
       match Server.clients srv !! id with
       | None => Upgrade.inheritedKey id = false
       | Some client =>
           Socket.upgrading client = true \/ Socket.upgraded client = true
       end) in
  (snd (Upgrade.onWebSocket pdc por req generated i srv) = Upgrade.SocketClosed
   <-> refused) /\
  (refused -> fst (Upgrade.onWebSocket pdc por req generated i srv) = srv) /\
  (Upgrade.entry name = Upgrade.HandlesUpgrades false <->
   name = Some "polling" \/ name = Some "constructor") /\
  (Upgrade.entry name = Upgrade.NoPrototype ->
   Upgrade.onWebSocket pdc por req generated i srv = (srv, Upgrade.Throws)) /\
  (forall id,
     Upgrade.entry name <> Upgrade.HandlesUpgrades false ->
     Server.given (Http.q_sid (Http.query req)) = Some id ->
     Server.clients srv !! id = None ->
     Upgrade.inheritedKey id = true ->
     Upgrade.onWebSocket pdc por req generated i srv = (srv, Upgrade.Throws)) /\
  (forall id,
     Upgrade.inheritedKey id = true <->
     id = "constructor" \/ In id Upgrade.inherited).
Proof.
  cbn zeta.
  split; [|split; [|split; [apply entry_refuses|split; [|split]]]]; cycle 2.
  { intros E. unfold Upgrade.onWebSocket. now rewrite E. }
  { intros id P S C K.
    destruct (entry_eq_dec (Upgrade.entry (Http.q_transport (Http.query req)))
                Upgrade.NoPrototype) as [Q|Q].
    - unfold Upgrade.onWebSocket. now rewrite Q.
    - rewrite (onWebSocket_goes_on req generated i srv P Q). cbn zeta.
      now rewrite S, C, K. }
  { intros id. unfold Upgrade.inheritedKey. rewrite orb_true_iff.
    rewrite includes_In.
    destruct (String.eqb_spec id "constructor"); split;
      intros [H|H]; auto; congruence. }
  all: destruct (entry_eq_dec (Upgrade.entry (Http.q_transport (Http.query req)))
               (Upgrade.HandlesUpgrades false)) as [P|P];
    [unfold Upgrade.onWebSocket; rewrite P; cbn; solve [split; auto | auto]|].
  all: destruct (entry_eq_dec (Upgrade.entry (Http.q_transport (Http.query req)))
               (Upgrade.NoPrototype)) as [Q|Q];
    [unfold Upgrade.onWebSocket; rewrite Q; cbn;
     solve [split; [discriminate|intros [H|[H _]]; congruence]
           | intros _; reflexivity]|].
  all: rewrite (onWebSocket_goes_on req generated i srv P Q); cbn zeta.
  all: destruct (Server.given (Http.q_sid (Http.query req))) as [id|] eqn:S.
  all: try destruct (Server.clients srv !! id) as [c|] eqn:C.
  all: try destruct (Socket.upgrading c) eqn:U1.
  all: try destruct (Socket.upgraded c) eqn:U2.
  all: try destruct (Upgrade.inheritedKey id) eqn:K.
  all: repeat match goal with
       | |- context [match ?t with Some _ => _ | None => _ end] =>
           destruct t
       end; cbn [fst snd].
  all: try (intros _; reflexivity).
  all: try (split; [intros _; right; split; [exact Q|];
                    exists id; rewrite C; auto|reflexivity]).
  all: try (split; [discriminate|]).
  all: intros [H|(_ & x & E & H)]; try contradiction; try discriminate E.
  all: injection E as <-; rewrite C in H; try congruence;
    destruct H; congruence.
Qed.

(** X16: one upgrade at a time.  A websocket connection for the sid of a
    session that is neither upgrading nor upgraded starts an upgrade on a
    new websocket transport: the session is upgrading, with the upgrade
    timeout armed and the transport as its candidate, and the count of
    clients is what it was.  Any further connection for that sid is then
    closed and changes nothing, whatever transport it names (the names of
    inherited methods apart, on which [onWebSocket] throws). *)
Theorem one_upgrade_at_a_time req req' generated generated' i i' srv id c :
  Http.q_transport (Http.query req) = Some "websocket" ->
  Server.given (Http.q_sid (Http.query req)) = Some id ->
  Server.given (Http.q_sid (Http.query req')) = Some id ->
  Server.clients srv !! id = Some c ->
  Socket.upgrading c = false ->
  Socket.upgraded c = false ->
  let first := Upgrade.onWebSocket pdc por req generated i srv in
  let c' := Socket.maybeUpgrade (Transport.create i Transport.WebSocket) c in
  snd first = Upgrade.MaybeUpgrade id i /\
  Server.clients (fst first) = <[id := c']> (Server.clients srv) /\
  Server.clientsCount (fst first) = Server.clientsCount srv /\
  Socket.upgrading c' = true /\
  Socket.upgradeTimeoutTimer c' = Some (upgradeTimeout (Socket.opts c)) /\
  Socket.transport c' = Socket.transport c /\
  (Upgrade.entry (Http.q_transport (Http.query req')) <> Upgrade.NoPrototype ->
   Upgrade.onWebSocket pdc por req' generated' i' (fst first) =
     (fst first, Upgrade.SocketClosed)).
Proof.
  intros Q S S' C U1 U2. cbn zeta.
  assert (F : Upgrade.onWebSocket pdc por req generated i srv =
              (Server.set_clients
                 (<[id := Socket.maybeUpgrade
                            (Transport.create i Transport.WebSocket) c]>
                    (Server.clients srv)) srv,
               Upgrade.MaybeUpgrade id i)).
  { unfold Upgrade.onWebSocket. rewrite Q. cbn. rewrite S.
    cbn. rewrite C, U1, U2. reflexivity. }
  rewrite F. cbn [fst snd Server.clients Server.clientsCount
                  Server.set_clients].
  repeat split.
  intros N. unfold Upgrade.onWebSocket.
  destruct (Upgrade.entry _) as [| |[]];
    try reflexivity; try contradiction;
    cbn [Http.query Http.q_sid]; rewrite S'; cbn;
    rewrite lookup_insert_eq; reflexivity.
Qed.

Lemma reachable_consistent o srv :
  reachable pdc por o srv -> consistent srv.
Proof.
  induction 1 as [|srv srv' R C St].
  - apply consistent_create.
  - eapply consistent_step; eauto.
Qed.

(** X17: a websocket connection takes a server from one stable point to
    the next, like a request does.  What [onWebSocket] leaves is a state
    the server can be in, so the count of clients is still the size of the
    table; and when the connection is for an existing sid, the table has
    the same sids as before. *)
Theorem websocket_connection_is_a_step o req generated i srv :
  unusedId srv generated ->
  reachable pdc por o srv ->
  let srv' := fst (Upgrade.onWebSocket pdc por req generated i srv) in
  reachable pdc por o srv' /\
  Server.clientsCount srv' = Z.of_nat (size (Server.clients srv')) /\
  (Server.given (Http.q_sid (Http.query req)) <> None ->
   forall id, is_Some (Server.clients srv' !! id) <->
              is_Some (Server.clients srv !! id)).
Proof.
  intros F R. cbn zeta.
  assert (G : reachable pdc por o
                (fst (Upgrade.onWebSocket pdc por req generated i srv)) /\
              (Server.given (Http.q_sid (Http.query req)) <> None ->
               forall id,
                 is_Some (Server.clients
                            (fst (Upgrade.onWebSocket pdc por req generated
                                    i srv)) !! id) <->
                 is_Some (Server.clients srv !! id))).
  { destruct (entry_eq_dec (Upgrade.entry (Http.q_transport (Http.query req)))
               (Upgrade.HandlesUpgrades false)) as [P|P].
    { unfold Upgrade.onWebSocket. rewrite P. cbn.
      split; [exact R|reflexivity]. }
    destruct (entry_eq_dec (Upgrade.entry (Http.q_transport (Http.query req)))
               (Upgrade.NoPrototype)) as [Q|Q].
    { unfold Upgrade.onWebSocket. rewrite Q. cbn.
      split; [exact R|reflexivity]. }
    rewrite (onWebSocket_goes_on req generated i srv P Q). cbn zeta.
    destruct (Server.given (Http.q_sid (Http.query req))) as [id|] eqn:S.
    - destruct (Server.clients srv !! id) as [c|] eqn:C;
        [|destruct (Upgrade.inheritedKey id);
          (split; [exact R|reflexivity])].
      destruct (Socket.upgrading c); [split; [exact R|reflexivity]|].
      destruct (Socket.upgraded c); [split; [exact R|reflexivity]|].
      match goal with
      | |- context [match ?t with Some _ => _ | None => _ end] =>
          destruct t as [tr|]
      end; [|split; [exact R|reflexivity]].
      cbn [fst]. split.
      + replace (Server.set_clients _ srv)
          with (Server.sessionStep id (Socket.maybeUpgrade tr) srv).
        * eapply reach_step; [exact R|apply step_session].
        * unfold Server.sessionStep. rewrite C. unfold Server.closedNow.
          change (Socket.readyState (Socket.maybeUpgrade tr c))
            with (Socket.readyState c).
          now destruct (Socket.readyState c).
      + intros _ x. cbn. destruct (decide (x = id)) as [->|Ne].
        * rewrite lookup_insert_eq, C. split; eauto.
        * now rewrite lookup_insert_ne by congruence.
    - destruct (Http.q_transport (Http.query req)) as [name|];
        [|split; [exact R|congruence]].
      cbn [fst]. split; [|congruence].
      eapply reach_step; [exact R|]. now apply step_handshake. }
  destruct G as [G1 G2]. split; [exact G1|]. split; [|exact G2].
  apply (reachable_consistent o _ G1).
Qed.

End WebSocketConnections.

(** ** The path of an attached server (Server.attach) *)

Lemma dropTrailingSlash_snoc q c :
  Attach.dropTrailingSlash (q ++ String c "") =
  if Ascii.eqb c "/" then q else q ++ String c "".
Proof.
  induction q as [|a q IH].
  - simpl. destruct (Ascii.eqb c "/"); reflexivity.
  - change (String a q ++ String c "") with (String a (q ++ String c "")).
    assert (E : forall r,
      Attach.dropTrailingSlash (String a (r ++ String c "")) =
      String a (Attach.dropTrailingSlash (r ++ String c "")))
      by (intros r; now destruct r).
    rewrite E, IH. now destruct (Ascii.eqb c "/").
Qed.

Lemma snoc_not_empty q c : String.eqb (q ++ String c "") "" = false.
Proof. now destruct q. Qed.

Lemma check_prefix p : forall url,
  Attach.check p url = true <-> exists rest, url = p ++ rest.
Proof.
  unfold Attach.check. induction p as [|c p IH]; intros url.
  - split; [intros _; now exists url|intros _; now destruct url].
  - destruct url as [|d u]; simpl.
    + split; [discriminate|]. intros [rest E]. discriminate E.
    + destruct (Ascii.eqb_spec c d) as [->|N].
      * rewrite IH. split; intros [rest E]; exists rest.
        -- rewrite E. reflexivity.
        -- change (String d p ++ rest) with (String d (p ++ rest)) in E.
           congruence.
      * split; [discriminate|]. intros [rest E].
        change (String c p ++ rest) with (String c (p ++ rest)) in E.
        congruence.
Qed.

Lemma path_with_slash r : Attach.path (Some (r ++ "/")) = r ++ "/".
Proof.
  unfold Attach.path, Server.given.
  rewrite (snoc_not_empty r "/"), (dropTrailingSlash_snoc r "/").
  reflexivity.
Qed.

Lemma path_without_slash q c :
  c <> "/"%char ->
  Attach.path (Some (q ++ String c "")) = (q ++ String c "") ++ "/".
Proof.
  intros N. unfold Attach.path, Server.given.
  rewrite snoc_not_empty, dropTrailingSlash_snoc.
  destruct (Ascii.eqb_spec c "/"); [contradiction|reflexivity].
Qed.

(** X18: the path [attach] listens on.  A path given with a slash at its
    end is used as it is, a path given without one gets one, so that both
    spellings name the same path; normalising twice changes nothing; and
    without a path, or with an empty one, the path is "/engine.io/". *)
Theorem attach_path_normalised p q c :
  Attach.path (Some (q ++ "/")) = q ++ "/" /\
  (c <> "/"%char ->
   Attach.path (Some (q ++ String c "")) = (q ++ String c "") ++ "/") /\
  Attach.path (Some (Attach.path p)) = Attach.path p /\
  Attach.path None = "/engine.io/" /\
  Attach.path (Some "") = "/engine.io/".
Proof.
  split; [apply path_with_slash|].
  split; [apply path_without_slash|].
  split; [|split; reflexivity].
  unfold Attach.path at 2 3. apply path_with_slash.
Qed.

(** X19: which requests [attach] takes.  A request goes to the engine
    exactly when its URL starts with the path, and to the listeners the
    HTTP server had before otherwise, to each of them in their order and
    not to the engine.  A URL that is the path without its final slash is
    not taken. *)
Theorem attach_routes_by_prefix path listeners url q c :
  (Attach.onRequest path listeners url = Attach.Engine <->
   exists rest, url = path ++ rest) /\
  (Attach.onRequest path listeners url = Attach.Engine \/
   Attach.onRequest path listeners url = Attach.Listeners listeners) /\
  (c <> "/"%char ->
   Attach.onRequest (Attach.path (Some (q ++ String c ""))) listeners
     (q ++ String c "") = Attach.Listeners listeners).
Proof.
  unfold Attach.onRequest. split; [|split].
  - rewrite <- check_prefix. destruct (Attach.check path url);
      split; auto; discriminate.
  - destruct (Attach.check path url); auto.
  - intros N.
    rewrite (path_without_slash q c N).
    destruct (Attach.check _ _) eqn:E; [|reflexivity].
    apply check_prefix in E as [rest E].
    apply (f_equal String.length) in E.
    assert (L : forall a b,
      String.length (a ++ b) = (String.length a + String.length b)%nat).
    { clear. intros a b. induction a as [|x a IH]; [reflexivity|].
      change (String x a ++ b) with (String x (a ++ b)).
      cbn [String.length]. now rewrite IH. }
    rewrite !L in E. cbn [String.length] in E. lia.
Qed.

(** ** Send callbacks on a websocket (Socket.send, Socket.flush, Socket.setupSendCallback) *)

Section Callbacks.

Variable pdc : Transport.t -> Transport.t * bool.

(** [flush] on a session that has packets to send, a writable transport
    and nobody waiting for "drain". *)
Lemma flush_now q :
  flushes q = true ->
  Socket.drainListeners q = [] ->
  let y := Socket.flush pdc q in
  Socket.log y =
    (Socket.log q ++
     [Socket.Emit (Socket.EvFlush (Socket.writeBuffer q));
      Socket.ServerEmit (Socket.EvFlush (Socket.writeBuffer q));
      Socket.TSend (Transport.tid (Socket.transport q)) (Socket.writeBuffer q);
      Socket.Emit Socket.EvDrain;
      Socket.ServerEmit Socket.EvDrain])%list /\
  Socket.transport y =
    Transport.send (Socket.writeBuffer q) (Socket.transport q) /\
  Socket.writeBuffer y = [] /\
  Socket.packetsFn y = [] /\
  Socket.sentCallbackFn y =
    (Socket.sentCallbackFn q ++ movedCallbacks q)%list /\
  Socket.readyState y = Socket.readyState q /\
  Socket.drainListeners y = [].
Proof.
  intros F D. cbn zeta.
  destruct (flush_fires pdc q F) as (x & E & W & P & C & T & R & Dx & L).
  rewrite E, emitDrain_eq, Dx, D. cbn.
  rewrite L, <- !app_assoc. cbn. auto 10.
Qed.

(** A write of the websocket completes, on a session that listens to its
    transport as [setTransport] left it. *)
Lemma transportOnEnd_session x :
  Transport.listeners (Socket.transport x) = sessionListeners ->
  Socket.transportOnEnd pdc x =
  Socket.onDrain
    (Socket.flush pdc
       (Socket.set_transport (Transport.onEnd (Socket.transport x)) x)).
Proof.
  intros L. unfold Socket.transportOnEnd.
  now rewrite transportEmit_session.
Qed.

Lemma websocket_send_one p tr :
  Transport.kind tr = Transport.WebSocket ->
  Transport.send [p] tr =
  Transport.set_writable false
    (Transport.set_wire (Transport.wire tr ++ [[p]]) tr).
Proof. intros K. unfold Transport.send. now rewrite K. Qed.

(** X20: when a send callback is called.  On an open session over a
    websocket with nothing queued, the callback given to [send] is called
    by the transport's next "drain", once.  If the transport was writable,
    that is when the write of the packet completes.  If a write was in
    flight, the packet waits in the write buffer, and the completion of
    that earlier write hands it to the transport and calls the callback
    right away, before the packet's own write completes. *)
Theorem send_callback_timing s d f :
  Transport.kind (Socket.transport s) = Transport.WebSocket ->
  Transport.listeners (Socket.transport s) = sessionListeners ->
  Socket.readyState s = Socket.Open ->
  Socket.writeBuffer s = [] ->
  Socket.packetsFn s = [] ->
  Socket.sentCallbackFn s = [] ->
  Socket.drainListeners s = [] ->
  let pkt := packetOf "message" d Socket.NoOptions in
  let handing :=
    [Socket.Emit (Socket.EvFlush [pkt]);
     Socket.ServerEmit (Socket.EvFlush [pkt]);
     Socket.TSend (Transport.tid (Socket.transport s)) [pkt];
     Socket.Emit Socket.EvDrain;
     Socket.ServerEmit Socket.EvDrain] in
  let s1 := fst (Socket.send pdc d Socket.NoOptions (Some f) s) in
  let s2 := Socket.transportOnEnd pdc s1 in
  if Transport.writable (Socket.transport s) then
    Socket.log s1 =
      (Socket.log s ++ Socket.Emit (Socket.EvPacketCreate pkt) :: handing)%list /\
    Transport.writable (Socket.transport s1) = false /\
    Socket.log s2 = (Socket.log s1 ++ [Socket.Invoke f])%list /\
    Transport.writable (Socket.transport s2) = true /\
    Socket.log (Socket.transportOnEnd pdc s2) = Socket.log s2
  else
    Socket.log s1 =
      (Socket.log s ++ [Socket.Emit (Socket.EvPacketCreate pkt)])%list /\
    Socket.writeBuffer s1 = [pkt] /\
    Socket.log s2 = (Socket.log s1 ++ handing ++ [Socket.Invoke f])%list /\
    Transport.writable (Socket.transport s2) = false /\
    Socket.log (Socket.transportOnEnd pdc s2) = Socket.log s2.
Proof.
  intros K L O W P C D. cbn zeta.
  unfold Socket.send. cbn [fst].
  rewrite sendPacket_accepted by auto.
  change (callbackOf Socket.NoOptions (Some f)) with [f].
  set (pkt := packetOf "message" d Socket.NoOptions).
  set (q := enqueue pkt [f] s).
  assert (Wq : Socket.writeBuffer q = [pkt]) by (subst q; cbn; now rewrite W).
  assert (Pq : Socket.packetsFn q = [f]) by (subst q; cbn; now rewrite P).
  assert (Cq : Socket.sentCallbackFn q = []) by exact C.
  assert (Dq : Socket.drainListeners q = []) by exact D.
  assert (Oq : Socket.readyState q = Socket.Open) by exact O.
  assert (Tq : Socket.transport q = Socket.transport s) by reflexivity.
  assert (Lq : Socket.log q =
               (Socket.log s ++ [Socket.Emit (Socket.EvPacketCreate pkt)])%list)
    by reflexivity.
  clearbody q.
  assert (M : forall x,
    Socket.packetsFn x = [f] ->
    Transport.kind (Socket.transport x) = Transport.WebSocket ->
    movedCallbacks x = [Socket.Fn f]).
  { intros x Px Kx. unfold movedCallbacks, Transport.supportsFraming.
    now rewrite Kx, Px. }
  (* what a "drain" does once the packet has been handed over *)
  assert (G : forall y,
    Transport.listeners (Socket.transport y) = sessionListeners ->
    Socket.writeBuffer y = [] ->
    Socket.sentCallbackFn y = [Socket.Fn f] ->
    let z := Socket.transportOnEnd pdc y in
    Socket.log z = (Socket.log y ++ [Socket.Invoke f])%list /\
    Transport.writable (Socket.transport z) = true /\
    Socket.log (Socket.transportOnEnd pdc z) = Socket.log z).
  { intros y Ly Wy Cy. cbn zeta.
    rewrite (transportOnEnd_session y Ly).
    rewrite flush_idle
      by (unfold flushes; cbn; rewrite Wy; now rewrite !andb_false_r).
    set (y' := Socket.set_transport _ y).
    rewrite (onDrain_entry y' (Socket.Fn f) [] Cy).
    cbn [Socket.log Socket.set_log Socket.transport Socket.set_sentCallbackFn
         functionsOf map].
    split; [reflexivity|]. split; [reflexivity|].
    rewrite transportOnEnd_session by exact Ly.
    rewrite flush_idle
      by (unfold flushes; cbn; rewrite Wy; now rewrite !andb_false_r).
    reflexivity. }
  destruct (Transport.writable (Socket.transport s)) eqn:Wr.
  - assert (F : flushes q = true)
      by (unfold flushes; now rewrite Oq, Tq, Wr, Wq).
    destruct (flush_now q F Dq) as (X1 & X2 & X3 & X4 & X5 & X6 & X7).
    set (s1 := Socket.flush pdc q) in *. clearbody s1.
    rewrite Wq, Tq in X1, X2. rewrite Cq, (M q Pq) in X5 by now rewrite Tq.
    rewrite (websocket_send_one pkt _ K) in X2.
    destruct (G s1) as (G1 & G2 & G3); auto.
    { now rewrite X2. }
    repeat split; auto.
    + rewrite X1, Lq, <- app_assoc. reflexivity.
    + now rewrite X2.
  - assert (F : flushes q = false)
      by (unfold flushes; now rewrite Oq, Tq, Wr).
    rewrite (flush_idle pdc q F).
    assert (Lt : Transport.listeners (Socket.transport q) = sessionListeners)
      by now rewrite Tq.
    rewrite (transportOnEnd_session q Lt).
    set (q' := Socket.set_transport (Transport.onEnd (Socket.transport q)) q).
    assert (F' : flushes q' = true)
      by (unfold flushes; subst q'; cbn; now rewrite Oq, Wq).
    destruct (flush_now q' F' Dq) as (X1 & X2 & X3 & X4 & X5 & X6 & X7).
    change (Socket.writeBuffer q') with (Socket.writeBuffer q) in X1, X2.
    change (Socket.log q') with (Socket.log q) in X1.
    change (Socket.sentCallbackFn q') with (Socket.sentCallbackFn q) in X5.
    change (Transport.tid (Socket.transport q'))
      with (Transport.tid (Socket.transport q)) in X1.
    rewrite Wq, Tq in X1. rewrite Wq in X2.
    rewrite Cq, (M q' Pq) in X5 by (subst q'; cbn; now rewrite Tq).
    rewrite (websocket_send_one pkt (Socket.transport q'))
      in X2 by (subst q'; cbn; now rewrite Tq).
    set (s1 := Socket.flush pdc q') in *. clearbody s1.
    cbn [app] in X5.
    rewrite (onDrain_entry s1 (Socket.Fn f) [] X5).
    cbn [Socket.log Socket.set_log Socket.transport Socket.set_sentCallbackFn
         functionsOf map].
    repeat split; auto.
    + rewrite X1, <- app_assoc. reflexivity.
    + now rewrite X2.
    + set (s2 := Socket.set_log _ _).
      assert (L2 : Transport.listeners (Socket.transport s2) = sessionListeners)
        by (subst s2; cbn; rewrite X2; subst q'; cbn; now rewrite Tq).
      rewrite (transportOnEnd_session s2 L2).
      rewrite flush_idle
        by (unfold flushes; subst s2; cbn; rewrite X3;
            now rewrite !andb_false_r).
      reflexivity.
Qed.

End Callbacks.
(** ** No packet is lost or reordered (Socket.sendPacket, Socket.flush) *)

Lemma flushed_app l1 l2 :
  flushed (l1 ++ l2) = (flushed l1 ++ flushed l2)%list.
Proof.
  induction l1 as [|[[]| | | | | | |] l1 IH]; simpl; auto.
  now rewrite IH, app_assoc.
Qed.

(** A step that makes and flushes nothing and, unless the session is closed
    after it, leaves the state, the write buffer and the tick as they
    are. *)
Lemma conserved_same x y :
  created (Socket.log y) = created (Socket.log x) ->
  flushed (Socket.log y) = flushed (Socket.log x) ->
  (Socket.readyState y <> Socket.Closed ->
   Socket.readyState x <> Socket.Closed /\
   Socket.writeBuffer y = Socket.writeBuffer x /\
   Socket.nextTick y = Socket.nextTick x) ->
  conserved x -> conserved y.
Proof.
  intros C F A [E L]. split; rewrite C, F; [exact E|].
  intros N. destruct (A N) as (Nx & W & T). rewrite W, T. auto.
Qed.

Lemma conserved_record x e :
  still e = true -> conserved x -> conserved (Socket.record e x).
Proof.
  intros P. apply conserved_same; [| |auto]; cbn.
  - rewrite created_app. destruct e as [[]| | | | | | |]; cbn in *;
      try discriminate; now rewrite app_nil_r.
  - rewrite flushed_app. destruct e as [[]| | | | | | |]; cbn in *;
      try discriminate; now rewrite app_nil_r.
Qed.

Lemma conserved_emit x e :
  still (Socket.Emit e) = true -> conserved x -> conserved (Socket.emit e x).
Proof. apply conserved_record. Qed.

Lemma conserved_closed y :
  Socket.readyState y = Socket.Closed ->
  (exists rest,
     created (Socket.log y) = (flushed (Socket.log y) ++ rest)%list) ->
  conserved y.
Proof.
  intros R E. split; [exact E|]. congruence.
Qed.

Lemma conserved_prefix x :
  conserved x ->
  exists rest,
    created (Socket.log x) = (flushed (Socket.log x) ++ rest)%list.
Proof. now intros [E _]. Qed.

Lemma conserved_set_packetsFn x v :
  conserved x -> conserved (Socket.set_packetsFn v x).
Proof. apply conserved_same; [reflexivity|reflexivity|auto]. Qed.

Lemma conserved_set_sentCallbackFn x v :
  conserved x -> conserved (Socket.set_sentCallbackFn v x).
Proof. apply conserved_same; [reflexivity|reflexivity|auto]. Qed.

Lemma conserved_set_cleanupFn x v :
  conserved x -> conserved (Socket.set_cleanupFn v x).
Proof. apply conserved_same; [reflexivity|reflexivity|auto]. Qed.

Lemma conserved_set_transport x v :
  conserved x -> conserved (Socket.set_transport v x).
Proof. apply conserved_same; [reflexivity|reflexivity|auto]. Qed.

Lemma conserved_set_checkIntervalTimer x v :
  conserved x -> conserved (Socket.set_checkIntervalTimer v x).
Proof. apply conserved_same; [reflexivity|reflexivity|auto]. Qed.

Lemma conserved_set_upgradeTimeoutTimer x v :
  conserved x -> conserved (Socket.set_upgradeTimeoutTimer v x).
Proof. apply conserved_same; [reflexivity|reflexivity|auto]. Qed.

Lemma conserved_set_pingTimeoutTimer x v :
  conserved x -> conserved (Socket.set_pingTimeoutTimer v x).
Proof. apply conserved_same; [reflexivity|reflexivity|auto]. Qed.

Lemma conserved_set_pingIntervalTimer x v :
  conserved x -> conserved (Socket.set_pingIntervalTimer v x).
Proof. apply conserved_same; [reflexivity|reflexivity|auto]. Qed.

Lemma conserved_set_drainListeners x v :
  conserved x -> conserved (Socket.set_drainListeners v x).
Proof. apply conserved_same; [reflexivity|reflexivity|auto]. Qed.

Lemma conserved_set_closeListener x v :
  conserved x -> conserved (Socket.set_closeListener v x).
Proof. apply conserved_same; [reflexivity|reflexivity|auto]. Qed.

Lemma conserved_set_candidate x v :
  conserved x -> conserved (Socket.set_candidate v x).
Proof. apply conserved_same; [reflexivity|reflexivity|auto]. Qed.

Lemma conserved_set_retired x v :
  conserved x -> conserved (Socket.set_retired v x).
Proof. apply conserved_same; [reflexivity|reflexivity|auto]. Qed.

Lemma conserved_set_nextTick x v :
  Socket.readyState x = Socket.Closed ->
  conserved x -> conserved (Socket.set_nextTick v x).
Proof.
  intros R H. apply conserved_closed; [exact R|].
  exact (conserved_prefix x H).
Qed.

Lemma conserved_set_writeBuffer x v :
  Socket.readyState x = Socket.Closed ->
  conserved x -> conserved (Socket.set_writeBuffer v x).
Proof.
  intros R H. apply conserved_closed; [exact R|].
  exact (conserved_prefix x H).
Qed.

Lemma conserved_set_readyState x v :
  (v <> Socket.Closed -> Socket.readyState x <> Socket.Closed) ->
  conserved x -> conserved (Socket.set_readyState v x).
Proof.
  intros A. apply conserved_same; [reflexivity|reflexivity|].
  cbn. intros N. auto.
Qed.

(** [sendPacket] up to its call of [flush], and [flush] up to its call of
    [transport.send]. *)
Lemma conserved_push x p :
  Socket.readyState x <> Socket.Closed ->
  conserved x ->
  conserved
    (Socket.set_writeBuffer (Socket.writeBuffer x ++ [p])
       (Socket.emit (Socket.EvPacketCreate p) x)).
Proof.
  intros N [_ L]. destruct (L N) as [E T].
  assert (G : created (Socket.log x ++ [Socket.Emit (Socket.EvPacketCreate p)]) =
              (flushed (Socket.log x ++ [Socket.Emit (Socket.EvPacketCreate p)])
               ++ (Socket.writeBuffer x ++ [p]))%list).
  { rewrite created_app, flushed_app, E. cbn.
    now rewrite app_nil_r, app_assoc. }
  split; [eexists; exact G|]. intros _. split; [exact G|exact T].
Qed.

Lemma conserved_written x :
  Socket.readyState x <> Socket.Closed ->
  conserved x ->
  conserved
    (Socket.set_writeBuffer []
       (Socket.record (Socket.ServerEmit (Socket.EvFlush (Socket.writeBuffer x)))
          (Socket.emit (Socket.EvFlush (Socket.writeBuffer x)) x))).
Proof.
  intros N [_ L]. destruct (L N) as [E T].
  set (l := ((Socket.log x ++ [Socket.Emit (Socket.EvFlush (Socket.writeBuffer x))])
             ++ [Socket.ServerEmit (Socket.EvFlush (Socket.writeBuffer x))])%list).
  assert (G : created l = (flushed l ++ [])%list).
  { subst l. rewrite !created_app, !flushed_app, E. cbn.
    now rewrite !app_nil_r. }
  split; [eexists; exact G|]. intros _. split; [exact G|exact T].
Qed.


Lemma conserved_set_upgrading x v :
  conserved x -> conserved (Socket.set_upgrading v x).
Proof. apply conserved_same; [reflexivity|reflexivity|auto]. Qed.

Lemma conserved_set_upgraded x v :
  conserved x -> conserved (Socket.set_upgraded v x).
Proof. apply conserved_same; [reflexivity|reflexivity|auto]. Qed.

Lemma conserved_clearTimer x n : conserved x -> conserved (Socket.clearTimer n x).
Proof.
  intros H. unfold Socket.clearTimer. apply conserved_record; [reflexivity|].
  destruct n; cbn;
    auto using conserved_set_pingIntervalTimer, conserved_set_pingTimeoutTimer,
      conserved_set_checkIntervalTimer, conserved_set_upgradeTimeoutTimer.
Qed.

Lemma conserved_armTimer x n ms :
  conserved x -> conserved (Socket.armTimer n ms x).
Proof.
  intros H. unfold Socket.armTimer. apply conserved_record; [reflexivity|].
  destruct n; cbn;
    auto using conserved_set_pingIntervalTimer, conserved_set_pingTimeoutTimer,
      conserved_set_checkIntervalTimer, conserved_set_upgradeTimeoutTimer.
Qed.

Create HintDb conserved.

#[local] Hint Resolve conserved_clearTimer conserved_armTimer
  conserved_set_packetsFn
  conserved_set_sentCallbackFn
  conserved_set_cleanupFn
  conserved_set_transport
  conserved_set_checkIntervalTimer
  conserved_set_upgradeTimeoutTimer
  conserved_set_pingTimeoutTimer
  conserved_set_pingIntervalTimer
  conserved_set_drainListeners
  conserved_set_closeListener
  conserved_set_candidate
  conserved_set_retired
  conserved_set_upgrading
  conserved_set_upgraded : conserved.
#[local] Hint Extern 1 (conserved (Socket.record _ _)) =>
  apply conserved_record; [reflexivity|] : conserved.
#[local] Hint Extern 1 (conserved (Socket.emit _ _)) =>
  apply conserved_emit; [reflexivity|] : conserved.

Section Conservation.

Variable pdc : Transport.t -> Transport.t * bool.

Lemma conserved_transportSend x ps :
  conserved x -> conserved (Socket.transportSend ps x).
Proof. unfold Socket.transportSend. auto with conserved. Qed.

Lemma conserved_schedulePing x : conserved x -> conserved (Socket.schedulePing x).
Proof. unfold Socket.schedulePing. auto with conserved. Qed.

Lemma conserved_resetPingTimeout x ms :
  conserved x -> conserved (Socket.resetPingTimeout ms x).
Proof. unfold Socket.resetPingTimeout. auto with conserved. Qed.

Lemma conserved_setTransport x tr :
  conserved x -> conserved (Socket.setTransport tr x).
Proof.
  unfold Socket.setTransport, Socket.setupSendCallback. auto 10 with conserved.
Qed.

Lemma conserved_shiftCleanups x n :
  conserved x -> conserved (Socket.shiftCleanups n x).
Proof.
  intros H. destruct (shiftCleanups_shape n x) as (cf & ls & ->).
  auto with conserved.
Qed.

Lemma conserved_cleanup x : conserved x -> conserved (Socket.cleanup x).
Proof. unfold Socket.cleanup. auto 10 with conserved. Qed.

Lemma conserved_closeCandidate x :
  conserved x -> conserved (Socket.closeCandidate pdc x).
Proof.
  unfold Socket.closeCandidate. destruct (Socket.candidate x);
    auto 10 with conserved.
Qed.

Lemma conserved_upgradeOnError x :
  conserved x -> conserved (Socket.upgradeOnError pdc x).
Proof.
  unfold Socket.upgradeOnError.
  auto using conserved_closeCandidate, conserved_cleanup.
Qed.

Lemma conserved_clearTransport x :
  conserved x -> conserved (Socket.clearTransport pdc x).
Proof.
  intros H. unfold Socket.clearTransport.
  auto 10 using conserved_shiftCleanups with conserved.
Qed.

Lemma conserved_emitClose x r d :
  conserved x -> conserved (Socket.emitClose pdc r d x).
Proof.
  intros H. unfold Socket.emitClose.
  destruct (Socket.closeListener _);
    auto using conserved_upgradeOnError with conserved.
Qed.

Lemma conserved_onClose x r d :
  conserved x -> conserved (Socket.onClose pdc r d x).
Proof.
  intros H. unfold Socket.onClose.
  destruct (Socket.readyState x) eqn:E; [| | |exact H].
  all: apply conserved_emitClose, conserved_clearTransport,
         conserved_set_sentCallbackFn, conserved_set_packetsFn,
         conserved_set_nextTick; [reflexivity|].
  all: repeat apply conserved_clearTimer.
  all: apply conserved_set_readyState; [congruence|exact H].
Qed.

Lemma conserved_closeTransport x d :
  conserved x -> conserved (Socket.closeTransport pdc d x).
Proof.
  intros H. unfold Socket.closeTransport.
  set (x1 := if d then _ else x).
  assert (H1 : conserved x1) by (subst x1; destruct d; auto with conserved).
  clearbody x1.
  destruct (Transport.close pdc (Socket.transport x1)) as [tr now].
  destruct now; auto using conserved_onClose with conserved.
Qed.

Lemma conserved_closeTransports ds : forall x,
  conserved x ->
  conserved (fold_left (fun s d => Socket.closeTransport pdc d s) ds x).
Proof.
  induction ds as [|d ds IH]; intros x H; simpl; auto.
  apply IH, conserved_closeTransport, H.
Qed.

Lemma conserved_emitDrain x : conserved x -> conserved (Socket.emitDrain pdc x).
Proof.
  intros H. unfold Socket.emitDrain.
  apply conserved_closeTransports. auto with conserved.
Qed.

Lemma conserved_flush x : conserved x -> conserved (Socket.flush pdc x).
Proof.
  intros H. unfold Socket.flush.
  destruct (match Socket.readyState x with
            | Socket.Closed => false
            | _ => true
            end) eqn:M; [|exact H].
  assert (N : Socket.readyState x <> Socket.Closed)
    by (intros C; rewrite C in M; discriminate).
  cbn [andb]. destruct (_ && _); [|exact H].
  apply conserved_record; [reflexivity|].
  apply conserved_emitDrain, conserved_transportSend.
  destruct (negb _);
    apply conserved_set_packetsFn, conserved_set_sentCallbackFn,
      (conserved_written x N H).
Qed.

Lemma conserved_sendPacket x ty d o cb :
  conserved x -> conserved (Socket.sendPacket pdc ty d o cb x).
Proof.
  intros H. unfold Socket.sendPacket.
  destruct (Socket.readyState x) eqn:E; auto; apply conserved_flush.
  all: assert (N : Socket.readyState x <> Socket.Closed) by congruence.
  all: destruct o, cb; try apply conserved_set_packetsFn;
    apply (conserved_push x _ N H).
Qed.

Lemma conserved_onDrain x : conserved x -> conserved (Socket.onDrain x).
Proof.
  intros H. unfold Socket.onDrain.
  destruct (Socket.sentCallbackFn x) as [|[f|fs] rest]; auto with conserved.
  assert (G : conserved (Socket.set_sentCallbackFn rest x)) by auto with conserved.
  revert G. generalize (Socket.set_sentCallbackFn rest x).
  induction fs as [|f fs IH]; intros y G; simpl; auto with conserved.
Qed.

Lemma conserved_onPacket x p :
  conserved x -> conserved (Socket.onPacket pdc p x).
Proof.
  intros H. unfold Socket.onPacket.
  destruct (Socket.readyState x); auto.
  repeat destruct (String.eqb _ _);
    auto 10 using conserved_onClose, conserved_schedulePing,
      conserved_resetPingTimeout with conserved.
Qed.

Lemma conserved_pingIntervalExpires x :
  conserved x -> conserved (Socket.pingIntervalExpires pdc x).
Proof.
  intros H. unfold Socket.pingIntervalExpires.
  destruct (Socket.pingIntervalTimer x); auto.
  apply conserved_resetPingTimeout, conserved_sendPacket. auto with conserved.
Qed.

Lemma conserved_pingTimeoutExpires x :
  conserved x -> conserved (Socket.pingTimeoutExpires pdc x).
Proof.
  intros H. unfold Socket.pingTimeoutExpires.
  destruct (Socket.pingTimeoutTimer x); auto.
  cbn. destruct (Socket.readyState x);
    auto using conserved_onClose with conserved.
Qed.

Lemma conserved_upgradeTimeoutExpires x :
  conserved x -> conserved (Socket.upgradeTimeoutExpires pdc x).
Proof.
  intros H. unfold Socket.upgradeTimeoutExpires.
  destruct (Socket.upgradeTimeoutTimer x); auto.
  set (y := Socket.cleanup _).
  assert (Y : conserved y) by (subst y; auto using conserved_cleanup with conserved).
  clearbody y.
  destruct (Socket.candidate y) as [c|]; auto.
  destruct (Transport.readyState c); auto using conserved_closeCandidate.
Qed.

Lemma conserved_checkIntervalTick x :
  conserved x -> conserved (Socket.checkIntervalTick x).
Proof.
  intros H. unfold Socket.checkIntervalTick, Socket.check.
  destruct (Socket.checkIntervalTimer x); auto.
  destruct (_ && _); auto using conserved_transportSend.
Qed.

Lemma conserved_close x d :
  conserved x -> conserved (fst (Socket.close pdc d x)).
Proof.
  intros H. unfold Socket.close.
  destruct (Socket.readyState x) eqn:E; auto.
  assert (G : conserved (Socket.set_readyState Socket.Closing x))
    by (apply conserved_set_readyState; [congruence|exact H]).
  destruct (negb _); cbn; auto using conserved_closeTransport with conserved.
Qed.

Lemma conserved_maybeUpgrade x tr :
  conserved x -> conserved (Socket.maybeUpgrade tr x).
Proof. unfold Socket.maybeUpgrade. auto 10 with conserved. Qed.

Lemma conserved_runNextTick x :
  conserved x -> conserved (Socket.runNextTick x).
Proof.
  intros H. unfold Socket.runNextTick.
  destruct (Socket.nextTick x) eqn:T; [|exact H].
  assert (R : Socket.readyState x = Socket.Closed).
  { destruct H as [_ L].
    destruct (Socket.readyState x); try reflexivity;
      destruct L as [_ L]; congruence. }
  apply conserved_set_writeBuffer; [exact R|].
  apply conserved_set_nextTick; [exact R|exact H].
Qed.

Lemma conserved_upgradeOnPacket x p :
  conserved x -> conserved (Socket.upgradeOnPacket pdc p x).
Proof.
  intros H. unfold Socket.upgradeOnPacket.
  destruct (Socket.candidate x) as [c|]; auto.
  destruct (_ && _); [auto 10 with conserved|].
  destruct (_ && _); [|auto using conserved_closeCandidate, conserved_cleanup].
  set (y := Socket.set_retired _ _).
  assert (Y : conserved y).
  { subst y. apply conserved_set_retired, conserved_clearTransport.
    auto 10 using conserved_cleanup with conserved. }
  clearbody y.
  set (z := match Socket.candidate y with Some _ => _ | None => y end).
  assert (Z : conserved z).
  { subst z. destruct (Socket.candidate y);
      auto using conserved_setTransport with conserved. }
  clearbody z.
  set (w := Socket.flush pdc _).
  assert (W : conserved w).
  { subst w. apply conserved_flush, conserved_schedulePing. auto with conserved. }
  clearbody w.
  destruct (Socket.readyState w); auto using conserved_closeTransport.
Qed.

Lemma conserved_listener x l e :
  conserved x -> conserved (Socket.listener pdc l e x).
Proof.
  intros H. destruct l, e; cbn;
    auto using conserved_onClose, conserved_onPacket, conserved_flush, conserved_onDrain,
      conserved_upgradeOnPacket, conserved_upgradeOnError.
  all: unfold Socket.onError; auto using conserved_onClose.
Qed.

Lemma conserved_transportEmit x e :
  conserved x -> conserved (Socket.transportEmit pdc e x).
Proof.
  unfold Socket.transportEmit.
  generalize (filter (Socket.handles e) (Transport.listeners (Socket.transport x))).
  intros ls. revert x.
  induction ls as [|l ls IH]; intros x H; simpl; auto.
  apply IH, conserved_listener. destruct (Socket.once l); auto with conserved.
Qed.

Lemma conserved_candidateEmit x e :
  conserved x -> conserved (Socket.candidateEmit pdc e x).
Proof.
  unfold Socket.candidateEmit. destruct (Socket.candidate x) as [c|]; auto.
  generalize (filter (Socket.handles e) (Transport.listeners c)).
  intros ls. revert x.
  induction ls as [|l ls IH]; intros x H; simpl; auto.
  apply IH, conserved_listener. destruct (Socket.once l); auto with conserved.
Qed.

Lemma conserved_react x i : conserved x -> conserved (Life.react pdc i x).
Proof.
  intros H. destruct i as [e| |w|e|d o cb|d|n| |j|]; unfold Life.react.
  - now apply conserved_transportEmit.
  - unfold Socket.transportOnEnd. apply conserved_transportEmit. auto with conserved.
  - auto with conserved.
  - now apply conserved_candidateEmit.
  - now apply conserved_sendPacket.
  - now apply conserved_close.
  - destruct n; auto using conserved_pingIntervalExpires,
      conserved_pingTimeoutExpires, conserved_checkIntervalTick,
      conserved_upgradeTimeoutExpires.
  - now apply conserved_runNextTick.
  - destruct (_ || _ || _); auto using conserved_maybeUpgrade.
  - now apply conserved_onClose.
Qed.

Lemma conserved_run inputs : forall x,
  conserved x -> conserved (Life.run pdc inputs x).
Proof.
  induction inputs as [|i inputs IH]; intros x H; simpl; auto.
  apply IH, conserved_react, H.
Qed.

Lemma conserved_create i o tr : conserved (Socket.create pdc i o tr).
Proof.
  unfold Socket.create.
  match goal with
  | |- context [Socket.setTransport tr ?r] => set (s0 := r)
  end.
  assert (S0 : conserved s0)
    by (split; [now exists []|intros _; split; reflexivity]).
  unfold Socket.onOpen.
  apply conserved_schedulePing, conserved_emit; [reflexivity|].
  set (y := Socket.set_transport _ _).
  assert (Y : conserved y).
  { subst y. apply conserved_set_transport, conserved_set_readyState.
    - intros _. change (Socket.readyState (Socket.setTransport tr s0))
        with Socket.Opening. discriminate.
    - now apply conserved_setTransport. }
  clearbody y.
  destruct (JS.truthy _); auto using conserved_sendPacket.
Qed.

End Conservation.

(** X21: no packet is lost or reordered while a session lives.  Take a
    session as the constructor makes it and let anything happen to it.
    The packets it has written, as its "flush" events list them, are the
    first of the packets it has made, as its "packetCreate" events list
    them, in the same order; and as long as the session is not closed, the
    packets made and not yet written are its write buffer, in the order
    they were made. *)
Theorem packets_written_in_order pdc inputs i o tr :
  let s := Life.run pdc inputs (Socket.create pdc i o tr) in
  (exists rest,
     created (Socket.log s) = (flushed (Socket.log s) ++ rest)%list) /\
  (Socket.readyState s <> Socket.Closed ->
   created (Socket.log s) =
     (flushed (Socket.log s) ++ Socket.writeBuffer s)%list).
Proof.
  cbn zeta.
  destruct (conserved_run pdc inputs _ (conserved_create pdc i o tr))
    as [E L].
  split; [exact E|].
  intros N. exact (proj1 (L N)).
Qed.

(** ** Header values (checkInvalidHeaderChar) *)

Lemma fieldVchar_codes c :
  fieldVchar c = false <->
  ((nat_of_ascii c < 32 /\ nat_of_ascii c <> 9) \/ nat_of_ascii c = 127)%nat.
Proof.
  unfold fieldVchar. cbn zeta.
  destruct (Nat.eqb_spec (nat_of_ascii c) 9),
    (Nat.leb_spec 32 (nat_of_ascii c)),
    (Nat.leb_spec (nat_of_ascii c) 126),
    (Nat.leb_spec 128 (nat_of_ascii c)); cbn; split; intros G;
    try discriminate; try reflexivity; try lia.
Qed.

(** X22: [checkInvalidHeaderChar] examines every character.  The four
    tests written out and the loop that follows them together find a value
    invalid exactly when one of its characters, at whatever index, is a
    control character other than the tab, or DEL.  So the empty value is
    valid, a value is valid when its parts are, and no valid value holds a
    line break. *)
Theorem header_check_examines_every_character val val' :
  (Server.checkInvalidHeaderChar (Some val) = true <->
   exists c,
     In c (list_ascii_of_string val) /\
     ((nat_of_ascii c < 32 /\ nat_of_ascii c <> 9) \/ nat_of_ascii c = 127)%nat) /\
  Server.checkInvalidHeaderChar (Some "") = false /\
  Server.checkInvalidHeaderChar (Some (val ++ val')) =
    Server.checkInvalidHeaderChar (Some val)
    || Server.checkInvalidHeaderChar (Some val') /\
  (Server.checkInvalidHeaderChar (Some val) = false ->
   ~ In (ascii_of_nat 13) (list_ascii_of_string val) /\
   ~ In (ascii_of_nat 10) (list_ascii_of_string val)).
Proof.
  assert (A : forall v,
    Server.checkInvalidHeaderChar (Some v) = true <->
    exists c,
      In c (list_ascii_of_string v) /\
      ((nat_of_ascii c < 32 /\ nat_of_ascii c <> 9) \/ nat_of_ascii c = 127)%nat).
  { intros v. rewrite checkInvalidHeaderChar_invalidOrigin.
    unfold invalidOrigin. rewrite existsb_exists.
    split; intros (c & I & H); exists c; (split; [exact I|]).
    - apply fieldVchar_codes. now destruct (fieldVchar c).
    - apply fieldVchar_codes in H. now rewrite H. }
  split; [apply A|]. split; [reflexivity|]. split.
  - rewrite !checkInvalidHeaderChar_invalidOrigin. unfold invalidOrigin.
    rewrite <- existsb_app. f_equal.
    induction val as [|c r IH]; [reflexivity|].
    change (String c r ++ val') with (String c (r ++ val')).
    cbn [list_ascii_of_string]. now rewrite IH.
  - intros V. split; intros I.
    + assert (T : Server.checkInvalidHeaderChar (Some val) = true).
      { apply A. exists (ascii_of_nat 13). split; [exact I|].
        left. rewrite nat_ascii_embedding by lia. lia. }
      congruence.
    + assert (T : Server.checkInvalidHeaderChar (Some val) = true).
      { apply A. exists (ascii_of_nat 10). split; [exact I|].
        left. rewrite nat_ascii_embedding by lia. lia. }
      congruence.
Qed.

(** ** The theorems at work *)

(** An upgrade packet on the candidate of [upgradingSession] commits the
    upgrade to the websocket, and the open packet that was waiting in the
    write buffer is handed to the websocket. *)
Lemma upgrade_handler_commits :
  Socket.candidate upgradingSession = Some candidateTransport /\
  Socket.readyState upgradingSession <> Socket.Closed /\
  Socket.upgraded
    (Socket.upgradeOnPacket laterPoll upgradePacket upgradingSession) = true /\
  Socket.upgrading
    (Socket.upgradeOnPacket laterPoll upgradePacket upgradingSession) = false /\
  Transport.tid
    (Socket.transport
       (Socket.upgradeOnPacket laterPoll upgradePacket upgradingSession)) =
  Transport.tid candidateTransport /\
  Socket.writeBuffer upgradingSession =
    [openPacket "abc" default_opts Transport.Polling] /\
  handed (Socket.log upgradingSession) = [] /\
  Socket.writeBuffer
    (Socket.upgradeOnPacket laterPoll upgradePacket upgradingSession) = [] /\
  handed
    (Socket.log
       (Socket.upgradeOnPacket laterPoll upgradePacket upgradingSession)) =
  [(Transport.tid candidateTransport,
    [openPacket "abc" default_opts Transport.Polling])].
Proof.
  assert (Hc : Socket.candidate upgradingSession = Some candidateTransport)
    by reflexivity.
  assert (Hr : Socket.readyState upgradingSession <> Socket.Closed)
    by discriminate.
  split; [exact Hc|]. split; [exact Hr|].
  destruct (upgrade_handler laterPoll upgradingSession candidateTransport
              upgradePacket Hc Hr) as [_ H].
  change (isProbe upgradePacket) with false in H.
  change (isUpgrade upgradePacket) with true in H.
  cbv iota in H.
  destruct H as (_ & _ & _ & U1 & U2 & U3 & _ & _ & U4 & U5).
  split; [exact U1|]. split; [exact U2|]. split; [exact U3|].
  split; [reflexivity|]. split; [reflexivity|].
  split; [exact U4|exact U5].
Defined.

(** A pong re-arms the ping interval of [websocketSession], and the expiry
    of its ping timeout closes it. *)
Lemma heartbeat_of_websocketSession :
  Socket.readyState websocketSession = Socket.Open /\
  Socket.pingIntervalTimer (Socket.onPacket laterPoll pongPacket websocketSession)
    = Some 25000 /\
  Socket.pingTimeoutTimer (Socket.onPacket laterPoll pongPacket websocketSession)
    = Some 30000.
Proof.
  assert (O : Socket.readyState websocketSession = Socket.Open) by reflexivity.
  split; [exact O|].
  destruct (heartbeat_timers laterPoll websocketSession pongPacket) as (_ & H & _).
  destruct (H O) as (P & _ & _ & T).
  split; [exact (P eq_refl) | apply T; discriminate].
Defined.

(** On [websocketSession] a "drain" of the transport runs [flush] and then
    the handler of [setupSendCallback]. *)
Lemma drain_of_websocketSession :
  Transport.listeners (Socket.transport websocketSession) = sessionListeners /\
  Socket.transportEmit laterPoll Socket.TDrain websocketSession =
  Socket.onDrain (Socket.flush laterPoll websocketSession).
Proof.
  assert (L : Transport.listeners (Socket.transport websocketSession) =
              sessionListeners) by reflexivity.
  split; [exact L|].
  destruct (flush_and_drain laterPoll websocketSession) as (_ & _ & H).
  exact (H L).
Defined.

(** A poll for an unknown session is answered with status 400 and the code
    UNKNOWN_SID.  The string "4" and a Buffer that holds the text "4" are
    keys of the table of messages and answered with status 400; a text that
    is no key is answered with status 403. *)
Lemma stray_request_answered_400 :
  snd (Server.handleRequest laterPoll idlePoll strayRequest None 0
         (Server.create default_opts)) =
  Some (errorResponse 400
          (jsonHeader ++ [("Access-Control-Allow-Origin", "*")])
          (Json.Num Server.UNKNOWN_SID) (Json.Str "Session ID unknown")) /\
  Server.sendErrorMessage strayRequest true (JS.Str "4") =
    errorResponse 400 (jsonHeader ++ [("Access-Control-Allow-Origin", "*")])
      (Json.Str "4") (Json.Str "Forbidden") /\
  Server.sendErrorMessage strayRequest true (JS.Buffer [Byte.x34]) =
    errorResponse 400 (jsonHeader ++ [("Access-Control-Allow-Origin", "*")])
      (Json.Obj [("type", Json.Str "Buffer");
                 ("data", Json.Arr [Json.Num 52])])
      (Json.Str "Forbidden") /\
  Server.sendErrorMessage strayRequest true (JS.Str "not allowed") =
    errorResponse 403 jsonHeader (Json.Num Server.FORBIDDEN)
      (Json.Str "not allowed").
Proof.
  destruct (error_response laterPoll idlePoll strayRequest None 0
              (Server.create default_opts) Server.FORBIDDEN "not allowed"
              (JS.Num Server.UNKNOWN_SID) [Byte.x34])
    as (H & _ & _ & _ & T & _ & _ & _ & _ & _ & _ & _ & S & _).
  split; [rewrite (H eq_refl); reflexivity|].
  split; [exact (S "Forbidden" eq_refl)|].
  split; [reflexivity|].
  exact (T eq_refl eq_refl).
Defined.

(** After one handshake the table holds one client and the count is one. *)
Lemma clientsCount_of_oneClient :
  reachable laterPoll idlePoll default_opts oneClient /\
  Server.clientsCount oneClient = 1 /\
  Server.clientsCount oneClient = Z.of_nat (size (Server.clients oneClient)).
Proof.
  assert (R : reachable laterPoll idlePoll default_opts oneClient).
  { eapply reach_step; [apply reach_create|].
    apply step_handshake. apply lookup_empty. }
  split; [exact R|]. split; [reflexivity|].
  exact (proj1 (clientsCount_is_size laterPoll idlePoll default_opts
                  oneClient R)).
Defined.

(** Once [websocketSession] is closed, a send, a timer and a "drain" leave
    no trace. *)
Lemma closed_websocketSession_is_final :
  Socket.readyState (Life.run laterPoll [Life.ForcedClose] websocketSession)
    = Socket.Closed /\
  Socket.log
    (Life.run laterPoll
       [Life.Send (JS.Str "late") Socket.NoOptions None;
        Life.Expires Socket.PingInterval;
        Life.FromTransport Socket.TDrain]
       (Life.run laterPoll [Life.ForcedClose] websocketSession)) =
  Socket.log (Life.run laterPoll [Life.ForcedClose] websocketSession).
Proof.
  assert (R : Socket.readyState
                (Life.run laterPoll [Life.ForcedClose] websocketSession)
              = Socket.Closed) by reflexivity.
  split; [exact R|].
  destruct (closed_session_is_final laterPoll "xyz" default_opts 3
              Transport.WebSocket [Life.ForcedClose]
              [Life.Send (JS.Str "late") Socket.NoOptions None;
               Life.Expires Socket.PingInterval;
               Life.FromTransport Socket.TDrain] R)
    as (_ & _ & _ & _ & _ & _ & L).
  exact L.
Defined.

(** [websocketSession] closes when its transport does, and loses its write
    buffer one tick later. *)
Lemma websocketSession_torn_down :
  Socket.readyState websocketSession <> Socket.Closed /\
  Socket.readyState
    (Socket.onClose laterPoll "transport close" None websocketSession)
    = Socket.Closed /\
  Socket.pingIntervalTimer
    (Socket.onClose laterPoll "transport close" None websocketSession)
    = None.
Proof.
  assert (N : Socket.readyState websocketSession <> Socket.Closed)
    by discriminate.
  split; [exact N|].
  destruct (onClose_tears_down laterPoll "transport close" None "again" None
              websocketSession N) as (R & T & _).
  exact (conj R T).
Defined.

(** The upgrade of [upgradingSession] times out: its open candidate is
    closed and dropped. *)
Lemma upgradingSession_times_out :
  Socket.candidate upgradingSession = Some candidateTransport /\
  Socket.upgradeTimeoutTimer upgradingSession = Some 10000 /\
  Socket.upgrading (Socket.upgradeTimeoutExpires laterPoll upgradingSession)
    = false /\
  Socket.candidate (Socket.upgradeTimeoutExpires laterPoll upgradingSession)
    = None.
Proof.
  assert (C : Socket.candidate upgradingSession = Some candidateTransport)
    by reflexivity.
  assert (T : Socket.upgradeTimeoutTimer upgradingSession = Some 10000)
    by reflexivity.
  split; [exact C|]. split; [exact T|].
  destruct (upgrade_timeout_gives_up laterPoll upgradingSession
              candidateTransport 10000 C T)
    as (U & _ & _ & _ & _ & _ & _ & M & _).
  split; [exact U|]. exact (proj1 M).
Defined.

(** An error of the candidate ends the upgrade of [upgradingSession]. *)
Lemma upgradingSession_abandons :
  Socket.candidate upgradingSession = Some candidateTransport /\
  Socket.candidate
    (Socket.candidateEmit laterPoll (Socket.TError "boom") upgradingSession)
    = None /\
  Socket.transport
    (Socket.candidateEmit laterPoll (Socket.TError "boom") upgradingSession)
    = Socket.transport upgradingSession.
Proof.
  assert (C : Socket.candidate upgradingSession = Some candidateTransport)
    by reflexivity.
  split; [exact C|].
  destruct (upgrade_abandoned laterPoll upgradingSession candidateTransport
              "boom" "transport close" None C eq_refl eq_refl)
    as ((G & K) & _).
  destruct G as (_ & _ & _ & _ & G & _). destruct K as (K & _).
  exact (conj G K).
Defined.

(** An error of its transport closes [websocketSession]. *)
Lemma websocketSession_transport_error :
  Transport.listeners (Socket.transport websocketSession) = sessionListeners /\
  Socket.readyState
    (Socket.transportEmit laterPoll (Socket.TError "boom") websocketSession)
    = Socket.Closed.
Proof.
  assert (L : Transport.listeners (Socket.transport websocketSession) =
              sessionListeners) by reflexivity.
  assert (N : Socket.readyState websocketSession <> Socket.Closed)
    by discriminate.
  split; [exact L|].
  destruct (transport_failure_closes_session laterPoll websocketSession
              "boom" pongPacket L N) as ((R & _) & _).
  exact R.
Defined.

Lemma oneClient_reachable : reachable laterPoll idlePoll default_opts oneClient.
Proof.
  eapply reach_step; [apply reach_create|].
  apply step_handshake. apply lookup_empty.
Qed.

Lemma oneClient_abc : Server.clients oneClient !! "abc" = Some pollingSession.
Proof. vm_compute. reflexivity. Qed.

(** A polling transport is not writable when the constructor of a session
    is done with it: nothing was flushed. *)
Lemma sendPacket_waits ty d o cb x :
  Transport.writable (Socket.transport x) = false ->
  Socket.transport (Socket.sendPacket laterPoll ty d o cb x) =
  Socket.transport x.
Proof.
  intros W.
  destruct (Socket.readyState x) eqn:R.
  1,2: rewrite sendPacket_accepted by auto;
    rewrite flush_idle; [reflexivity|];
    unfold flushes;
    change (Socket.transport (enqueue _ _ x)) with (Socket.transport x);
    rewrite W; now destruct (Socket.readyState _).
  all: rewrite sendPacket_rejected by auto; reflexivity.
Qed.

Lemma onOpen_waits x :
  Transport.writable (Socket.transport x) = false ->
  Transport.writable (Socket.transport (Socket.onOpen laterPoll x)) = false.
Proof.
  intros W. unfold Socket.onOpen. cbn zeta.
  change (Transport.writable
            (Socket.transport (Socket.schedulePing (Socket.emit Socket.EvOpen ?y))))
    with (Transport.writable (Socket.transport y)).
  destruct (JS.truthy _); rewrite ?sendPacket_waits; try exact W;
    rewrite sendPacket_waits; exact W.
Qed.

Lemma create_polling_waits id o i :
  Transport.writable
    (Socket.transport
       (Socket.create laterPoll id o (Transport.create i Transport.Polling)))
  = false.
Proof. unfold Socket.create. apply onOpen_waits. reflexivity. Qed.

(** [overlapPoll] lets the first request of a new session wait. *)
Lemma overlapPoll_first req id o i :
  Socket.readyState
    (overlapPoll req
       (Socket.create laterPoll id o (Transport.create i Transport.Polling)))
  <> Socket.Closed.
Proof.
  assert (E : forall t x,
    Socket.readyState (Socket.set_transport t x) = Socket.readyState x)
    by reflexivity.
  unfold overlapPoll. rewrite create_polling_waits, E, create_open.
  discriminate.
Qed.

(** With a polling transport that closes a session on an overlapping GET,
    the session made by a handshake is in the table and not closed; a
    second GET closes it, and it is gone from the table. *)
Lemma overlapping_poll_leaves_table :
  reachable laterPoll overlapPoll default_opts waitingClient /\
  Server.clients waitingClient !! "abc" =
    Some (overlapPoll handshakeRequest pollingSession) /\
  Socket.readyState (overlapPoll handshakeRequest pollingSession)
    <> Socket.Closed /\
  Socket.readyState
    (overlapPoll secondPoll (overlapPoll handshakeRequest pollingSession))
    = Socket.Closed /\
  Server.clients
    (fst (Server.handleRequest laterPoll overlapPoll secondPoll None 0
            waitingClient)) !! "abc" = None.
Proof.
  assert (R : reachable laterPoll overlapPoll default_opts waitingClient).
  { eapply reach_step; [apply reach_create|].
    apply step_handshake. apply lookup_empty. }
  assert (L : Server.clients waitingClient !! "abc" =
              Some (overlapPoll handshakeRequest pollingSession))
    by (vm_compute; reflexivity).
  split; [exact R|]. split; [exact L|].
  split.
  - exact (proj1 (closed_sessions_leave_table laterPoll overlapPoll
                    overlapPoll_first default_opts waitingClient "abc"
                    _ R L)).
  - split; vm_compute; reflexivity.
Defined.

(** Closing [oneClient] leaves its session closing, waiting for a
    "drain". *)
Lemma oneClient_closed :
  Server.clients (Server.close laterPoll oneClient) !! "abc" =
    Some (fst (Socket.close laterPoll true pollingSession)) /\
  Socket.readyState (fst (Socket.close laterPoll true pollingSession))
    <> Socket.Open.
Proof.
  assert (H : Server.clients (Server.close laterPoll oneClient) !! "abc" =
              Some (fst (Socket.close laterPoll true pollingSession)))
    by (vm_compute; reflexivity).
  split; [exact H|].
  exact (server_close_leaves_none_open laterPoll oneClient "abc" _ H).
Defined.

(** A websocket handshake and the close of its session leave a new server
    empty again. *)
Lemma websocket_handshake_round_trip :
  Server.clients
    (Server.sessionStep "w1"
       (Socket.onClose laterPoll "transport close" None)
       (fst (Server.handshake laterPoll idlePoll "websocket"
               websocketHandshake (Some "w1") 7
               (Server.create default_opts)))) = ∅.
Proof.
  destruct (handshake_then_close_restores laterPoll idlePoll
              websocketHandshake "w1" 7 (Server.create default_opts)
              (Socket.onClose laterPoll "transport close" None)
              eq_refl (lookup_empty _) (fun H => H))
    as (_ & _ & _ & _ & H).
  exact (proj1 (H (onClose_closed laterPoll _ _ _))).
Defined.

(** The stray request is answered and leaves a new server as it was. *)
Lemma stray_request_changes_nothing :
  fst (Server.handleRequest laterPoll idlePoll strayRequest None 0
         (Server.create default_opts)) = Server.create default_opts.
Proof.
  exact (proj1 (answered_request_changes_nothing laterPoll idlePoll
                  strayRequest None 0 (Server.create default_opts) _
                  eq_refl)).
Defined.

(** The split Origin is not copied into the answer to [splitPoll]. *)
Lemma split_origin_not_copied :
  Server.checkInvalidHeaderChar (Some splitOrigin) = true /\
  exists r,
    snd (Server.handleRequest laterPoll idlePoll splitPoll None 0
           (Server.create default_opts)) = Some (Server.Wrote r) /\
    Http.headers r =
      [("Content-Type", "application/json");
       ("Access-Control-Allow-Origin", "*")] /\
    Forall (fun kv => Server.checkInvalidHeaderChar (Some (snd kv)) = false)
      (Http.headers r).
Proof.
  split; [reflexivity|].
  eexists. split; [reflexivity|]. split; [reflexivity|].
  exact (error_response_origin_is_checked laterPoll idlePoll splitPoll None 0
           (Server.create default_opts) "polling" _ eq_refl eq_refl eq_refl).
Defined.

(** The split Origin is copied into the answer to [splitUnknown]. *)
Lemma split_origin_copied :
  Server.checkInvalidHeaderChar (Some splitOrigin) = true /\
  exists r,
    snd (Server.handleRequest laterPoll idlePoll splitUnknown None 0
           (Server.create default_opts)) = Some (Server.Wrote r) /\
    In ("Access-Control-Allow-Origin", splitOrigin) (Http.headers r).
Proof.
  split; [reflexivity|].
  eexists. split.
  - rewrite (unknown_transport_answered_first laterPoll idlePoll splitUnknown
               None 0 (Server.create default_opts) splitOrigin
               eq_refl eq_refl).
    + reflexivity.
    + discriminate.
  - cbn. auto.
Defined.

(** An upgrade request for an unknown session is aborted with a 400. *)
Lemma stray_upgrade_aborted :
  snd (Server.verify (Server.create default_opts) strayRequest true) =
    (JS.Num Server.UNKNOWN_SID, false) /\
  exists socket',
    Upgrade.handleUpgrade (Server.create default_opts) strayRequest
      freshConnection = Upgrade.Aborted socket' /\
    Net.destroyed socket' = true.
Proof.
  assert (V : snd (Server.verify (Server.create default_opts) strayRequest
                     true) = (JS.Num Server.UNKNOWN_SID, false))
    by reflexivity.
  split; [exact V|].
  destruct (upgrade_rejection (Server.create default_opts) strayRequest
              freshConnection (JS.Num Server.UNKNOWN_SID) 1 "" [] V)
    as (socket' & H & D & _).
  exists socket'. exact (conj H D).
Defined.

(** A websocket connection for the session of [oneClient] starts its
    upgrade; a second one is closed. *)
Lemma oneClient_upgrades_once :
  snd (Upgrade.onWebSocket laterPoll idlePoll upgradeRequest None 2 oneClient)
    = Upgrade.MaybeUpgrade "abc" 2 /\
  snd (Upgrade.onWebSocket laterPoll idlePoll upgradeRequest None 3
         (fst (Upgrade.onWebSocket laterPoll idlePoll upgradeRequest None 2
                 oneClient)))
    = Upgrade.SocketClosed.
Proof.
  destruct (one_upgrade_at_a_time laterPoll idlePoll upgradeRequest
              upgradeRequest None None 2 3 oneClient "abc" pollingSession
              eq_refl eq_refl eq_refl oneClient_abc eq_refl eq_refl)
    as (A & _ & _ & _ & _ & _ & B).
  split; [exact A|]. rewrite B; [reflexivity|discriminate].
Defined.

(** After that connection the count of [oneClient] is still the size of its
    table. *)
Lemma oneClient_upgrade_is_a_step :
  Server.clientsCount
    (fst (Upgrade.onWebSocket laterPoll idlePoll upgradeRequest None 2
            oneClient)) =
  Z.of_nat
    (size (Server.clients
             (fst (Upgrade.onWebSocket laterPoll idlePoll upgradeRequest
                     None 2 oneClient)))).
Proof.
  exact (proj1 (proj2 (websocket_connection_is_a_step laterPoll idlePoll
                         default_opts upgradeRequest None 2 oneClient I
                         oneClient_reachable))).
Defined.

(** The callback of a send on [idleSession] is called when the write is
    done. *)
Lemma idleSession_callback :
  Transport.writable (Socket.transport idleSession) = true /\
  Socket.log
    (Socket.transportOnEnd laterPoll
       (fst (Socket.send laterPoll (JS.Str "hi") Socket.NoOptions (Some 7%nat)
               idleSession))) =
  (Socket.log
     (fst (Socket.send laterPoll (JS.Str "hi") Socket.NoOptions (Some 7%nat)
             idleSession)) ++ [Socket.Invoke 7%nat])%list.
Proof.
  split; [reflexivity|].
  pose proof (send_callback_timing laterPoll idleSession (JS.Str "hi") 7%nat
                eq_refl eq_refl eq_refl eq_refl eq_refl eq_refl eq_refl) as H.
  cbn zeta in H.
  change (Transport.writable (Socket.transport idleSession)) with true in H.
  cbv iota in H.
  destruct H as (_ & _ & H & _). exact H.
Defined.
